(** * Context Snapshot Engine: a shallow embedding of claude-context-reporter

    The development follows the source files one module each:
    - [ConsoleCapture]  : src/utils/console-capture.ts
    - [StateCapture]    : src/state-adapters (index, redux, zustand, jotai)
    - [Reporter]        : src/utils/reporter.ts
    - [DomUtils]        : src/utils/dom-utils.ts
    - [ComponentPath]   : src/utils/component-path.ts
    - [ContextCapture]  : src/hooks/useContextCapture.ts

    JavaScript strings are modelled by [string], one character per code
    unit; JavaScript exceptions by the [result] type below. *)

From Stdlib Require Import String Ascii List ZArith Lia Bool Arith.
From Stdlib Require Import Numbers.DecimalString QArith Qround.
Import ListNotations.
Set Warnings "-register-all".
Close Scope Q_scope.
Open Scope list_scope.
Open Scope string_scope.

(** ** Exceptions *)

Inductive JsError : Type :=
| TypeError
| RangeError
| SyntaxError
| SecurityError
| QuotaExceededError
| AbortError
| NetworkError
| UserError (msg : string).

Inductive result (A : Type) : Type :=
| Ok (a : A)
| Throw (e : JsError).
Arguments Ok {A} a.
Arguments Throw {A} e.

Definition bind {A B : Type} (c : result A) (k : A -> result B) : result B :=
  match c with
  | Ok a => k a
  | Throw e => Throw e
  end.

(** [try c handler] is [try { c } catch { handler }]. *)
Definition try_catch {A : Type} (c : result A) (handler : JsError -> result A)
  : result A :=
  match c with
  | Ok a => Ok a
  | Throw e => handler e
  end.

Declare Scope js_scope.
Delimit Scope js_scope with js.
Notation "x <- c ;; k" := (bind c (fun x => k))
  (at level 61, c at next level, right associativity) : js_scope.

Definition returns {A : Type} (c : result A) : Prop := exists a, c = Ok a.

Lemma bind_Ok_inv {A B : Type} (c : result A) (k : A -> result B) (b : B) :
  bind c k = Ok b -> exists a, c = Ok a /\ k a = Ok b.
Proof.
  destruct c as [a|e]; simpl; intros H; [exists a; auto | discriminate].
Qed.

Lemma bind_Throw_inv {A B : Type} (c : result A) (k : A -> result B) e :
  bind c k = Throw e ->
  c = Throw e \/ exists a, c = Ok a /\ k a = Throw e.
Proof.
  destruct c as [a|e']; simpl; intros H.
  - right; exists a; auto.
  - left; injection H as ->; reflexivity.
Qed.

Lemma returns_bind {A B : Type} (c : result A) (k : A -> result B) :
  returns c -> (forall a, c = Ok a -> returns (k a)) -> returns (bind c k).
Proof.
  intros [a Ha] Hk. specialize (Hk a Ha). rewrite Ha. exact Hk.
Qed.

Lemma returns_Ok {A : Type} (a : A) : returns (Ok a).
Proof. exists a. reflexivity. Qed.

Lemma Ok_inj {A : Type} (a b : A) : Ok a = Ok b -> a = b.
Proof. intros H. injection H as ->. reflexivity. Qed.

(** [list.map(f)] with a callback that can throw. *)
Fixpoint mapR {A B : Type} (f : A -> result B) (l : list A)
  : result (list B) :=
  match l with
  | [] => Ok []
  | a :: rest =>
      (b <- f a ;;
       bs <- mapR f rest ;;
       Ok (b :: bs))%js
  end.

(** A [for (const e of l)] loop over an accumulator, with a body that
    can throw. *)
Fixpoint foldR {A B : Type} (step : A -> B -> result A) (l : list B) (acc : A)
  : result A :=
  match l with
  | [] => Ok acc
  | e :: rest => (next <- step acc e ;; foldR step rest next)%js
  end.

(** ** String primitives of the runtime *)

Module JsString.

(** [s.startsWith(p)] *)
Definition startsWith (p s : string) : bool := String.prefix p s.

(** [hay.includes(needle)] *)
Fixpoint includes (needle hay : string) : bool :=
  if String.prefix needle hay then true
  else match hay with
       | EmptyString => false
       | String _ rest => includes needle rest
       end.

(** [s.slice(a, b)] for [0 <= a], [0 <= b]; also [s.substring(a, b)]
    when [a <= b]. *)
Definition slice (s : string) (a b : nat) : string :=
  String.substring a (b - a) s.

(** [parts.join(sep)] *)
Definition join (sep : string) (parts : list string) : string :=
  String.concat sep parts.

(** White space removed by [trim()], among the code units below 256. *)
Definition is_space (c : ascii) : bool :=
  let n := nat_of_ascii c in
  ((n =? 9) || (n =? 10) || (n =? 11) || (n =? 12) || (n =? 13)
   || (n =? 32) || (n =? 160))%nat.

Fixpoint trimStart (s : string) : string :=
  match s with
  | EmptyString => EmptyString
  | String c rest => if is_space c then trimStart rest else s
  end.

(** Drops trailing white space: the result is empty when everything
    from here on is white space. *)
Fixpoint trimEnd (s : string) : string :=
  match s with
  | EmptyString => EmptyString
  | String c rest =>
      match trimEnd rest with
      | EmptyString => if is_space c then EmptyString
                       else String c EmptyString
      | r => String c r
      end
  end.

Definition trim (s : string) : string := trimEnd (trimStart s).

(** [s.split(sep)] for a one-character separator. *)
Fixpoint split (sep : ascii) (s : string) : list string :=
  match s with
  | EmptyString => [EmptyString]
  | String c rest =>
      if Ascii.eqb c sep then EmptyString :: split sep rest
      else match split sep rest with
           | [] => [String c EmptyString]
           | w :: ws => String c w :: ws
           end
  end.

(** Decimal rendering of an integer, as template literals do. *)
Definition of_Z (z : Z) : string := NilZero.string_of_int (Z.to_int z).

(** The double-quote character, as a string. *)
Definition dq : string := String (ascii_of_nat 34) EmptyString.

Definition isAsciiUpper (c : ascii) : bool :=
  let n := nat_of_ascii c in ((65 <=? n) && (n <=? 90))%nat.

(** [toLowerCase()] on one code unit below 256. *)
Definition toLowerCaseChar (c : ascii) : ascii :=
  let n := nat_of_ascii c in
  if (((65 <=? n) && (n <=? 90))
      || ((192 <=? n) && (n <=? 222) && negb (n =? 215)))%nat
  then ascii_of_nat (n + 32) else c.

Fixpoint toLowerCase (s : string) : string :=
  match s with
  | EmptyString => EmptyString
  | String c rest => String (toLowerCaseChar c) (toLowerCase rest)
  end.

(** [s.replace(/([A-Z])/g, '-$1')] *)
Fixpoint dashBeforeUpper (s : string) : string :=
  match s with
  | EmptyString => EmptyString
  | String c rest =>
      if isAsciiUpper c then String "-" (String c (dashBeforeUpper rest))
      else String c (dashBeforeUpper rest)
  end.

Definition endsWith (suffix s : string) : bool :=
  let n := String.length s in
  let k := String.length suffix in
  (k <=? n)%nat && String.eqb (String.substring (n - k) k s) suffix.

Lemma length_append (a b : string) :
  String.length (a ++ b) = String.length a + String.length b.
Proof. induction a; simpl; auto. Qed.

Lemma length_substring_le (n m : nat) (s : string) :
  String.length (String.substring n m s) <= m.
Proof.
  revert n m; induction s as [|c s IH]; intros n m.
  - destruct n, m; simpl; lia.
  - destruct n; simpl.
    + destruct m; simpl; [lia|]. specialize (IH 0 m). lia.
    + apply IH.
Qed.

Lemma length_slice_le (s : string) (a b : nat) :
  String.length (slice s a b) <= b - a.
Proof. apply length_substring_le. Qed.

Lemma prefix_append (p s : string) : String.prefix p (p ++ s) = true.
Proof. induction p; simpl; [destruct s; auto|].
       destruct (ascii_dec a a); [auto|congruence]. Qed.

Lemma prefix_split (p s : string) :
  String.prefix p s = true -> exists r, s = p ++ r.
Proof.
  revert s; induction p as [|c p IH]; intros s H.
  - exists s; reflexivity.
  - destruct s as [|d s]; simpl in H; [discriminate|].
    destruct (ascii_dec c d); [subst|discriminate].
    destruct (IH _ H) as [r ->]. exists r; reflexivity.
Qed.

Lemma includes_unfold (needle hay : string) :
  includes needle hay =
  if String.prefix needle hay then true
  else match hay with
       | EmptyString => false
       | String _ rest => includes needle rest
       end.
Proof. destruct hay; reflexivity. Qed.

(** [includes] finds the needle anywhere in the haystack. *)
Lemma includes_spec (needle hay : string) :
  includes needle hay = true <->
  exists pre post, hay = pre ++ needle ++ post.
Proof.
  split.
  - induction hay as [|c hay IH]; rewrite includes_unfold.
    + destruct (String.prefix needle "") eqn:E; intros H; [|discriminate H].
      apply prefix_split in E. destruct E as [r E].
      exists "", r. exact E.
    + destruct (String.prefix needle (String c hay)) eqn:E; intros H.
      * apply prefix_split in E. destruct E as [r E].
        exists "", r. exact E.
      * destruct (IH H) as (pre & post & ->).
        exists (String c pre), post. reflexivity.
  - intros (pre & post & ->).
    induction pre as [|c pre IH]; rewrite includes_unfold.
    + change ("" ++ needle ++ post) with (needle ++ post).
      rewrite prefix_append. reflexivity.
    + destruct (String.prefix needle _); [reflexivity | exact IH].
Qed.

End JsString.

(** ** Generic list facts used by the bounded buffers *)

(** The last [n] elements of a list, in order. *)
Definition lastn {A : Type} (n : nat) (l : list A) : list A :=
  skipn (length l - n) l.

Lemma lastn_all {A : Type} (n : nat) (l : list A) :
  length l <= n -> lastn n l = l.
Proof.
  intros H. unfold lastn. replace (length l - n) with 0 by lia. reflexivity.
Qed.

Lemma lastn_length {A : Type} (n : nat) (l : list A) :
  length (lastn n l) = Nat.min n (length l).
Proof. unfold lastn. rewrite length_skipn. lia. Qed.

Lemma lastn_app_r {A : Type} (n : nat) (l1 l2 : list A) :
  n <= length l2 -> lastn n (l1 ++ l2)%list = lastn n l2.
Proof.
  intros H. unfold lastn. rewrite length_app, skipn_app.
  rewrite skipn_all2 by lia. simpl. f_equal. lia.
Qed.

Lemma lastn_lastn_app {A : Type} (n : nat) (l l2 : list A) :
  lastn n (lastn n l ++ l2)%list = lastn n (l ++ l2)%list.
Proof.
  unfold lastn. rewrite !length_app, length_skipn.
  rewrite !skipn_app, !length_skipn, skipn_skipn.
  f_equal; [f_equal; lia | f_equal; lia].
Qed.

Lemma lastn_suffix {A : Type} (n : nat) (l : list A) :
  exists older, l = (older ++ lastn n l)%list.
Proof.
  exists (firstn (length l - n) l). unfold lastn.
  symmetry. apply firstn_skipn.
Qed.

(** * Console ring buffer (src/utils/console-capture.ts) *)

Module ConsoleCapture.

Inductive Level : Type := LevelError | LevelWarn.

Record ConsoleEntry : Type := mkEntry {
  level : Level;
  message : string;
  timestamp : Z
}.

Definition MAX_BUFFER_SIZE : nat := 50.
Definition MAX_AGE_MS : Z := 60000.

(** The tag of the reporter's own log lines. *)
Definition SELF_TAG : string := "[ContextReporter]".

(** An argument of a console call, seen through the three runtime
    conversions that [addToBuffer] applies to it. *)
Inductive ConsoleArg : Type :=
| ArgError (name msg : string) (stack : option string)
    (* [arg instanceof Error]; [stack] is [None] when falsy *)
| ArgObject (json : result (option string)) (str : string)
    (* [typeof arg === 'object']: the outcome of
       [JSON.stringify(arg, null, 2)] ([None] is [undefined]) and
       [String(arg)] *)
| ArgOther (str : string).
    (* anything else: [String(arg)] *)

Definition newline : string := String (ascii_of_nat 10) EmptyString.

(** The callback of [args.map(...)]; [None] is [undefined]. *)
Definition serializeArg (arg : ConsoleArg) : option string :=
  match arg with
  | ArgError name msg stack =>
      Some (name ++ ": " ++ msg ++ newline ++
            match stack with Some s => s | None => "" end)
  | ArgObject json str =>
      match json with
      | Ok r => r
      | Throw _ => Some str
      end
  | ArgOther str => Some str
  end.

(** [args.map(...).join(' ')]: [join] renders [undefined] as empty. *)
Definition messageOf (args : list ConsoleArg) : string :=
  JsString.join " "
    (map (fun a => match serializeArg a with
                   | Some s => s
                   | None => ""
                   end) args).

(** [while (consoleBuffer.length > MAX_BUFFER_SIZE) consoleBuffer.shift()] *)
Fixpoint trimBuffer (buf : list ConsoleEntry) : list ConsoleEntry :=
  match buf with
  | [] => []
  | _ :: rest =>
      if (MAX_BUFFER_SIZE <? length buf)%nat then trimBuffer rest else buf
  end.

(** [addToBuffer(level, args)] with [now] the value of [Date.now()]. *)
Definition addToBuffer (lvl : Level) (args : list ConsoleArg) (now : Z)
           (consoleBuffer : list ConsoleEntry) : list ConsoleEntry :=
  let message := messageOf args in
  if JsString.includes SELF_TAG message then consoleBuffer
  else
    trimBuffer
      (consoleBuffer ++
         [ {| level := lvl;
              message := JsString.slice message 0 1000;
              timestamp := now |} ]).

(** [getRecentConsoleEntries(maxAge)] *)
Definition getRecentConsoleEntries (maxAge now : Z)
           (consoleBuffer : list ConsoleEntry) : list ConsoleEntry :=
  let cutoff := (now - maxAge)%Z in
  filter (fun entry => (cutoff <? timestamp entry)%Z) consoleBuffer.

Definition clearConsoleBuffer (_ : list ConsoleEntry) : list ConsoleEntry :=
  [].

(** *** The intercepted console object *)

(** The function objects that can sit in [console.error] and
    [console.warn]: the platform's own, or the wrapper installed by
    [startConsoleCapture]. *)
Inductive ConsoleFn : Type :=
| NativeFn (lvl : Level)
| CaptureWrapper (lvl : Level).

Record State : Type := mkState {
  consoleBuffer : list ConsoleEntry;
  isIntercepting : bool;
  originalError : option ConsoleFn;
  originalWarn : option ConsoleFn;
  console_error : ConsoleFn;
  console_warn : ConsoleFn;
  (** what reached the platform's console, oldest first *)
  printed : list (Level * list ConsoleArg)
}.

Definition initial : State :=
  {| consoleBuffer := [];
     isIntercepting := false;
     originalError := None;
     originalWarn := None;
     console_error := NativeFn LevelError;
     console_warn := NativeFn LevelWarn;
     printed := [] |}.

Definition startConsoleCapture (st : State) : State :=
  if isIntercepting st then st
  else
    {| consoleBuffer := consoleBuffer st;
       isIntercepting := true;
       originalError := Some (console_error st);
       originalWarn := Some (console_warn st);
       console_error := CaptureWrapper LevelError;
       console_warn := CaptureWrapper LevelWarn;
       printed := printed st |}.

Definition stopConsoleCapture (st : State) : State :=
  if negb (isIntercepting st) then st
  else
    {| consoleBuffer := consoleBuffer st;
       isIntercepting := false;
       originalError := originalError st;
       originalWarn := originalWarn st;
       console_error := match originalError st with
                        | Some f => f
                        | None => console_error st
                        end;
       console_warn := match originalWarn st with
                       | Some f => f
                       | None => console_warn st
                       end;
       printed := printed st |}.

Definition withBuffer (st : State) (buf : list ConsoleEntry) : State :=
  {| consoleBuffer := buf;
     isIntercepting := isIntercepting st;
     originalError := originalError st;
     originalWarn := originalWarn st;
     console_error := console_error st;
     console_warn := console_warn st;
     printed := printed st |}.

Definition print (lvl : Level) (args : list ConsoleArg) (st : State)
  : State :=
  {| consoleBuffer := consoleBuffer st;
     isIntercepting := isIntercepting st;
     originalError := originalError st;
     originalWarn := originalWarn st;
     console_error := console_error st;
     console_warn := console_warn st;
     printed := printed st ++ [(lvl, args)] |}.

(** Calling a console function.  A wrapper records the call, then
    calls whatever [originalError] / [originalWarn] holds at that
    moment; [fuel] bounds the depth of such calls, [None] is a wrapper
    chain deeper than [fuel]. *)
Fixpoint applyFn (fuel : nat) (f : ConsoleFn) (args : list ConsoleArg)
         (now : Z) (st : State) : option State :=
  match fuel with
  | O => None
  | S fuel' =>
      match f with
      | NativeFn lvl => Some (print lvl args st)
      | CaptureWrapper lvl =>
          let st1 :=
            withBuffer st (addToBuffer lvl args now (consoleBuffer st)) in
          let original := match lvl with
                          | LevelError => originalError st1
                          | LevelWarn => originalWarn st1
                          end in
          match original with
          | Some g => applyFn fuel' g args now st1
          | None => Some st1
          end
      end
  end.

(** [console.error(...args)] or [console.warn(...args)]. *)
Definition consoleCall (fuel : nat) (lvl : Level) (args : list ConsoleArg)
           (now : Z) (st : State) : option State :=
  applyFn fuel
          (match lvl with
           | LevelError => console_error st
           | LevelWarn => console_warn st
           end) args now st.

(** Capture is active: the wrappers are installed over the platform's
    functions, as [startConsoleCapture] leaves them. *)
Definition capturing (st : State) : Prop :=
  isIntercepting st = true /\
  console_error st = CaptureWrapper LevelError /\
  console_warn st = CaptureWrapper LevelWarn /\
  originalError st = Some (NativeFn LevelError) /\
  originalWarn st = Some (NativeFn LevelWarn).

(** A recorded console call and the entry it leaves in the buffer. *)
Record Call : Type := mkCall {
  call_level : Level;
  call_args : list ConsoleArg;
  call_now : Z
}.

Definition isBuffered (c : Call) : bool :=
  negb (JsString.includes SELF_TAG (messageOf (call_args c))).

Definition entryOf (c : Call) : ConsoleEntry :=
  {| level := call_level c;
     message := JsString.slice (messageOf (call_args c)) 0 1000;
     timestamp := call_now c |}.

Definition addAll (calls : list Call) (buf : list ConsoleEntry)
  : list ConsoleEntry :=
  fold_left
    (fun b c => addToBuffer (call_level c) (call_args c) (call_now c) b)
    calls buf.

(** *** Facts about the buffer *)

Lemma trimBuffer_lastn (buf : list ConsoleEntry) :
  trimBuffer buf = lastn MAX_BUFFER_SIZE buf.
Proof.
  induction buf as [|e buf IH]; [reflexivity|].
  cbn [trimBuffer].
  destruct (Nat.ltb_spec MAX_BUFFER_SIZE (length (e :: buf))) as [Hlt|Hge].
  - rewrite IH. unfold lastn. cbn [length] in *.
    replace (S (length buf) - MAX_BUFFER_SIZE)
      with (S (length buf - MAX_BUFFER_SIZE)) by lia.
    reflexivity.
  - symmetry. apply lastn_all. exact Hge.
Qed.

Lemma addToBuffer_buffered (c : Call) (buf : list ConsoleEntry) :
  isBuffered c = true ->
  addToBuffer (call_level c) (call_args c) (call_now c) buf
  = lastn MAX_BUFFER_SIZE (buf ++ [entryOf c])%list.
Proof.
  unfold isBuffered, addToBuffer, entryOf. intros H.
  apply negb_true_iff in H. rewrite H. apply trimBuffer_lastn.
Qed.

Lemma addToBuffer_self_tagged (lvl : Level) (args : list ConsoleArg) (now : Z)
      (buf : list ConsoleEntry) :
  JsString.includes SELF_TAG (messageOf args) = true ->
  addToBuffer lvl args now buf = buf.
Proof. unfold addToBuffer. intros ->. reflexivity. Qed.

Lemma addAll_lastn (calls : list Call) :
  forall buf,
    forallb isBuffered calls = true ->
    calls <> [] ->
    addAll calls buf
    = lastn MAX_BUFFER_SIZE (buf ++ map entryOf calls)%list.
Proof.
  induction calls as [|c cs IH]; intros buf Hall Hne; [congruence|].
  cbn [forallb] in Hall. apply andb_true_iff in Hall as [Hc Hcs].
  unfold addAll in *. cbn [fold_left map].
  rewrite (addToBuffer_buffered c buf Hc).
  destruct cs as [|c' cs'].
  - reflexivity.
  - rewrite IH by (auto; discriminate).
    rewrite lastn_lastn_app, <- app_assoc. reflexivity.
Qed.

Lemma startConsoleCapture_capturing : capturing (startConsoleCapture initial).
Proof. repeat split. Qed.

Lemma startConsoleCapture_idempotent (st : State) :
  startConsoleCapture (startConsoleCapture st) = startConsoleCapture st.
Proof.
  unfold startConsoleCapture.
  destruct (isIntercepting st) eqn:E; [rewrite E|]; reflexivity.
Qed.

(** C4. After more than [MAX_BUFFER_SIZE] = 50 calls that are all
    buffered (none carries the reporter's own tag), whatever the buffer
    held before, it holds exactly 50 entries, and they are the entries of
    the 50 most recent calls in call order: the older ones were shifted
    out first. *)
Theorem ring_buffer_keeps_most_recent :
  forall (buf : list ConsoleEntry) (calls : list Call),
    forallb isBuffered calls = true ->
    MAX_BUFFER_SIZE < length calls ->
    length (addAll calls buf) = 50 /\
    addAll calls buf = skipn (length calls - 50) (map entryOf calls) /\
    exists evicted,
      (buf ++ map entryOf calls = evicted ++ addAll calls buf)%list.
Proof.
  intros buf calls Hall Hlen.
  assert (Hne : calls <> []) by (destruct calls; [inversion Hlen | discriminate]).
  rewrite (addAll_lastn calls buf Hall Hne).
  assert (Hm : MAX_BUFFER_SIZE <= length (map entryOf calls))
    by (rewrite length_map; lia).
  rewrite (lastn_app_r _ buf _ Hm).
  split; [|split].
  - rewrite lastn_length, length_map. unfold MAX_BUFFER_SIZE in *. lia.
  - unfold lastn. rewrite length_map. reflexivity.
  - rewrite <- (lastn_app_r _ buf _ Hm). apply lastn_suffix.
Qed.

Definition sample_arg (n : nat) : ConsoleArg :=
  ArgOther ("render failed #" ++ JsString.of_Z (Z.of_nat n)).

Definition sample_calls : list Call :=
  map (fun n => {| call_level := LevelError;
                   call_args := [sample_arg n];
                   call_now := Z.of_nat (1000 + n) |}) (seq 0 53).

Lemma ring_buffer_keeps_most_recent_witness :
  length (addAll sample_calls []) = 50 /\
  addAll sample_calls []
  = skipn (length sample_calls - 50) (map entryOf sample_calls) /\
  exists evicted,
    ([] ++ map entryOf sample_calls
     = evicted ++ addAll sample_calls [])%list.
Proof.
  apply (ring_buffer_keeps_most_recent [] sample_calls).
  - vm_compute. reflexivity.
  - vm_compute. lia.
Defined.

(** C10. While capture is active, a [console.error] or [console.warn]
    call returns after passing its arguments on to the platform console,
    and it leaves the ring buffer untouched exactly when its serialized,
    space-joined message contains ["[ContextReporter]"] somewhere, whoever
    wrote it; every other call is appended (and the buffer trimmed to its
    50 newest entries). *)
Theorem self_tagged_messages_are_dropped :
  forall (st : State) (lvl : Level) (args : list ConsoleArg) (now : Z),
    capturing st ->
    exists st',
      consoleCall 2 lvl args now st = Some st' /\
      printed st' = (printed st ++ [(lvl, args)])%list /\
      ((exists pre post, messageOf args = pre ++ SELF_TAG ++ post) ->
       consoleBuffer st' = consoleBuffer st) /\
      (~ (exists pre post, messageOf args = pre ++ SELF_TAG ++ post) ->
       consoleBuffer st'
       = lastn MAX_BUFFER_SIZE
           (consoleBuffer st ++
              [ {| level := lvl;
                   message := JsString.slice (messageOf args) 0 1000;
                   timestamp := now |} ])%list).
Proof.
  intros st lvl args now (Hi & He & Hw & Hoe & How).
  unfold consoleCall.
  destruct lvl; [rewrite He | rewrite Hw]; cbn [applyFn withBuffer originalError originalWarn];
    [rewrite Hoe | rewrite How]; cbn [applyFn];
    eexists; (split; [reflexivity|]); cbn [print printed consoleBuffer];
    (split; [reflexivity|]); split; intros Htag.
  - apply JsString.includes_spec in Htag.
    apply addToBuffer_self_tagged; exact Htag.
  - unfold addToBuffer.
    destruct (JsString.includes SELF_TAG (messageOf args)) eqn:E.
    + exfalso. apply Htag. apply JsString.includes_spec. exact E.
    + apply trimBuffer_lastn.
  - apply JsString.includes_spec in Htag.
    apply addToBuffer_self_tagged; exact Htag.
  - unfold addToBuffer.
    destruct (JsString.includes SELF_TAG (messageOf args)) eqn:E.
    + exfalso. apply Htag. apply JsString.includes_spec. exact E.
    + apply trimBuffer_lastn.
Qed.

Definition user_args : list ConsoleArg :=
  [ArgOther "upload failed, see [ContextReporter] docs"].

Lemma self_tagged_messages_are_dropped_witness :
  capturing (startConsoleCapture initial) /\
  exists st',
    consoleCall 2 LevelWarn user_args 42 (startConsoleCapture initial)
    = Some st' /\
    consoleBuffer st' = [].
Proof.
  split; [exact startConsoleCapture_capturing|].
  destruct (self_tagged_messages_are_dropped
              (startConsoleCapture initial) LevelWarn user_args 42
              startConsoleCapture_capturing)
    as (st' & Hcall & _ & Htag & _).
  exists st'. split; [exact Hcall|].
  apply Htag. exists "upload failed, see ", " docs". reflexivity.
Defined.

(** *** The buffer over any run *)

(** An entry as [addToBuffer] writes it: at most 1000 characters, and
    no reporter tag inside. *)
Definition entryOk (e : ConsoleEntry) : Prop :=
  String.length (message e) <= 1000 /\
  JsString.includes SELF_TAG (message e) = false.

(** The buffer holds its entries in clock order. *)
Fixpoint chronological (buf : list ConsoleEntry) : Prop :=
  match buf with
  | [] => True
  | e :: rest =>
      Forall (fun later => (timestamp e <= timestamp later)%Z) rest /\
      chronological rest
  end.

Lemma substring_is_prefix (n : nat) (s : string) :
  exists rest, s = String.substring 0 n s ++ rest.
Proof.
  revert n; induction s as [|c s IH]; intros n.
  - exists "". destruct n; reflexivity.
  - destruct n as [|n]; cbn [String.substring].
    + exists (String c s). reflexivity.
    + destruct (IH n) as [rest E]. exists rest. cbn. rewrite <- E. reflexivity.
Qed.

Lemma append_assoc3 (a b c : string) : (a ++ b) ++ c = a ++ b ++ c.
Proof. induction a as [|x a IH]; cbn; [reflexivity | rewrite IH; reflexivity]. Qed.

Lemma includes_slice (needle s : string) (n : nat) :
  JsString.includes needle (JsString.slice s 0 n) = true ->
  JsString.includes needle s = true.
Proof.
  intros H. apply JsString.includes_spec in H as (pre & post & E).
  apply JsString.includes_spec.
  unfold JsString.slice in E. rewrite Nat.sub_0_r in E.
  destruct (substring_is_prefix n s) as [rest Hs].
  exists pre, (post ++ rest). rewrite Hs at 1. rewrite E.
  rewrite !append_assoc3. reflexivity.
Qed.

Lemma lastn_Forall_entries {A : Type} (Q : A -> Prop) (n : nat) (l : list A) :
  Forall Q l -> Forall Q (lastn n l).
Proof.
  intros H. destruct (lastn_suffix n l) as [older E].
  rewrite E in H. apply Forall_app in H. apply H.
Qed.

Lemma addToBuffer_entryOk (lvl : Level) (args : list ConsoleArg) (now : Z)
      (buf : list ConsoleEntry) :
  Forall entryOk buf ->
  length (addToBuffer lvl args now buf) <= Nat.max MAX_BUFFER_SIZE (length buf)
  /\ Forall entryOk (addToBuffer lvl args now buf).
Proof.
  intros Hbuf. unfold addToBuffer.
  destruct (JsString.includes SELF_TAG (messageOf args)) eqn:Htag.
  - split; [lia | exact Hbuf].
  - rewrite trimBuffer_lastn. split.
    + rewrite lastn_length. lia.
    + apply lastn_Forall_entries. apply Forall_app. split; [exact Hbuf|].
      constructor; [|constructor]. split; cbn [message].
      * pose proof (JsString.length_slice_le (messageOf args) 0 1000). lia.
      * destruct (JsString.includes SELF_TAG
                    (JsString.slice (messageOf args) 0 1000)) eqn:E;
          [|reflexivity].
        apply includes_slice in E. congruence.
Qed.

Lemma addAll_entryOk (calls : list Call) :
  forall buf,
    length buf <= MAX_BUFFER_SIZE -> Forall entryOk buf ->
    length (addAll calls buf) <= MAX_BUFFER_SIZE /\
    Forall entryOk (addAll calls buf).
Proof.
  induction calls as [|c cs IH]; intros buf Hlen Hok; [split; assumption|].
  unfold addAll in *. cbn [fold_left].
  destruct (addToBuffer_entryOk (call_level c) (call_args c) (call_now c)
                                buf Hok) as [Hl Ho].
  apply IH; [lia | exact Ho].
Qed.

(** X1. *)
Theorem buffer_stays_bounded_and_untagged :
  forall (calls : list Call),
    length (addAll calls []) <= 50 /\
    Forall (fun e =>
              String.length (message e) <= 1000 /\
              ~ (exists pre post, message e = pre ++ SELF_TAG ++ post))
           (addAll calls []).
Proof.
  intros calls.
  destruct (addAll_entryOk calls []) as [Hlen Hok];
    [cbn; lia | constructor |].
  split; [exact Hlen|].
  eapply Forall_impl; [|exact Hok].
  intros e [Hm Ht]. split; [exact Hm|].
  intros Hex. apply JsString.includes_spec in Hex. congruence.
Qed.

Lemma filter_keeps_all {A : Type} (p : A -> bool) (l : list A) :
  Forall (fun x => p x = true) l -> filter p l = l.
Proof.
  induction 1 as [|x l Hx Hl IH]; cbn; [reflexivity|].
  rewrite Hx, IH. reflexivity.
Qed.

(** X2. On a buffer whose entries are in clock order,
    [getRecentConsoleEntries(maxAge)] returns a suffix of the buffer: the
    entries left out are the oldest ones, all at or before the cutoff
    [now - maxAge], and every entry returned is strictly newer than it. *)
Theorem recent_entries_are_the_newest_suffix :
  forall (buf : list ConsoleEntry) (maxAge now : Z),
    chronological buf ->
    exists older,
      buf = (older ++ getRecentConsoleEntries maxAge now buf)%list /\
      Forall (fun e => (timestamp e <= now - maxAge)%Z) older /\
      Forall (fun e => (now - maxAge < timestamp e)%Z)
             (getRecentConsoleEntries maxAge now buf).
Proof.
  intros buf maxAge now. unfold getRecentConsoleEntries.
  induction buf as [|e rest IH]; intros Hsorted.
  - exists []. repeat split; constructor.
  - destruct Hsorted as [Hle Hrest]. cbn [filter].
    destruct (Z.ltb_spec (now - maxAge) (timestamp e)) as [Hnew|Hold].
    + exists []. rewrite filter_keeps_all.
      * repeat split; [constructor|]. constructor; [exact Hnew|].
        eapply Forall_impl; [|exact Hle]. cbn. intros; lia.
      * eapply Forall_impl; [|exact Hle]. cbn. intros a Ha.
        apply Z.ltb_lt. lia.
    + destruct (IH Hrest) as (older & Hsplit & Hold' & Hnew').
      exists (e :: older). repeat split.
      * cbn. rewrite <- Hsplit. reflexivity.
      * constructor; assumption.
      * exact Hnew'.
Qed.

Definition two_errors : list ConsoleEntry :=
  [ {| level := LevelError; message := "first"; timestamp := 1000 |};
    {| level := LevelWarn; message := "second"; timestamp := 40000 |} ].

Lemma recent_entries_are_the_newest_suffix_witness :
  chronological two_errors /\
  exists older,
    two_errors = (older ++ getRecentConsoleEntries 30000 50000 two_errors)%list
    /\ Forall (fun e => (timestamp e <= 50000 - 30000)%Z) older
    /\ Forall (fun e => (50000 - 30000 < timestamp e)%Z)
              (getRecentConsoleEntries 30000 50000 two_errors).
Proof.
  assert (H : chronological two_errors).
  { cbn. repeat split; repeat constructor; cbn; lia. }
  split; [exact H|].
  exact (recent_entries_are_the_newest_suffix two_errors 30000 50000 H).
Defined.

(** X3. Starting the capture twice and stopping it once gives the
    console back: the second [startConsoleCapture] wraps nothing, so
    [stopConsoleCapture] reinstalls the functions that were in place before
    the first start, and neither the buffer nor what was printed changes. *)
Theorem second_start_and_stop_restore_console :
  forall (st : State),
    isIntercepting st = false ->
    let st' :=
      stopConsoleCapture (startConsoleCapture (startConsoleCapture st)) in
    console_error st' = console_error st /\
    console_warn st' = console_warn st /\
    isIntercepting st' = false /\
    consoleBuffer st' = consoleBuffer st /\
    printed st' = printed st.
Proof.
  intros st H. rewrite startConsoleCapture_idempotent.
  unfold startConsoleCapture, stopConsoleCapture.
  rewrite H. cbn. repeat split.
Qed.

Lemma second_start_and_stop_restore_console_witness :
  isIntercepting initial = false /\
  console_error
    (stopConsoleCapture (startConsoleCapture (startConsoleCapture initial)))
  = NativeFn LevelError.
Proof.
  split; [reflexivity|].
  apply (second_start_and_stop_restore_console initial eq_refl).
Defined.

(** X4. After [stopConsoleCapture], a [console.error] or [console.warn]
    call goes straight to the platform console and leaves the buffer as it
    was. *)
Theorem stopped_capture_records_nothing :
  forall (st : State) (lvl : Level) (args : list ConsoleArg) (now : Z),
    capturing st ->
    exists st',
      consoleCall 1 lvl args now (stopConsoleCapture st) = Some st' /\
      consoleBuffer st' = consoleBuffer st /\
      printed st' = (printed st ++ [(lvl, args)])%list.
Proof.
  intros st lvl args now (Hi & He & Hw & Hoe & How).
  unfold consoleCall, stopConsoleCapture. rewrite Hi. cbn [negb].
  cbn [console_error console_warn]. rewrite Hoe, How.
  destruct lvl; cbn [applyFn]; eexists; repeat split.
Qed.

Lemma stopped_capture_records_nothing_witness :
  capturing (startConsoleCapture initial) /\
  exists st',
    consoleCall 1 LevelError [ArgOther "boom"] 7
                (stopConsoleCapture (startConsoleCapture initial)) = Some st' /\
    consoleBuffer st' = [] /\
    printed st' = [(LevelError, [ArgOther "boom"])].
Proof.
  split; [exact startConsoleCapture_capturing|].
  exact (stopped_capture_records_nothing (startConsoleCapture initial)
           LevelError [ArgOther "boom"] 7 startConsoleCapture_capturing).
Defined.

End ConsoleCapture.

(** * JavaScript values *)

(** State objects, props and hook values: plain data.  [JNum n] is the
    Number nearest to the integer [n]; the code below inspects a number,
    beyond its type, only through the length of an array or string and
    when it prints it.  An object is the list of its own enumerable
    properties in enumeration order. *)
Inductive JsValue : Type :=
| JUndefined
| JNull
| JBool (b : bool)
| JNum (n : Z)
| JStr (s : string)
| JBigInt (n : Z)
| JFunction
| JSymbol
| JArr (items : list JsValue)
| JObj (props : list (string * JsValue)).

Definition Props : Type := list (string * JsValue).

Section JsValue_induction.
Variable P : JsValue -> Prop.
Hypothesis P_undefined : P JUndefined.
Hypothesis P_null : P JNull.
Hypothesis P_bool : forall b, P (JBool b).
Hypothesis P_num : forall n, P (JNum n).
Hypothesis P_str : forall s, P (JStr s).
Hypothesis P_bigint : forall n, P (JBigInt n).
Hypothesis P_function : P JFunction.
Hypothesis P_symbol : P JSymbol.
Hypothesis P_arr : forall items, Forall P items -> P (JArr items).
Hypothesis P_obj :
  forall props, Forall (fun kv => P (snd kv)) props -> P (JObj props).

Fixpoint JsValue_nested_ind (v : JsValue) : P v :=
  match v with
  | JUndefined => P_undefined
  | JNull => P_null
  | JBool b => P_bool b
  | JNum n => P_num n
  | JStr s => P_str s
  | JBigInt n => P_bigint n
  | JFunction => P_function
  | JSymbol => P_symbol
  | JArr items =>
      P_arr items
        ((fix all (l : list JsValue) : Forall P l :=
            match l with
            | [] => Forall_nil P
            | x :: r => Forall_cons x (JsValue_nested_ind x) (all r)
            end) items)
  | JObj props =>
      P_obj props
        ((fix all (l : Props) : Forall (fun kv => P (snd kv)) l :=
            match l with
            | [] => Forall_nil _
            | kv :: r =>
                Forall_cons kv (JsValue_nested_ind (snd kv)) (all r)
            end) props)
  end.
End JsValue_induction.

(** [o[key] = value] on an object held as its property list. *)
Fixpoint obj_set {V : Type} (o : list (string * V)) (key : string) (value : V)
  : list (string * V) :=
  match o with
  | [] => [(key, value)]
  | (k, v) :: rest =>
      if String.eqb k key then (k, value) :: rest
      else (k, v) :: obj_set rest key value
  end.

(** [o[key]], [None] when the property is absent. *)
Fixpoint obj_get {V : Type} (o : list (string * V)) (key : string)
  : option V :=
  match o with
  | [] => None
  | (k, v) :: rest => if String.eqb k key then Some v else obj_get rest key
  end.

(** JavaScript truthiness. *)
Definition truthy (v : JsValue) : bool :=
  match v with
  | JUndefined | JNull => false
  | JBool b => b
  | JNum n => negb (n =? 0)%Z
  | JStr s => negb (String.eqb s "")
  | JBigInt n => negb (n =? 0)%Z
  | JFunction | JSymbol | JArr _ | JObj _ => true
  end.

Lemma obj_set_entry {V : Type} (o : list (string * V)) (key : string)
      (value : V) (k : string) (v : V) :
  In (k, v) (obj_set o key value) -> In (k, v) o \/ (k = key /\ v = value).
Proof.
  induction o as [|[k0 v0] rest IH]; cbn [obj_set].
  - intros [H|[]]. inversion H; subst. right; auto.
  - destruct (String.eqb k0 key) eqn:E.
    + apply String.eqb_eq in E; subst.
      intros [H|H]; [inversion H; subst; right; auto | left; right; exact H].
    + intros [H|H]; [left; left; exact H|].
      destruct (IH H) as [H'|H']; [left; right; exact H' | right; exact H'].
Qed.

Lemma obj_get_set_same {V : Type} (o : list (string * V)) (key : string)
      (value : V) :
  obj_get (obj_set o key value) key = Some value.
Proof.
  induction o as [|[k0 v0] rest IH]; cbn [obj_set obj_get].
  - rewrite String.eqb_refl. reflexivity.
  - destruct (String.eqb k0 key) eqn:E; cbn [obj_get]; rewrite E; auto.
Qed.

Lemma obj_get_set_other {V : Type} (o : list (string * V))
      (key key' : string) (value : V) :
  key' <> key ->
  obj_get (obj_set o key value) key' = obj_get o key'.
Proof.
  intros Hne. induction o as [|[k0 v0] rest IH]; cbn [obj_set obj_get].
  - destruct (String.eqb key key') eqn:E; [|reflexivity].
    apply String.eqb_eq in E. congruence.
  - destruct (String.eqb k0 key) eqn:E; cbn [obj_get].
    + apply String.eqb_eq in E; subst k0.
      destruct (String.eqb key key') eqn:E'; [|reflexivity].
      apply String.eqb_eq in E'. congruence.
    + rewrite IH. reflexivity.
Qed.

Lemma obj_set_Forall {V : Type} (Q : string * V -> Prop)
      (o : list (string * V)) (key : string) (value : V) :
  Forall Q o -> (forall k, Q (k, value)) -> Forall Q (obj_set o key value).
Proof.
  intros Ho Hq. induction Ho as [|[k v] rest Hkv Hrest IH]; cbn [obj_set].
  - constructor; [apply Hq | constructor].
  - destruct (String.eqb k key); constructor; auto.
Qed.

Lemma obj_set_length {V : Type} (o : list (string * V)) (key : string)
      (value : V) :
  (length (obj_set o key value) <= S (length o))%nat.
Proof.
  induction o as [|[k v] rest IH]; cbn [obj_set length]; [lia|].
  destruct (String.eqb k key); cbn [length]; lia.
Qed.

(** ** Objects rebuilt key by key *)

Lemma obj_set_keys {V : Type} (o : list (string * V)) (key : string)
      (value : V) (k : string) :
  In k (map fst (obj_set o key value)) <-> In k (map fst o) \/ k = key.
Proof.
  induction o as [|[k0 v0] rest IH]; cbn [obj_set map fst In].
  - intuition.
  - destruct (String.eqb k0 key) eqn:E; cbn [map fst In].
    + apply String.eqb_eq in E. subst. intuition.
    + rewrite IH. intuition.
Qed.

Lemma obj_set_NoDup {V : Type} (o : list (string * V)) (key : string)
      (value : V) :
  NoDup (map fst o) -> NoDup (map fst (obj_set o key value)).
Proof.
  induction o as [|[k0 v0] rest IH]; cbn [obj_set map fst]; intros Hnd.
  - constructor; [intros [] | constructor].
  - inversion Hnd as [|? ? Hnotin Hrest]; subst.
    destruct (String.eqb k0 key) eqn:E; cbn [map fst].
    + constructor; assumption.
    + constructor; [|apply IH; exact Hrest].
      rewrite obj_set_keys. intros [H|H]; [contradiction|].
      subst. rewrite String.eqb_refl in E. discriminate.
Qed.

Lemma obj_set_fresh {V : Type} (o : list (string * V)) (key : string)
      (value : V) :
  ~ In key (map fst o) -> obj_set o key value = (o ++ [(key, value)])%list.
Proof.
  induction o as [|[k0 v0] rest IH]; cbn [obj_set map fst In app]; intros Hn.
  - reflexivity.
  - destruct (String.eqb k0 key) eqn:E.
    + apply String.eqb_eq in E. tauto.
    + rewrite IH by tauto. reflexivity.
Qed.

(** Writing the entries of an object with distinct keys, in order, into
    an object that has none of them appends them. *)
Lemma obj_set_rebuild {V : Type} (l : list (string * V)) :
  NoDup (map fst l) ->
  forall pre,
    (forall k, In k (map fst l) -> ~ In k (map fst pre)) ->
    fold_left (fun acc entry => obj_set acc (fst entry) (snd entry)) l pre
    = (pre ++ l)%list.
Proof.
  induction l as [|[k v] rest IH]; intros Hnd pre Hfresh; cbn [fold_left].
  - rewrite app_nil_r. reflexivity.
  - cbn [map fst] in Hnd. inversion Hnd as [|? ? Hnotin Hrest]; subst.
    cbn [fst snd]. rewrite obj_set_fresh by (apply Hfresh; left; reflexivity).
    rewrite IH; [rewrite <- app_assoc; reflexivity | exact Hrest |].
    intros k' Hk'. rewrite map_app, in_app_iff. cbn [map fst In].
    intros [H|[H|[]]].
    + apply (Hfresh k'); [right; exact Hk' | exact H].
    + subst. contradiction.
Qed.

Lemma fold_left_ext_in {A B : Type} (f g : A -> B -> A) (l : list B) :
  (forall acc e, In e l -> f acc e = g acc e) ->
  forall acc, fold_left f l acc = fold_left g l acc.
Proof.
  induction l as [|e rest IH]; intros Hext acc; cbn [fold_left];
    [reflexivity|].
  rewrite Hext by (left; reflexivity).
  apply IH. intros acc' e' He'. apply Hext. right. exact He'.
Qed.

(** What a loop of writes [acc[key(e)] = value(e)] leaves in [acc]. *)
Lemma obj_set_fold_entries {V E : Type} (key : E -> string) (value : E -> V)
      (l : list E) :
  forall acc,
    let result := fold_left (fun acc e => obj_set acc (key e) (value e)) l acc in
    (NoDup (map fst acc) -> NoDup (map fst result)) /\
    (forall k y, In (k, y) result ->
       In (k, y) acc \/ exists e, In e l /\ k = key e /\ y = value e).
Proof.
  induction l as [|e rest IH]; intros acc; cbn zeta; cbn [fold_left].
  - split; auto.
  - destruct (IH (obj_set acc (key e) (value e))) as [Hnd Hin].
    cbn zeta in *. split.
    + intros H. apply Hnd. apply obj_set_NoDup. exact H.
    + intros k y Hy. destruct (Hin k y Hy) as [H|(e' & He' & Hk & Hv)].
      * destruct (obj_set_entry _ _ _ _ _ H) as [H'|[-> ->]]; auto.
        right. exists e. split; [left|]; auto.
      * right. exists e'. split; [right|]; auto.
Qed.

Lemma obj_set_Forall_at {V : Type} (Q : string * V -> Prop)
      (o : list (string * V)) (key : string) (value : V) :
  Forall Q o -> Q (key, value) -> Forall Q (obj_set o key value).
Proof.
  intros Ho Hq. apply Forall_forall. intros [k v] Hin.
  destruct (obj_set_entry _ _ _ _ _ Hin) as [H|[-> ->]]; [|exact Hq].
  rewrite Forall_forall in Ho. apply Ho. exact H.
Qed.

(** * State adapter registry (src/state-adapters) *)

Module StateCapture.

(** ** The state of a store *)

(** What a store hands out: plain data in which a property or an array
    element may refer back to an object or array that contains it, as
    the state does that holds a React element or a DOM node.  [SData] is
    a part that holds no such reference, [SBack] is the reference, and it
    stands inside an [SObj] or an [SArr]. *)
Inductive StoreValue : Type :=
| SData (v : JsValue)
| SBack
| SArr (items : list StoreValue)
| SObj (props : list (string * StoreValue)).

Definition StoreState : Type := list (string * StoreValue).

Section StoreValue_induction.
Variable P : StoreValue -> Prop.
Hypothesis P_data : forall v, P (SData v).
Hypothesis P_back : P SBack.
Hypothesis P_arr : forall items, Forall P items -> P (SArr items).
Hypothesis P_obj :
  forall props, Forall (fun kv => P (snd kv)) props -> P (SObj props).

Fixpoint StoreValue_nested_ind (sv : StoreValue) : P sv :=
  match sv with
  | SData v => P_data v
  | SBack => P_back
  | SArr items =>
      P_arr items
        ((fix all (l : list StoreValue) : Forall P l :=
            match l with
            | [] => Forall_nil P
            | x :: r => Forall_cons x (StoreValue_nested_ind x) (all r)
            end) items)
  | SObj props =>
      P_obj props
        ((fix all (l : StoreState) : Forall (fun kv => P (snd kv)) l :=
            match l with
            | [] => Forall_nil _
            | kv :: r =>
                Forall_cons kv (StoreValue_nested_ind (snd kv)) (all r)
            end) props)
  end.
End StoreValue_induction.

(** [StateAdapter]: a name and two nullary methods, each given by the
    outcome of calling it during one capture. *)
Record StateAdapter : Type := mkAdapter {
  name : string;
  isAvailable : result bool;
  getState : result (option StoreState)
}.

(** ** index.ts *)

Definition NOISE_KEYS : list string :=
  ["persist"; "listeners"; "_hasHydrated"; "_persist"; "rehydrated"].

Definition NOISE_KEYS_has (key : string) : bool :=
  existsb (String.eqb key) NOISE_KEYS.

(** [key.startsWith('$$') || key.startsWith('_')] *)
Definition isInternalKey (key : string) : bool :=
  JsString.startsWith "$$" key || JsString.startsWith "_" key.

Definition isMeaningfulValue (value : JsValue) : bool :=
  match value with
  | JNull | JUndefined => false
  | JStr s => negb (String.eqb s "")
  | JBool b => b
  | JArr items => negb (length items =? 0)%nat
  | JObj props => negb (length props =? 0)%nat
  | _ => true
  end.

(** One turn of the [for (const [key, value] of Object.entries(obj))]
    loop of [cleanState]; the accumulator is [(cleaned, hasValue)] and
    [clean] the recursive call. *)
Definition cleanEntry (clean : JsValue -> JsValue)
           (acc : Props * bool) (entry : string * JsValue) : Props * bool :=
  if NOISE_KEYS_has (fst entry) then acc
  else if isInternalKey (fst entry) then acc
  else
    let cleanedValue := clean (snd entry) in
    if isMeaningfulValue cleanedValue
    then (obj_set (fst acc) (fst entry) cleanedValue, true)
    else acc.

(** [cleanState(state)] on data without a reference back into itself,
    where the recursion ends. *)
Fixpoint cleanState (state : JsValue) : JsValue :=
  match state with
  | JNull | JUndefined => JUndefined
  | JArr items =>
      let cleaned := filter isMeaningfulValue (map cleanState items) in
      if (0 <? length cleaned)%nat then JArr cleaned else JUndefined
  | JObj props =>
      let result := fold_left (cleanEntry cleanState) props ([], false) in
      if snd result then JObj (fst result) else JUndefined
  | _ => state
  end.

Definition REDACTED : JsValue := JStr "[REDACTED]".

(** [filterState(state, excludeKeys)], on the object [state], for data
    without a reference back into itself. *)
Fixpoint filterObject (excludeKeys : list string) (state : JsValue)
  : Props :=
  match state with
  | JObj props =>
      fold_left
        (fun filtered entry =>
           if existsb (String.eqb (fst entry)) excludeKeys
           then obj_set filtered (fst entry) REDACTED
           else match snd entry with
                | JObj _ =>
                    obj_set filtered (fst entry)
                            (JObj (filterObject excludeKeys (snd entry)))
                | value => obj_set filtered (fst entry) value
                end)
        props []
  | _ => []
  end.

Definition filterState (state : Props) (excludeKeys : list string) : Props :=
  filterObject excludeKeys (JObj state).

(** One turn of the loop of [cleanState], on the state of a store:
    [clean], the recursive call, may not come back. *)
Definition cleanStoredEntry (clean : StoreValue -> result JsValue)
           (acc : Props * bool) (entry : string * StoreValue)
  : result (Props * bool) :=
  if NOISE_KEYS_has (fst entry) then Ok acc
  else if isInternalKey (fst entry) then Ok acc
  else
    (cleanedValue <- clean (snd entry) ;;
     Ok (if isMeaningfulValue cleanedValue
         then (obj_set (fst acc) (fst entry) cleanedValue, true)
         else acc))%js.

(** [cleanState(state)] on the state of a store.  A recursive call that
    comes to a reference back into an enclosing object or array starts
    over on that object, comes to the same reference again and never
    ends: the engine stops it with a [RangeError]. *)
Fixpoint cleanStored (state : StoreValue) : result JsValue :=
  match state with
  | SData v => Ok (cleanState v)
  | SBack => Throw RangeError
  | SArr items =>
      (mapped <- mapR cleanStored items ;;
       let cleaned := filter isMeaningfulValue mapped in
       Ok (if (0 <? length cleaned)%nat then JArr cleaned else JUndefined))%js
  | SObj props =>
      (result <- foldR (cleanStoredEntry cleanStored) props ([], false) ;;
       Ok (if snd result then JObj (fst result) else JUndefined))%js
  end.

(** One turn of the loop of [filterState], on the state of a store:
    [filter], the recursive call, may not come back.  The value under a
    key that is not excluded is entered when it is an object; a
    reference back leads to an object that encloses the entry, and the
    call on it never ends. *)
Definition filterStoredEntry (excludeKeys : list string)
           (filter : StoreValue -> result StoreState)
           (filtered : StoreState) (entry : string * StoreValue)
  : result StoreState :=
  if existsb (String.eqb (fst entry)) excludeKeys
  then Ok (obj_set filtered (fst entry) (SData REDACTED))
  else match snd entry with
       | SObj _ =>
           (inner <- filter (snd entry) ;;
            Ok (obj_set filtered (fst entry) (SObj inner)))%js
       | SBack => Throw RangeError
       | SData (JObj inner) =>
           Ok (obj_set filtered (fst entry)
                       (SData (JObj (filterState inner excludeKeys))))
       | value => Ok (obj_set filtered (fst entry) value)
       end.

(** [filterState(state, excludeKeys)] on the state of a store; it enters
    objects only, and copies arrays as they are. *)
Fixpoint filterStored (excludeKeys : list string) (state : StoreValue)
  : result StoreState :=
  match state with
  | SObj props =>
      foldR (filterStoredEntry excludeKeys (filterStored excludeKeys))
            props []
  | SBack => Throw RangeError
  | SData (JObj props) =>
      Ok (map (fun entry => (fst entry, SData (snd entry)))
              (filterState props excludeKeys))
  | _ => Ok []
  end.

(** What one adapter adds to the captured state, once its two methods
    have returned: the body of the [for] loop of [captureAppState]. *)
Definition adapterContribution (excludeKeys : option (list string))
           (adapterState : option StoreState) : result (option JsValue) :=
  match adapterState with
  | Some st =>
      (filteredState <- match excludeKeys with
                        | Some keys => filterStored keys (SObj st)
                        | None => Ok st
                        end ;;
       cleaned <- cleanStored (SObj filteredState) ;;
       Ok (match cleaned with
           | JObj props =>
               if (0 <? length props)%nat then Some cleaned else None
           | _ => None
           end))%js
  | None => Ok None
  end.

(** The [for (const adapter of adapters)] loop: [adapter.isAvailable()],
    [adapter.getState()], [filterState] and [cleanState] are called in
    the open, so what they throw leaves the function. *)
Fixpoint captureAdapters (registered : list StateAdapter)
         (excludeKeys : option (list string)) (state : Props)
  : result Props :=
  match registered with
  | [] => Ok state
  | adapter :: rest =>
      (available <- isAvailable adapter ;;
       if available then
         (adapterState <- getState adapter ;;
          filteredState <- adapterContribution excludeKeys adapterState ;;
          match filteredState with
          | Some filteredState =>
              captureAdapters rest excludeKeys
                              (obj_set state (name adapter) filteredState)
          | None => captureAdapters rest excludeKeys state
          end)
       else captureAdapters rest excludeKeys state)%js
  end.

(** The guarded custom getter: the [try] holds the call of the getter
    and the [cleanState] of what it returns.  The second component counts
    the [console.warn] of the [catch] branch. *)
Definition captureCustom (customStateGetter : option (result StoreValue))
           (state : Props) : Props * nat :=
  match customStateGetter with
  | None => (state, 0)
  | Some outcome =>
      match (raw <- outcome ;; cleanStored raw)%js with
      | Ok customState =>
          if isMeaningfulValue customState
          then (obj_set state "custom" customState, 0)
          else (state, 0)
      | Throw _ => (state, 1)
      end
  end.

(** The body of [captureAppState], over a list of adapters. *)
Definition captureWith (registered : list StateAdapter)
           (customStateGetter : option (result StoreValue))
           (excludeKeys : option (list string)) : result (Props * nat) :=
  (state <- captureAdapters registered excludeKeys [] ;;
   Ok (captureCustom customStateGetter state))%js.

(** *** The window and the three adapters *)

(** A Jotai atom, seen through the two reads that give its label: the
    [debugLabel] property and the [toString()] call. *)
Record JotaiAtom : Type := mkAtom {
  debugLabel : result (option string);
  atom_toString : result string
}.

(** An object found on [window], seen through the members the adapters
    look at.  Each field is the outcome of reading the member, which a
    getter or a Proxy can make throw. *)
Record HostObject : Type := mkHostObject {
  (** [Ok None]: [typeof o.getState !== 'function']; [Ok (Some r)]: a
      function, [r] being the outcome of calling [o.getState()] *)
  store_getState : result (option (result StoreState));
  (** [typeof o.subscribe === 'function'] *)
  subscribe_is_function : result bool;
  (** [typeof o.dispatch === 'function'] *)
  dispatch_is_function : result bool;
  (** [Ok (Some entries)] when [o.values instanceof Map] *)
  values_map : result (option (list (JotaiAtom * StoreValue)));
  (** [Ok None]: [typeof o.get !== 'function']; otherwise what
      [o.get(atom)] does *)
  store_get : result (option (JotaiAtom -> result StoreValue))
}.

(** The value of a global of [window]. *)
Inductive Global : Type :=
| GFalsy                                   (* undefined, null, 0, ... *)
| GObject (o : HostObject)                 (* an object, not a Map nor an array *)
| GMap (entries : list (string * HostObject))  (* a Map from names to objects *)
| GArray (atoms : list JotaiAtom).         (* an array of atoms *)

(** An own enumerable property of [window]: a data property, or an
    accessor without setter whose getter throws. *)
Inductive Property : Type :=
| Data (value : Global)
| ThrowingGetter (e : JsError).

(** [window]: its own enumerable properties, in [Object.keys] order. *)
Definition Window : Type := list (string * Property).

(** [win[key]] *)
Definition win_get (win : Window) (key : string) : result Global :=
  match obj_get win key with
  | Some (Data g) => Ok g
  | Some (ThrowingGetter e) => Throw e
  | None => Ok GFalsy
  end.

(** [win[key] = g], in a module (strict mode): an accessor without
    setter refuses the write. *)
Definition win_set (win : Window) (key : string) (g : Global)
  : result Window :=
  match obj_get win key with
  | Some (ThrowingGetter _) => Throw TypeError
  | _ => Ok (obj_set win key (Data g))
  end.

(** [value && typeof value.getState === 'function'] *)
Definition hasGetState (g : Global) : result (option HostObject) :=
  match g with
  | GObject o =>
      (member <- store_getState o ;;
       Ok (match member with
           | Some _ => Some o
           | None => None
           end))%js
  | _ => Ok None
  end.

(** [store.getState()] on an object taken for a store. *)
Definition callGetState (store : HostObject) : result StoreState :=
  match store_getState store with
  | Ok (Some outcome) => outcome
  | Ok None => Throw TypeError
  | Throw e => Throw e
  end.

(** **** redux.ts *)

(** [findReduxStore()]; the [console.debug] it prints when only the
    devtools extension is found changes no result and is left out. *)
Definition findReduxStore (win : Window) : result (option HostObject) :=
  (devTools <- win_get win "__REDUX_DEVTOOLS_EXTENSION__" ;;
   devToolsStore <- win_get win "__REDUX_DEVTOOLS_STORE__" ;;
   found <- hasGetState devToolsStore ;;
   match found with
   | Some devToolsStore => Ok (Some devToolsStore)
   | None =>
       exposedStore <- win_get win "__REDUX_STORE__" ;;
       found <- hasGetState exposedStore ;;
       match found with
       | Some exposedStore => Ok (Some exposedStore)
       | None =>
           store <- win_get win "store" ;;
           found <- hasGetState store ;;
           match found with
           | Some store =>
               subscribes <- subscribe_is_function store ;;
               if subscribes then
                 dispatches <- dispatch_is_function store ;;
                 Ok (if dispatches then Some store else None)
               else Ok None
           | None => Ok None
           end
       end
   end)%js.

Definition reduxAdapter (win : Window) : StateAdapter :=
  {| name := "redux";
     isAvailable :=
       (store <- findReduxStore win ;;
        Ok (match store with Some _ => true | None => false end))%js;
     getState :=
       (store <- findReduxStore win ;;
        match store with
        | None => Ok None
        | Some store =>
            try_catch (st <- callGetState store ;; Ok (Some st))
                      (fun _ => Ok None)
        end)%js |}.

(** **** zustand.ts *)

(** The scan of [Object.keys(win)] for stores by name. *)
Definition looksLikeStoreKey (key : string) : bool :=
  JsString.includes "store" (JsString.toLowerCase key)
  || JsString.includes "zustand" (JsString.toLowerCase key).

(** One turn of the [for (const key of Object.keys(win))] loop. *)
Definition scanKey (win : Window)
           (potentialStores : list (string * HostObject))
           (entry : string * Property)
  : result (list (string * HostObject)) :=
  if looksLikeStoreKey (fst entry) then
    (value <- win_get win (fst entry) ;;
     found <- hasGetState value ;;
     Ok (match found with
         | Some value => obj_set potentialStores (fst entry) value
         | None => potentialStores
         end))%js
  else Ok potentialStores.

Definition scanForStores (win : Window)
  : result (list (string * HostObject)) :=
  foldR (scanKey win) win [].

Definition findZustandStores (win : Window)
  : result (option (list (string * HostObject))) :=
  (devtools <- win_get win "__ZUSTAND_DEVTOOLS_STORES__" ;;
   match devtools with
   | GMap (first :: more) =>
       Ok (Some (fold_left (fun stores entry =>
                              obj_set stores (fst entry) (snd entry))
                           (first :: more) []))
   | _ =>
       exposedStore <- win_get win "__ZUSTAND_STORE__" ;;
       found <- hasGetState exposedStore ;;
       match found with
       | Some exposedStore => Ok (Some [("default", exposedStore)])
       | None =>
           potentialStores <- scanForStores win ;;
           Ok (match potentialStores with
               | [] => None
               | _ => Some potentialStores
               end)
       end
   end)%js.

(** [Object.assign(target, source)] *)
Definition Object_assign (target source : StoreState) : StoreState :=
  fold_left (fun acc entry => obj_set acc (fst entry) (snd entry))
            source target.

(** One turn of the loop of [zustandAdapter.getState], with its [try]. *)
Definition combineStore (combinedState : StoreState)
           (entry : string * HostObject) : StoreState :=
  match callGetState (snd entry) with
  | Ok state =>
      if String.eqb (fst entry) "default"
      then Object_assign combinedState state
      else obj_set combinedState (fst entry) (SObj state)
  | Throw _ => combinedState
  end.

Definition zustandAdapter (win : Window) : StateAdapter :=
  {| name := "zustand";
     isAvailable :=
       (stores <- findZustandStores win ;;
        Ok (match stores with Some _ => true | None => false end))%js;
     getState :=
       (stores <- findZustandStores win ;;
        match stores with
        | None => Ok None
        | Some stores =>
            let combinedState := fold_left combineStore stores [] in
            Ok (if (0 <? length combinedState)%nat
                then Some combinedState else None)
        end)%js |}.

(** **** jotai.ts *)

(** [atom.debugLabel || atom.toString()] *)
Definition atomLabel (atom : JotaiAtom) : result string :=
  (label <- debugLabel atom ;;
   match label with
   | Some label => if String.eqb label "" then atom_toString atom
                   else Ok label
   | None => atom_toString atom
   end)%js.

(** [typeof exposedStore.get === 'function'], with what [get] does; a
    Map has a [get] too, which finds no atom among its string keys. *)
Definition hasGet (g : Global)
  : result (option (JotaiAtom -> result StoreValue)) :=
  match g with
  | GObject o => store_get o
  | GMap _ => Ok (Some (fun _ => Ok (SData JUndefined)))
  | _ => Ok None
  end.

Definition nonEmptyState (state : StoreState) : option StoreState :=
  if (0 <? length state)%nat then Some state else None.

(** The callback of [devToolsState.values.forEach], which no [try]
    surrounds. *)
Definition labelValue (state : StoreState) (entry : JotaiAtom * StoreValue)
  : result StoreState :=
  (label <- atomLabel (fst entry) ;;
   Ok (obj_set state label (snd entry)))%js.

(** One turn of the [for (const atom of exposedAtoms)] loop, with its
    [try]. *)
Definition readAtom (get : JotaiAtom -> result StoreValue)
           (state : StoreState) (atom : JotaiAtom) : StoreState :=
  match (label <- atomLabel atom ;;
         value <- get atom ;;
         Ok (label, value))%js with
  | Ok labelled => obj_set state (fst labelled) (snd labelled)
  | Throw _ => state
  end.

Definition findJotaiState (win : Window) : result (option StoreState) :=
  (devToolsState <- win_get win "__JOTAI_DEVTOOLS_STATE__" ;;
   values <- match devToolsState with
             | GObject devToolsState => values_map devToolsState
             | _ => Ok None
             end ;;
   match values with
   | Some values =>
       state <- foldR labelValue values [] ;;
       Ok (nonEmptyState state)
   | None =>
       exposedStore <- win_get win "__JOTAI_STORE__" ;;
       exposedAtoms <- win_get win "__JOTAI_ATOMS__" ;;
       get <- hasGet exposedStore ;;
       match get, exposedAtoms with
       | Some get, GArray exposedAtoms =>
           Ok (nonEmptyState (fold_left (readAtom get) exposedAtoms []))
       | _, _ => Ok None
       end
   end)%js.

Definition jotaiAdapter (win : Window) : StateAdapter :=
  {| name := "jotai";
     isAvailable :=
       (state <- findJotaiState win ;;
        Ok (match state with Some _ => true | None => false end))%js;
     getState := findJotaiState win |}.

(** [const adapters = [zustandAdapter, reduxAdapter, jotaiAdapter]] *)
Definition adapters (win : Window) : list StateAdapter :=
  [zustandAdapter win; reduxAdapter win; jotaiAdapter win].

(** [captureAppState(customStateGetter, excludeKeys)], in the page whose
    globals are [win]. *)
Definition captureAppState (win : Window)
           (customStateGetter : option (result StoreValue))
           (excludeKeys : option (list string)) : result (Props * nat) :=
  captureWith (adapters win) customStateGetter excludeKeys.

(** *** What a cleaned state contains *)

(** Where a value sits directly inside an object or an array. *)
Inductive Slot : Type :=
| AtKey (key : string)
| AtIndex (index : nat).

Inductive stored_in : JsValue -> Slot -> JsValue -> Prop :=
| stored_property props key v :
    In (key, v) props -> stored_in (JObj props) (AtKey key) v
| stored_element items index v :
    nth_error items index = Some v -> stored_in (JArr items) (AtIndex index) v.

(** [occurs_in root slot v]: [v] sits in [slot] of [root] or of a value
    nested in [root], at any depth. *)
Inductive occurs_in (root : JsValue) : Slot -> JsValue -> Prop :=
| occurs_here slot v : stored_in root slot v -> occurs_in root slot v
| occurs_below slot' mid slot v :
    stored_in root slot' mid -> occurs_in mid slot v -> occurs_in root slot v.

Definition cleanEntryOk (entry : string * JsValue) (deep : JsValue -> bool)
  : bool :=
  negb (NOISE_KEYS_has (fst entry)) && negb (isInternalKey (fst entry))
  && isMeaningfulValue (snd entry) && deep (snd entry).

(** The members of [v], at every depth, are meaningful and sit under
    keys that are neither noise nor internal. *)
Fixpoint deepClean (v : JsValue) : bool :=
  match v with
  | JArr items =>
      forallb (fun x => isMeaningfulValue x && deepClean x) items
  | JObj props =>
      forallb (fun entry => cleanEntryOk entry deepClean) props
  | _ => true
  end.

Example cleanState_sample :
  cleanState
    (JObj [("user", JObj [("name", JStr "Ada"); ("token", JStr "");
                          ("_persist", JObj [("version", JNum 1)])]);
           ("listeners", JArr [JFunction]);
           ("todos", JArr [JNull; JObj []; JObj [("done", JBool false)];
                           JObj [("title", JStr "x")]]);
           ("loading", JBool false)])
  = JObj [("user", JObj [("name", JStr "Ada")]);
          ("todos", JArr [JObj [("title", JStr "x")]])].
Proof. reflexivity. Qed.

Lemma forallb_obj_set (Q : string * JsValue -> bool) (o : Props)
      (key : string) (value : JsValue) :
  forallb Q o = true -> Q (key, value) = true ->
  forallb Q (obj_set o key value) = true.
Proof.
  intros Ho Hq. apply forallb_forall. intros [k v] Hin.
  destruct (obj_set_entry _ _ _ _ _ Hin) as [H|[-> ->]]; [|exact Hq].
  rewrite forallb_forall in Ho. apply Ho. exact H.
Qed.

Lemma cleanEntry_fold_deepClean (props : Props) :
  Forall (fun kv => deepClean (cleanState (snd kv)) = true) props ->
  forall acc,
    forallb (fun entry => cleanEntryOk entry deepClean) (fst acc) = true ->
    forallb (fun entry => cleanEntryOk entry deepClean)
            (fst (fold_left (cleanEntry cleanState) props acc)) = true.
Proof.
  induction 1 as [|[k v] rest Hv Hrest IH]; intros acc Hacc; [exact Hacc|].
  cbn [fold_left]. apply IH.
  unfold cleanEntry. cbn [fst snd] in *.
  destruct (NOISE_KEYS_has k) eqn:Hn; [exact Hacc|].
  destruct (isInternalKey k) eqn:Hi; [exact Hacc|].
  destruct (isMeaningfulValue (cleanState v)) eqn:Hm; [|exact Hacc].
  cbn [fst]. apply forallb_obj_set; [exact Hacc|].
  unfold cleanEntryOk. cbn [fst snd]. rewrite Hn, Hi, Hm, Hv. reflexivity.
Qed.

Lemma cleanState_deepClean (state : JsValue) :
  deepClean (cleanState state) = true.
Proof.
  induction state as [ | | b | n | s | n | | | items IH | props IH ]
    using JsValue_nested_ind; try reflexivity.
  - cbn [cleanState].
    destruct (0 <? length _)%nat; [|reflexivity].
    cbn [deepClean]. apply forallb_forall. intros x Hx.
    apply filter_In in Hx as [Hin Hm]. rewrite Hm.
    apply in_map_iff in Hin as (y & <- & Hy).
    rewrite Forall_forall in IH. rewrite (IH y Hy). reflexivity.
  - cbn [cleanState].
    destruct (snd (fold_left (cleanEntry cleanState) props ([], false)));
      [|reflexivity].
    cbn [deepClean]. apply cleanEntry_fold_deepClean; [exact IH|reflexivity].
Qed.

Lemma isMeaningfulValue_true (v : JsValue) :
  isMeaningfulValue v = true ->
  v <> JNull /\ v <> JUndefined /\ v <> JStr "" /\ v <> JBool false /\
  v <> JArr [] /\ v <> JObj [].
Proof.
  intros H; repeat split; intros ->; discriminate H.
Qed.

Lemma NOISE_KEYS_has_false (key : string) :
  NOISE_KEYS_has key = false -> ~ In key NOISE_KEYS.
Proof.
  unfold NOISE_KEYS_has. intros H Hin.
  assert (existsb (String.eqb key) NOISE_KEYS = true) as E.
  { apply existsb_exists. exists key. split; [exact Hin|apply String.eqb_refl]. }
  congruence.
Qed.

Lemma deepClean_stored (root : JsValue) (slot : Slot) (v : JsValue) :
  deepClean root = true -> stored_in root slot v ->
  isMeaningfulValue v = true /\ deepClean v = true /\
  (forall key, slot = AtKey key ->
               NOISE_KEYS_has key = false /\ isInternalKey key = false).
Proof.
  intros Hd Hs. destruct Hs as [props key v Hin | items index v Hnth];
    cbn [deepClean] in Hd; rewrite forallb_forall in Hd.
  - specialize (Hd _ Hin). unfold cleanEntryOk in Hd. cbn [fst snd] in Hd.
    apply andb_true_iff in Hd as [Hd Hdeep].
    apply andb_true_iff in Hd as [Hd Hm].
    apply andb_true_iff in Hd as [Hn Hi].
    apply negb_true_iff in Hn, Hi.
    split; [exact Hm | split; [exact Hdeep|]].
    intros key' E; inversion E; subst; auto.
  - apply nth_error_In in Hnth. specialize (Hd _ Hnth).
    apply andb_true_iff in Hd as [Hm Hdeep].
    split; [exact Hm | split; [exact Hdeep|]].
    intros key' E; inversion E.
Qed.

(** C6. In the result of [cleanState], every value stored in an object
    or an array, at any nesting level, is none of [null], [undefined],
    the empty string, [false], the empty array, the empty object; and
    every property, at any nesting level, has a key outside the noise-key
    set that starts with neither ["_"] nor ["$$"]. *)
Theorem cleanState_leaves_no_noise :
  forall (S : JsValue) (slot : Slot) (v : JsValue),
    occurs_in (cleanState S) slot v ->
    (v <> JNull /\ v <> JUndefined /\ v <> JStr "" /\ v <> JBool false /\
     v <> JArr [] /\ v <> JObj []) /\
    (forall key, slot = AtKey key ->
       ~ In key NOISE_KEYS /\
       JsString.startsWith "_" key = false /\
       JsString.startsWith "$$" key = false).
Proof.
  intros S slot v Hocc.
  pose proof (cleanState_deepClean S) as Hd.
  induction Hocc as [root slot v Hs | root slot' mid slot v Hs Hocc IH].
  - destruct (deepClean_stored _ _ _ Hd Hs) as (Hm & _ & Hk).
    split; [apply isMeaningfulValue_true; exact Hm|].
    intros key E. destruct (Hk key E) as [Hn Hi].
    unfold isInternalKey in Hi. apply orb_false_iff in Hi as [Hi1 Hi2].
    repeat split; auto using NOISE_KEYS_has_false.
  - apply IH. destruct (deepClean_stored _ _ _ Hd Hs) as (_ & Hdeep & _).
    exact Hdeep.
Qed.

Definition persisted_store : JsValue :=
  JObj [("cart", JObj [("items", JArr [JObj [("sku", JStr "A1");
                                             ("note", JStr "")]]);
                       ("_hasHydrated", JBool true)]);
        ("persist", JObj [("rehydrated", JBool true)])].

Lemma cleanState_leaves_no_noise_witness :
  occurs_in (cleanState persisted_store) (AtKey "sku") (JStr "A1") /\
  JStr "A1" <> JStr "" /\ ~ In "sku" NOISE_KEYS.
Proof.
  assert (Hocc : occurs_in (cleanState persisted_store) (AtKey "sku")
                           (JStr "A1")).
  { eapply occurs_below; [apply stored_property; left; reflexivity|].
    eapply occurs_below; [apply stored_property; left; reflexivity|].
    eapply occurs_below; [apply (stored_element _ 0); reflexivity|].
    apply occurs_here. apply stored_property. left; reflexivity. }
  split; [exact Hocc|].
  destruct (cleanState_leaves_no_noise persisted_store _ _ Hocc)
    as [(_ & _ & Hs & _) Hk].
  split; [exact Hs|]. apply (Hk "sku" eq_refl).
Defined.

(** *** Cleaning twice *)

Lemma cleanEntry_fold_entries (clean : JsValue -> JsValue) (props : Props) :
  forall acc,
    let result := fold_left (cleanEntry clean) props acc in
    (NoDup (map fst (fst acc)) -> NoDup (map fst (fst result))) /\
    (forall k y, In (k, y) (fst result) ->
       In (k, y) (fst acc) \/
       (NOISE_KEYS_has k = false /\ isInternalKey k = false /\
        isMeaningfulValue y = true /\
        exists x, In (k, x) props /\ y = clean x)) /\
    (snd acc = negb (length (fst acc) =? 0)%nat ->
     snd result = negb (length (fst result) =? 0)%nat).
Proof.
  induction props as [|[k x] rest IH]; intros acc; cbn zeta; cbn [fold_left].
  - repeat split; auto.
  - specialize (IH (cleanEntry clean acc (k, x))). cbn zeta in IH.
    destruct IH as (Hnd & Hin & Hflag).
    unfold cleanEntry in *. cbn [fst snd] in *.
    destruct (NOISE_KEYS_has k) eqn:Hn.
    { repeat split; auto. intros k' y Hy.
      destruct (Hin k' y Hy) as [H|(H1 & H2 & H3 & x' & H4 & H5)]; auto.
      right. repeat split; auto. exists x'. split; [right|]; auto. }
    destruct (isInternalKey k) eqn:Hi.
    { repeat split; auto. intros k' y Hy.
      destruct (Hin k' y Hy) as [H|(H1 & H2 & H3 & x' & H4 & H5)]; auto.
      right. repeat split; auto. exists x'. split; [right|]; auto. }
    destruct (isMeaningfulValue (clean x)) eqn:Hm.
    2:{ repeat split; auto. intros k' y Hy.
      destruct (Hin k' y Hy) as [H|(H1 & H2 & H3 & x' & H4 & H5)]; auto.
      right. repeat split; auto. exists x'. split; [right|]; auto. }
    cbn [fst snd] in *. repeat split.
    + intros H. apply Hnd. apply obj_set_NoDup. exact H.
    + intros k' y Hy.
      destruct (Hin k' y Hy) as [H|(H1 & H2 & H3 & x' & H4 & H5)].
      * destruct (obj_set_entry _ _ _ _ _ H) as [H'|[-> ->]]; auto.
        right. repeat split; auto. exists x. split; [left|]; auto.
      * right. repeat split; auto. exists x'. split; [right|]; auto.
    + intros _. apply Hflag.
      destruct (obj_set (fst acc) k (clean x)) eqn:E; [|reflexivity].
      pose proof (obj_get_set_same (fst acc) k (clean x)) as Hg.
      rewrite E in Hg. discriminate.
Qed.

(** Entries that cleaning keeps unchanged are appended as they are. *)
Lemma cleanEntry_fold_fixed (l : Props) :
  NoDup (map fst l) ->
  (forall k y, In (k, y) l ->
     NOISE_KEYS_has k = false /\ isInternalKey k = false /\
     isMeaningfulValue y = true /\ cleanState y = y) ->
  forall pre flag,
    (forall k, In k (map fst l) -> ~ In k (map fst pre)) ->
    fold_left (cleanEntry cleanState) l (pre, flag)
    = ((pre ++ l)%list, flag || negb (length l =? 0)%nat).
Proof.
  induction l as [|[k y] rest IH]; intros Hnd Hfix pre flag Hfresh;
    cbn [fold_left].
  - rewrite app_nil_r, orb_false_r. reflexivity.
  - cbn [map fst] in Hnd. inversion Hnd as [|? ? Hnotin Hrest]; subst.
    destruct (Hfix k y (or_introl eq_refl)) as (Hn & Hi & Hm & Hc).
    unfold cleanEntry at 2. cbn [fst snd]. rewrite Hn, Hi, Hc, Hm.
    rewrite obj_set_fresh by (apply Hfresh; left; reflexivity).
    rewrite IH.
    + rewrite <- app_assoc. cbn [app length Nat.eqb negb].
      rewrite orb_true_r. destruct (length rest =? 0)%nat; reflexivity.
    + exact Hrest.
    + intros k' y' H'. apply Hfix. right. exact H'.
    + intros k' Hk'. rewrite map_app, in_app_iff. cbn [map fst In].
      intros [H|[H|[]]].
      * apply (Hfresh k'); [right; exact Hk' | exact H].
      * subst. contradiction.
Qed.

Lemma filter_fixed {A : Type} (p : A -> bool) (l : list A) :
  filter p (filter p l) = filter p l.
Proof.
  induction l as [|a l IH]; cbn [filter]; [reflexivity|].
  destruct (p a) eqn:E; cbn [filter]; [rewrite E, IH|]; auto.
Qed.

(** X5. [cleanState] is idempotent: cleaning an already cleaned state
    changes nothing. *)
Theorem cleanState_is_idempotent :
  forall (state : JsValue), cleanState (cleanState state) = cleanState state.
Proof.
  induction state as [ | | b | n | s | n | | | items IH | props IH ]
    using JsValue_nested_ind; try reflexivity.
  - cbn [cleanState].
    set (cleaned := filter isMeaningfulValue (map cleanState items)).
    destruct (0 <? length cleaned)%nat eqn:Hlen; [|reflexivity].
    cbn [cleanState].
    assert (Hmap : map cleanState cleaned = cleaned).
    { rewrite <- (map_id cleaned) at 2. apply map_ext_in.
      intros y Hy. unfold cleaned in Hy. apply filter_In in Hy as [Hy _].
      apply in_map_iff in Hy as (x & <- & Hx).
      rewrite Forall_forall in IH. apply IH. exact Hx. }
    rewrite Hmap. unfold cleaned at 1 2. rewrite filter_fixed.
    fold cleaned. rewrite Hlen. reflexivity.
  - cbn [cleanState].
    pose proof (cleanEntry_fold_entries cleanState props ([], false))
      as (Hnd & Hin & Hflag).
    cbn zeta in *. cbn [fst snd] in *.
    destruct (fold_left (cleanEntry cleanState) props ([], false))
      as [cleaned hasValue] eqn:Hfold.
    cbn [fst snd] in *.
    destruct hasValue; [|reflexivity].
    cbn [cleanState].
    rewrite cleanEntry_fold_fixed.
    + cbn [app snd fst]. rewrite <- Hflag by reflexivity. reflexivity.
    + apply Hnd. constructor.
    + intros k y Hy. destruct (Hin k y Hy) as [[]|(H1 & H2 & H3 & x & H4 & ->)].
      repeat split; auto.
      rewrite Forall_forall in IH. apply (IH (k, x) H4).
    + intros k _ [].
Qed.

(** *** Redaction *)

(** The value that [filterState] writes for one entry. *)
Definition redactValue (excludeKeys : list string) (entry : string * JsValue)
  : JsValue :=
  if existsb (String.eqb (fst entry)) excludeKeys then REDACTED
  else match snd entry with
       | JObj _ => JObj (filterObject excludeKeys (snd entry))
       | value => value
       end.

Lemma filterObject_step (excludeKeys : list string) (props : Props) :
  filterObject excludeKeys (JObj props)
  = fold_left (fun filtered entry =>
                 obj_set filtered (fst entry) (redactValue excludeKeys entry))
              props [].
Proof.
  cbn [filterObject]. apply fold_left_ext_in.
  intros acc [k x] _. unfold redactValue. cbn [fst snd].
  destruct (existsb (String.eqb k) excludeKeys); [reflexivity|].
  destruct x; reflexivity.
Qed.

Lemma filterObject_fixed (excludeKeys : list string) (state : JsValue) :
  filterObject excludeKeys (JObj (filterObject excludeKeys state))
  = filterObject excludeKeys state.
Proof.
  induction state as [ | | b | n | s | n | | | items IH | props IH ]
    using JsValue_nested_ind; try reflexivity.
  rewrite (filterObject_step excludeKeys props).
  pose proof (obj_set_fold_entries fst (redactValue excludeKeys) props [])
    as [Hnd Hin]. cbn zeta in *.
  set (filtered := fold_left _ props []) in *.
  rewrite filterObject_step.
  rewrite (fold_left_ext_in _
             (fun acc entry => obj_set acc (fst entry) (snd entry))).
  - rewrite obj_set_rebuild; [reflexivity | apply Hnd; constructor |].
    intros k _ [].
  - intros acc [k y] Hy. cbn [fst snd]. f_equal.
    destruct (Hin k y Hy) as [[]|([k' x] & Hx & Hk & Hv)].
    cbn [fst] in Hk. subst k'.
    unfold redactValue in *. cbn [fst snd] in *.
    destruct (existsb (String.eqb k) excludeKeys); [subst; reflexivity|].
    rewrite Forall_forall in IH. specialize (IH (k, x) Hx). cbn [snd] in IH.
    destruct x; subst; try reflexivity.
    rewrite IH. reflexivity.
Qed.

(** X6. Redaction is stable: applying [filterState] a second time with
    the same excluded keys gives the same object. *)
Theorem filterState_is_idempotent :
  forall (state : Props) (excludeKeys : list string),
    filterState (filterState state excludeKeys) excludeKeys
    = filterState state excludeKeys.
Proof.
  intros state excludeKeys. unfold filterState. apply filterObject_fixed.
Qed.

(** [held_under root key v]: [v] is the value of property [key] of [root]
    or of an object nested in [root] through properties only. *)
Inductive held_under : JsValue -> string -> JsValue -> Prop :=
| held_here props key v :
    In (key, v) props -> held_under (JObj props) key v
| held_deeper props outer inner key v :
    In (outer, JObj inner) props -> held_under (JObj inner) key v ->
    held_under (JObj props) key v.

Definition isRedactedValue (v : JsValue) : bool :=
  match v with
  | JStr s => String.eqb s "[REDACTED]"
  | _ => false
  end.

(** Every excluded key of [v], and of the objects nested in [v] through
    properties, holds the redaction marker. *)
Fixpoint isRedacted (excludeKeys : list string) (v : JsValue) : bool :=
  match v with
  | JObj props =>
      forallb (fun entry =>
                 if existsb (String.eqb (fst entry)) excludeKeys
                 then isRedactedValue (snd entry)
                 else isRedacted excludeKeys (snd entry))
              props
  | _ => true
  end.

Lemma isRedactedValue_eq (v : JsValue) :
  isRedactedValue v = true -> v = REDACTED.
Proof.
  destruct v; try discriminate. cbn. intros H.
  apply String.eqb_eq in H. subst. reflexivity.
Qed.

Lemma filterObject_isRedacted (excludeKeys : list string) (state : JsValue) :
  isRedacted excludeKeys (JObj (filterObject excludeKeys state)) = true.
Proof.
  induction state as [ | | b | n | s | n | | | items IH | props IH ]
    using JsValue_nested_ind; try reflexivity.
  rewrite filterObject_step.
  pose proof (obj_set_fold_entries fst (redactValue excludeKeys) props [])
    as [_ Hin]. cbn zeta in Hin.
  cbn [isRedacted]. apply forallb_forall. intros [k y] Hy. cbn [fst snd].
  destruct (Hin k y Hy) as [[]|([k' x] & Hx & Hk & Hv)].
  cbn [fst] in Hk. subst k'. unfold redactValue in Hv. cbn [fst snd] in Hv.
  destruct (existsb (String.eqb k) excludeKeys); [subst; reflexivity|].
  rewrite Forall_forall in IH. specialize (IH (k, x) Hx). cbn [snd] in IH.
  destruct x; subst; try reflexivity. exact IH.
Qed.

Lemma cleanState_isRedacted (excludeKeys : list string) (state : JsValue) :
  isRedacted excludeKeys state = true ->
  isRedacted excludeKeys (cleanState state) = true.
Proof.
  induction state as [ | | b | n | s | n | | | items IH | props IH ]
    using JsValue_nested_ind; try reflexivity.
  - intros _. cbn [cleanState]. destruct (0 <? _)%nat; reflexivity.
  - intros Hred. cbn [cleanState].
    pose proof (cleanEntry_fold_entries cleanState props ([], false))
      as (_ & Hin & _). cbn zeta in Hin.
    destruct (fold_left (cleanEntry cleanState) props ([], false))
      as [cleaned hasValue]. cbn [fst snd] in *.
    destruct hasValue; [|reflexivity].
    cbn [isRedacted] in *. rewrite forallb_forall in Hred.
    apply forallb_forall. intros [k y] Hy. cbn [fst snd].
    destruct (Hin k y Hy) as [[]|(_ & _ & _ & x & Hx & ->)].
    specialize (Hred (k, x) Hx). cbn [fst snd] in Hred.
    destruct (existsb (String.eqb k) excludeKeys).
    + apply isRedactedValue_eq in Hred. subst. reflexivity.
    + rewrite Forall_forall in IH. apply (IH (k, x) Hx). exact Hred.
Qed.

Lemma isRedacted_held (excludeKeys : list string) (root : JsValue)
      (key : string) (v : JsValue) :
  held_under root key v ->
  isRedacted excludeKeys root = true ->
  In key excludeKeys -> v = REDACTED.
Proof.
  induction 1 as [props key v Hin | props outer inner key v Hin Hheld IH];
    intros Hred Hex; cbn [isRedacted] in Hred; rewrite forallb_forall in Hred.
  - specialize (Hred _ Hin). cbn [fst snd] in Hred.
    assert (E : existsb (String.eqb key) excludeKeys = true).
    { apply existsb_exists. exists key. split; [exact Hex|].
      apply String.eqb_refl. }
    rewrite E in Hred. apply isRedactedValue_eq. exact Hred.
  - specialize (Hred _ Hin). cbn [fst snd] in Hred.
    destruct (existsb (String.eqb outer) excludeKeys).
    + discriminate Hred.
    + apply IH; assumption.
Qed.

(** *** Where store failures are caught *)

(** An adapter's two calls and the filtering and cleaning of its state
    return. *)
Definition adapterRuns (excludeKeys : option (list string))
           (a : StateAdapter) : Prop :=
  exists available,
    isAvailable a = Ok available /\
    (available = true ->
     exists adapterState,
       getState a = Ok adapterState /\
       returns (adapterContribution excludeKeys adapterState)).

(** The cleaned, non-empty state of an available adapter. *)
Definition contributionOf (excludeKeys : option (list string))
           (a : StateAdapter) : option JsValue :=
  match isAvailable a with
  | Ok true =>
      match getState a with
      | Ok adapterState =>
          match adapterContribution excludeKeys adapterState with
          | Ok contribution => contribution
          | Throw _ => None
          end
      | Throw _ => None
      end
  | _ => None
  end.

Definition mergeAdapter (excludeKeys : option (list string))
           (state : Props) (a : StateAdapter) : Props :=
  match contributionOf excludeKeys a with
  | Some v => obj_set state (name a) v
  | None => state
  end.

Lemma captureAdapters_returns (excludeKeys : option (list string))
      (registered : list StateAdapter) :
  (forall a, In a registered -> adapterRuns excludeKeys a) ->
  forall state,
    captureAdapters registered excludeKeys state
    = Ok (fold_left (mergeAdapter excludeKeys) registered state).
Proof.
  induction registered as [|a rest IH]; intros Hall state; [reflexivity|].
  destruct (Hall a (or_introl eq_refl)) as (available & Ha & Hg).
  assert (Hrest : forall b, In b rest -> adapterRuns excludeKeys b)
    by (intros b Hb; apply Hall; right; exact Hb).
  cbn [captureAdapters fold_left]. unfold mergeAdapter at 2, contributionOf.
  rewrite Ha. cbn [bind]. destruct available.
  - destruct (Hg eq_refl) as (adapterState & Hs & [contribution Hc]).
    rewrite Hs. cbn [bind]. rewrite Hc. cbn [bind].
    destruct contribution; apply IH; exact Hrest.
  - apply IH; exact Hrest.
Qed.

(** The loop holds no guard: it returns only if every adapter ran. *)
Lemma captureAdapters_Ok_inv (excludeKeys : option (list string))
      (registered : list StateAdapter) :
  forall state out,
    captureAdapters registered excludeKeys state = Ok out ->
    forall a, In a registered -> adapterRuns excludeKeys a.
Proof.
  induction registered as [|b rest IH]; intros state out Hrun a Hin;
    [destruct Hin|].
  cbn [captureAdapters] in Hrun.
  apply bind_Ok_inv in Hrun. destruct Hrun as (available & Hav & Hrun).
  destruct available.
  - apply bind_Ok_inv in Hrun. destruct Hrun as (adapterState & Hs & Hrun).
    apply bind_Ok_inv in Hrun. destruct Hrun as (contribution & Hc & Hrun).
    destruct Hin as [<-|Hin].
    + exists true. split; [exact Hav|]. intros _.
      exists adapterState. split; [exact Hs|]. exists contribution. exact Hc.
    + destruct contribution; eapply IH; eauto.
  - destruct Hin as [<-|Hin].
    + exists false. split; [exact Hav|]. discriminate.
    + eapply IH; eauto.
Qed.

Lemma captureAdapters_Ok_merged (excludeKeys : option (list string))
      (registered : list StateAdapter) (state out : Props) :
  captureAdapters registered excludeKeys state = Ok out ->
  out = fold_left (mergeAdapter excludeKeys) registered state.
Proof.
  intros Hrun.
  pose proof (captureAdapters_returns
                excludeKeys registered
                (captureAdapters_Ok_inv excludeKeys registered state out Hrun)
                state) as Hfold.
  congruence.
Qed.

Lemma mergeAdapter_fold_other (excludeKeys : option (list string))
      (registered : list StateAdapter) (key : string) :
  (forall b, In b registered -> name b <> key) ->
  forall state,
    obj_get (fold_left (mergeAdapter excludeKeys) registered state) key
    = obj_get state key.
Proof.
  induction registered as [|a rest IH]; intros Hne state; [reflexivity|].
  cbn [fold_left]. rewrite IH by (intros b Hb; apply Hne; right; exact Hb).
  unfold mergeAdapter. destruct (contributionOf excludeKeys a); [|reflexivity].
  apply obj_get_set_other. intros E. apply (Hne a (or_introl eq_refl)).
  symmetry; exact E.
Qed.

Lemma mergeAdapter_fold_merged (excludeKeys : option (list string))
      (registered : list StateAdapter) :
  NoDup (map name registered) ->
  forall state a,
    In a registered ->
    obj_get (fold_left (mergeAdapter excludeKeys) registered state) (name a)
    = match contributionOf excludeKeys a with
      | Some v => Some v
      | None => obj_get state (name a)
      end.
Proof.
  induction registered as [|b rest IH]; intros Hnd state a Hin;
    [destruct Hin|].
  cbn [map] in Hnd. inversion Hnd as [|? ? Hnotin Hnd']; subst.
  cbn [fold_left]. destruct Hin as [->|Hin].
  - rewrite mergeAdapter_fold_other.
    + unfold mergeAdapter. destruct (contributionOf excludeKeys a);
        [apply obj_get_set_same | reflexivity].
    + intros c Hc' E. apply Hnotin. rewrite <- E. apply in_map. exact Hc'.
  - rewrite (IH Hnd' _ a Hin).
    destruct (contributionOf excludeKeys a); [reflexivity|].
    unfold mergeAdapter. destruct (contributionOf excludeKeys b); [|reflexivity].
    apply obj_get_set_other. intros E. apply Hnotin. rewrite <- E.
    apply in_map. exact Hin.
Qed.

Lemma captureCustom_other (customStateGetter : option (result StoreValue))
      (state : Props) (key : string) :
  key <> "custom" ->
  obj_get (fst (captureCustom customStateGetter state)) key
  = obj_get state key.
Proof.
  intros Hkey. unfold captureCustom.
  destruct customStateGetter as [outcome|]; [|reflexivity].
  destruct (bind outcome _) as [customState|err]; [|reflexivity].
  destruct (isMeaningfulValue customState); [|reflexivity].
  cbn [fst]. apply obj_get_set_other. exact Hkey.
Qed.

Lemma adapters_names_distinct (win : Window) :
  NoDup (map name (adapters win)).
Proof. repeat constructor; cbn; intuition discriminate. Qed.

Lemma adapters_not_custom (win : Window) (a : StateAdapter) :
  In a (adapters win) -> name a <> "custom".
Proof. intros [<-|[<-|[<-|[]]]]; discriminate. Qed.

(** The state after the adapter loop of [captureAppState]. *)
Definition mergedAdapters (win : Window) (excludeKeys : option (list string))
  : Props :=
  fold_left (mergeAdapter excludeKeys) (adapters win) [].

(** What [captureAppState] holds when it returns, adapter by adapter. *)
Lemma captureAppState_Ok_entries (win : Window)
      (customStateGetter : option (result StoreValue))
      (excludeKeys : option (list string)) (state : Props) (warnings : nat) :
  captureAppState win customStateGetter excludeKeys = Ok (state, warnings) ->
  (forall a, In a (adapters win) -> adapterRuns excludeKeys a) /\
  (state, warnings)
  = captureCustom customStateGetter (mergedAdapters win excludeKeys) /\
  (forall a, In a (adapters win) ->
     obj_get (mergedAdapters win excludeKeys) (name a)
     = contributionOf excludeKeys a) /\
  obj_get (mergedAdapters win excludeKeys) "custom" = None.
Proof.
  unfold captureAppState, captureWith. intros Hrun.
  apply bind_Ok_inv in Hrun. destruct Hrun as (merged & Hloop & Hrun).
  pose proof (captureAdapters_Ok_merged _ _ _ _ Hloop) as Hmerged.
  fold (mergedAdapters win excludeKeys) in Hmerged. subst merged.
  split; [exact (captureAdapters_Ok_inv _ _ _ _ Hloop)|].
  split; [congruence|]. split.
  - intros a Ha. unfold mergedAdapters.
    rewrite mergeAdapter_fold_merged;
      [|apply adapters_names_distinct|exact Ha].
    destruct (contributionOf excludeKeys a); reflexivity.
  - unfold mergedAdapters. rewrite mergeAdapter_fold_other; [reflexivity|].
    intros b Hb. apply adapters_not_custom in Hb. exact Hb.
Qed.

(** **** States without a reference back into themselves *)













(** **** Pages whose reads return *)

Definition isOk {A : Type} (r : result A) : bool :=
  match r with
  | Ok _ => true
  | Throw _ => false
  end.

(** Reading the members of [o] returns, and so does reading the label
    of the atoms of its [values] Map. *)
Definition membersReadable (o : HostObject) : bool :=
  isOk (store_getState o) && isOk (subscribe_is_function o)
  && isOk (dispatch_is_function o) && isOk (store_get o)
  && match values_map o with
     | Ok (Some values) => forallb (fun entry => isOk (atomLabel (fst entry)))
                                   values
     | Ok None => true
     | Throw _ => false
     end.

Definition globalReadable (g : Global) : bool :=
  match g with
  | GObject o => membersReadable o
  | _ => true
  end.

Definition propertyReadable (p : Property) : bool :=
  match p with
  | Data g => globalReadable g
  | ThrowingGetter _ => false
  end.

(** Reading the globals of the page and the members of the objects they
    hold does not throw.  Calling their [getState()] or [get(atom)]
    may. *)
Definition pageReadable (win : Window) : bool :=
  forallb (fun entry => propertyReadable (snd entry)) win.

Lemma obj_get_found {V : Type} (o : list (string * V)) (key : string)
      (value : V) :
  obj_get o key = Some value -> In (key, value) o.
Proof.
  induction o as [|[k v] rest IH]; cbn [obj_get]; [discriminate|].
  destruct (String.eqb k key) eqn:E.
  - apply String.eqb_eq in E. intros H. injection H as <-. subst.
    left. reflexivity.
  - intros H. right. apply IH. exact H.
Qed.

Lemma isOk_returns {A : Type} (r : result A) : isOk r = true -> returns r.
Proof. destruct r as [a|e]; [exists a; reflexivity | discriminate]. Qed.

Lemma win_get_readable (win : Window) (key : string) :
  pageReadable win = true ->
  exists g, win_get win key = Ok g /\ globalReadable g = true.
Proof.
  intros Hpage. unfold win_get.
  destruct (obj_get win key) as [p|] eqn:Hget.
  - apply obj_get_found in Hget. unfold pageReadable in Hpage.
    rewrite forallb_forall in Hpage. specialize (Hpage _ Hget).
    cbn [snd] in Hpage. destruct p as [g|e]; [|discriminate Hpage].
    exists g. split; [reflexivity | exact Hpage].
  - exists GFalsy. split; reflexivity.
Qed.

Lemma membersReadable_reads (o : HostObject) :
  membersReadable o = true ->
  returns (store_getState o) /\ returns (subscribe_is_function o) /\
  returns (dispatch_is_function o) /\ returns (store_get o) /\
  exists values,
    values_map o = Ok values /\
    forall entries, values = Some entries ->
      Forall (fun entry => returns (atomLabel (fst entry))) entries.
Proof.
  unfold membersReadable. intros H.
  apply andb_true_iff in H as [H Hvalues].
  apply andb_true_iff in H as [H Hget].
  apply andb_true_iff in H as [H Hdispatch].
  apply andb_true_iff in H as [Hstate Hsubscribe].
  repeat (split; [apply isOk_returns; assumption|]).
  destruct (values_map o) as [[entries|]|e]; [| |discriminate Hvalues].
  - exists (Some entries). split; [reflexivity|].
    intros entries' E. injection E as <-. apply Forall_forall.
    intros entry Hin. rewrite forallb_forall in Hvalues.
    apply isOk_returns. apply Hvalues. exact Hin.
  - exists None. split; [reflexivity|]. discriminate.
Qed.

Lemma hasGetState_readable (g : Global) :
  globalReadable g = true ->
  exists found,
    hasGetState g = Ok found /\
    forall store, found = Some store -> membersReadable store = true.
Proof.
  destruct g as [ | o | entries | atoms ]; cbn [globalReadable hasGetState];
    intros Hg; try (exists None; split; [reflexivity | discriminate]).
  destruct (membersReadable_reads o Hg) as ([member Hmember] & _).
  rewrite Hmember. cbn [bind]. eexists. split; [reflexivity|].
  destruct member; [|discriminate]. intros store E. injection E as <-.
  exact Hg.
Qed.

Lemma findReduxStore_readable (win : Window) :
  pageReadable win = true -> returns (findReduxStore win).
Proof.
  intros Hpage. unfold findReduxStore.
  destruct (win_get_readable win "__REDUX_DEVTOOLS_EXTENSION__" Hpage)
    as (g0 & -> & _). cbn [bind].
  destruct (win_get_readable win "__REDUX_DEVTOOLS_STORE__" Hpage)
    as (g1 & -> & Hg1). cbn [bind].
  destruct (hasGetState_readable g1 Hg1) as (found1 & -> & _).
  cbn [bind]. destruct found1 as [store|]; [apply returns_Ok|].
  destruct (win_get_readable win "__REDUX_STORE__" Hpage) as (g2 & -> & Hg2).
  cbn [bind].
  destruct (hasGetState_readable g2 Hg2) as (found2 & -> & _).
  cbn [bind]. destruct found2 as [store|]; [apply returns_Ok|].
  destruct (win_get_readable win "store" Hpage) as (g3 & -> & Hg3).
  cbn [bind].
  destruct (hasGetState_readable g3 Hg3) as (found3 & -> & Hstore).
  cbn [bind]. destruct found3 as [store|]; [|apply returns_Ok].
  destruct (membersReadable_reads store (Hstore store eq_refl))
    as (_ & [subscribes ->] & [dispatches ->] & _).
  cbn [bind]. destruct subscribes; apply returns_Ok.
Qed.

Lemma scanForStores_readable (win : Window) :
  pageReadable win = true ->
  forall (entries : Window) potentialStores,
    returns (foldR (scanKey win) entries potentialStores).
Proof.
  intros Hpage. induction entries as [|entry rest IH]; intros acc;
    cbn [foldR]; [apply returns_Ok|].
  unfold scanKey at 1. destruct (looksLikeStoreKey (fst entry));
    cbn [bind]; [|apply IH].
  destruct (win_get_readable win (fst entry) Hpage) as (g & -> & Hg).
  cbn [bind].
  destruct (hasGetState_readable g Hg) as (found & -> & _).
  cbn [bind]. apply IH.
Qed.

Lemma findZustandStores_readable (win : Window) :
  pageReadable win = true -> returns (findZustandStores win).
Proof.
  intros Hpage. unfold findZustandStores.
  destruct (win_get_readable win "__ZUSTAND_DEVTOOLS_STORES__" Hpage)
    as (g0 & -> & _). cbn [bind].
  assert (Hrest : returns
            (exposedStore <- win_get win "__ZUSTAND_STORE__" ;;
             found <- hasGetState exposedStore ;;
             match found with
             | Some exposedStore => Ok (Some [("default", exposedStore)])
             | None =>
                 potentialStores <- scanForStores win ;;
                 Ok (match potentialStores with
                     | [] => None
                     | _ => Some potentialStores
                     end)
             end)%js).
  { destruct (win_get_readable win "__ZUSTAND_STORE__" Hpage)
      as (g1 & -> & Hg1). cbn [bind].
    destruct (hasGetState_readable g1 Hg1) as (found & -> & _).
    cbn [bind]. destruct found; [apply returns_Ok|].
    destruct (scanForStores_readable win Hpage win []) as [stores Hscan].
    unfold scanForStores. rewrite Hscan. apply returns_Ok. }
  destruct g0 as [ | o | [|first more] | atoms ];
    try exact Hrest. apply returns_Ok.
Qed.

Lemma labelValue_readable (values : list (JotaiAtom * StoreValue)) :
  Forall (fun entry => returns (atomLabel (fst entry))) values ->
  forall state, returns (foldR labelValue values state).
Proof.
  induction 1 as [|entry rest [label Hlabel] Hrest IH]; intros state;
    cbn [foldR]; [apply returns_Ok|].
  unfold labelValue at 1. rewrite Hlabel. cbn [bind]. apply IH.
Qed.

Lemma findJotaiState_readable (win : Window) :
  pageReadable win = true -> returns (findJotaiState win).
Proof.
  intros Hpage. unfold findJotaiState.
  destruct (win_get_readable win "__JOTAI_DEVTOOLS_STATE__" Hpage)
    as (g0 & -> & Hg0). cbn [bind].
  assert (Hvalues : exists values,
             match g0 with
             | GObject devToolsState => values_map devToolsState
             | _ => Ok None
             end = Ok values /\
             forall entries, values = Some entries ->
               Forall (fun entry => returns (atomLabel (fst entry))) entries).
  { destruct g0 as [ | o | entries | atoms ];
      try (exists None; split; [reflexivity | discriminate]).
    destruct (membersReadable_reads o Hg0) as (_ & _ & _ & _ & Hv).
    exact Hv. }
  destruct Hvalues as (values & -> & Hlabels). cbn [bind].
  destruct values as [entries|].
  - destruct (labelValue_readable entries (Hlabels entries eq_refl) [])
      as [state ->]. apply returns_Ok.
  - destruct (win_get_readable win "__JOTAI_STORE__" Hpage) as (g1 & -> & Hg1).
    cbn [bind].
    destruct (win_get_readable win "__JOTAI_ATOMS__" Hpage) as (g2 & -> & _).
    cbn [bind].
    assert (Hget : returns (hasGet g1)).
    { destruct g1 as [ | o | entries | atoms ]; cbn [hasGet];
        try apply returns_Ok.
      destruct (membersReadable_reads o Hg1) as (_ & _ & _ & Hget & _).
      exact Hget. }
    destruct Hget as [get ->]. cbn [bind].
    destruct get as [get|]; [|apply returns_Ok].
    destruct g2; apply returns_Ok.
Qed.

(** On a page whose reads return, both calls of each adapter return,
    whatever calling the stores does; and an adapter that is not
    available has no state. *)
Lemma adapters_callsReturn (win : Window) (a : StateAdapter) :
  pageReadable win = true ->
  In a (adapters win) ->
  exists available adapterState,
    isAvailable a = Ok available /\ getState a = Ok adapterState /\
    (available = false -> adapterState = None).
Proof.
  intros Hpage [<-|[<-|[<-|[]]]];
    cbn [isAvailable getState zustandAdapter reduxAdapter jotaiAdapter].
  - destruct (findZustandStores_readable win Hpage) as [stores ->].
    cbn [bind]. destruct stores as [stores|].
    + eexists. eexists. split; [reflexivity|]. split; [reflexivity|].
      discriminate.
    + exists false, None. auto.
  - destruct (findReduxStore_readable win Hpage) as [store ->].
    cbn [bind]. destruct store as [store|].
    + unfold try_catch. destruct (bind (callGetState store) _) as [st|e];
        eexists; eexists; (split; [reflexivity|]);
        (split; [reflexivity|]); discriminate.
    + exists false, None. auto.
  - destruct (findJotaiState_readable win Hpage) as [state ->].
    cbn [bind]. destruct state as [state|].
    + exists true, (Some state). repeat split. discriminate.
    + exists false, None. auto.
Qed.


Definition counterStore : HostObject :=
  {| store_getState :=
       Ok (Some (Ok [("count", SData (JNum 3)); ("_persist", SData JNull)]));
     subscribe_is_function := Ok true;
     dispatch_is_function := Ok false;
     values_map := Ok None;
     store_get := Ok None |}.




Definition noMembers : HostObject :=
  {| store_getState := Ok None;
     subscribe_is_function := Ok false;
     dispatch_is_function := Ok false;
     values_map := Ok None;
     store_get := Ok None |}.

(** A Redux store that throws when asked for its state. *)
Definition failingStore : HostObject :=
  {| store_getState := Ok (Some (Throw (UserError "store disposed")));
     subscribe_is_function := Ok true;
     dispatch_is_function := Ok true;
     values_map := Ok None;
     store_get := Ok None |}.

(** A page with a broken Redux store and a healthy Zustand store. *)
Definition pageWithFailingStore : Window :=
  [ ("__REDUX_DEVTOOLS_STORE__", Data (GObject failingStore));
    ("__ZUSTAND_DEVTOOLS_STORES__", Data (GMap [("cart", counterStore)])) ].

Example capture_survives_failing_store :
  captureAppState pageWithFailingStore (Some (Throw TypeError)) None
  = Ok ([("zustand", JObj [("cart", JObj [("count", JNum 3)])])], 1).
Proof. reflexivity. Qed.


(** The loop of [captureAppState] itself holds no guard: what an
    adapter's call throws leaves with it. *)
Definition throwingAdapter : StateAdapter :=
  {| name := "other";
     isAvailable := Throw TypeError;
     getState := Ok None |}.

Remark unguarded_loop (win : Window) :
  captureWith (throwingAdapter :: adapters win) None None = Throw TypeError.
Proof. reflexivity. Qed.

(** A Redux state that holds a React element: the fiber that owns the
    element is the alternate of its alternate. *)
Definition stateWithElement : StoreState :=
  [ ("user", SData (JObj [("name", JStr "Ada")]));
    ("modal", SObj [("type", SData (JStr "div"));
                    ("_owner", SObj [("alternate",
                                      SObj [("alternate", SBack)])])]) ].

Definition elementStore : HostObject :=
  {| store_getState := Ok (Some (Ok stateWithElement));
     subscribe_is_function := Ok true;
     dispatch_is_function := Ok true;
     values_map := Ok None;
     store_get := Ok None |}.

(** [cleanState] skips the [_owner] key and returns; [filterState]
    enters it and does not come back. *)
Example cyclic_state_stops_filterState :
  captureAppState [("__REDUX_STORE__", Data (GObject elementStore))] None None
  = Ok ([("redux", JObj [("user", JObj [("name", JStr "Ada")]);
                         ("modal", JObj [("type", JStr "div")])])], 0) /\
  captureAppState [("__REDUX_STORE__", Data (GObject elementStore))] None
                  (Some ["password"])
  = Throw RangeError.
Proof. split; reflexivity. Qed.

(** Every excluded key of [sv], and of the objects nested in [sv]
    through properties, holds the redaction marker. *)
Fixpoint isRedactedStored (excludeKeys : list string) (sv : StoreValue)
  : bool :=
  match sv with
  | SData v => isRedacted excludeKeys v
  | SObj props =>
      forallb (fun entry =>
                 if existsb (String.eqb (fst entry)) excludeKeys
                 then match snd entry with
                      | SData v => isRedactedValue v
                      | _ => false
                      end
                 else isRedactedStored excludeKeys (snd entry))
              props
  | _ => true
  end.

Lemma isRedactedStored_obj_set (excludeKeys : list string) (st : StoreState)
      (key : string) (sv : StoreValue) :
  isRedactedStored excludeKeys (SObj st) = true ->
  (if existsb (String.eqb key) excludeKeys
   then match sv with
        | SData v => isRedactedValue v
        | _ => false
        end
   else isRedactedStored excludeKeys sv) = true ->
  isRedactedStored excludeKeys (SObj (obj_set st key sv)) = true.
Proof.
  cbn [isRedactedStored]. intros Hst Hsv. apply forallb_forall.
  intros [k v] Hin. cbn [fst snd].
  destruct (obj_set_entry _ _ _ _ _ Hin) as [H|[-> ->]]; [|exact Hsv].
  rewrite forallb_forall in Hst. apply (Hst (k, v) H).
Qed.

Lemma isRedactedStored_data (excludeKeys : list string) (props : Props) :
  isRedacted excludeKeys (JObj props) = true ->
  isRedactedStored excludeKeys
    (SObj (map (fun entry => (fst entry, SData (snd entry))) props)) = true.
Proof.
  cbn [isRedacted isRedactedStored]. intros H. apply forallb_forall.
  intros [k sv] Hin. apply in_map_iff in Hin as ([k' v] & E & Hin).
  cbn [fst snd] in E. injection E as <- <-. cbn [fst snd].
  rewrite forallb_forall in H. apply (H (k', v) Hin).
Qed.

Lemma foldR_filterStored_isRedacted (excludeKeys : list string)
      (props : StoreState) :
  Forall (fun kv => forall st,
                      filterStored excludeKeys (snd kv) = Ok st ->
                      isRedactedStored excludeKeys (SObj st) = true) props ->
  forall acc out,
    isRedactedStored excludeKeys (SObj acc) = true ->
    foldR (filterStoredEntry excludeKeys (filterStored excludeKeys)) props acc
    = Ok out ->
    isRedactedStored excludeKeys (SObj out) = true.
Proof.
  induction 1 as [|[k sv] rest Hsv Hrest IH]; intros acc out Hacc Hrun;
    cbn [foldR] in Hrun.
  - injection Hrun as <-. exact Hacc.
  - apply bind_Ok_inv in Hrun. destruct Hrun as (next & Hstep & Hrun).
    apply (IH next out); [|exact Hrun]. clear IH Hrun.
    unfold filterStoredEntry in Hstep. cbn [fst snd] in Hstep, Hsv.
    destruct (existsb (String.eqb k) excludeKeys) eqn:Hex.
    + injection Hstep as <-. apply isRedactedStored_obj_set; [exact Hacc|].
      rewrite Hex. reflexivity.
    + assert (Hset : forall sv',
                 isRedactedStored excludeKeys sv' = true ->
                 isRedactedStored excludeKeys (SObj (obj_set acc k sv'))
                 = true).
      { intros sv' Hsv'. apply isRedactedStored_obj_set; [exact Hacc|].
        rewrite Hex. exact Hsv'. }
      destruct sv as [ v | | items | inner ].
      * destruct v; injection Hstep as <-; apply Hset; try reflexivity.
        cbn [isRedactedStored]. unfold filterState.
        apply filterObject_isRedacted.
      * discriminate Hstep.
      * injection Hstep as <-. apply Hset. reflexivity.
      * apply bind_Ok_inv in Hstep. destruct Hstep as (inner' & Hinner & Hstep).
        injection Hstep as <-. apply Hset. apply (Hsv inner' Hinner).
Qed.

Lemma filterStored_isRedacted (excludeKeys : list string) (sv : StoreValue) :
  forall st,
    filterStored excludeKeys sv = Ok st ->
    isRedactedStored excludeKeys (SObj st) = true.
Proof.
  induction sv as [ v | | items IH | props IH ] using StoreValue_nested_ind;
    intros st Hrun; cbn [filterStored] in Hrun.
  - destruct v; injection Hrun as <-; try reflexivity.
    apply isRedactedStored_data. unfold filterState.
    apply filterObject_isRedacted.
  - discriminate Hrun.
  - injection Hrun as <-. reflexivity.
  - apply (foldR_filterStored_isRedacted excludeKeys props IH [] st eq_refl
                                         Hrun).
Qed.

(** Where the entries that the loop of [cleanState] keeps come from. *)
Lemma cleanStoredEntry_fold_entries (props : StoreState) :
  forall acc out,
    foldR (cleanStoredEntry cleanStored) props acc = Ok out ->
    forall k y, In (k, y) (fst out) ->
      In (k, y) (fst acc) \/
      exists x, In (k, x) props /\ cleanStored x = Ok y.
Proof.
  induction props as [|[k0 x0] rest IH]; intros acc out Hrun k y Hy;
    cbn [foldR] in Hrun.
  - injection Hrun as <-. left. exact Hy.
  - apply bind_Ok_inv in Hrun. destruct Hrun as (next & Hstep & Hrun).
    destruct (IH next out Hrun k y Hy) as [Hnext|(x & Hx & Hclean)].
    + unfold cleanStoredEntry in Hstep. cbn [fst snd] in Hstep.
      destruct (NOISE_KEYS_has k0); [injection Hstep as <-; auto|].
      destruct (isInternalKey k0); [injection Hstep as <-; auto|].
      apply bind_Ok_inv in Hstep. destruct Hstep as (y0 & Hclean & Hstep).
      destruct (isMeaningfulValue y0); injection Hstep as <-; auto.
      cbn [fst] in Hnext.
      destruct (obj_set_entry _ _ _ _ _ Hnext) as [H|[-> ->]]; auto.
      right. exists x0. split; [left; reflexivity | exact Hclean].
    + right. exists x. split; [right; exact Hx | exact Hclean].
Qed.

Lemma cleanStored_isRedacted (excludeKeys : list string) (sv : StoreValue) :
  isRedactedStored excludeKeys sv = true ->
  forall v, cleanStored sv = Ok v -> isRedacted excludeKeys v = true.
Proof.
  induction sv as [ v0 | | items IH | props IH ] using StoreValue_nested_ind;
    intros Hred v Hclean; cbn [cleanStored] in Hclean.
  - injection Hclean as <-. apply cleanState_isRedacted. exact Hred.
  - discriminate Hclean.
  - apply bind_Ok_inv in Hclean. destruct Hclean as (mapped & _ & Hclean).
    injection Hclean as <-. destruct (0 <? _)%nat; reflexivity.
  - apply bind_Ok_inv in Hclean.
    destruct Hclean as ([cleaned hasValue] & Hfold & Hclean).
    injection Hclean as <-. cbn [fst snd].
    destruct hasValue; [|reflexivity].
    cbn [isRedacted]. apply forallb_forall. intros [k y] Hy. cbn [fst snd].
    destruct (cleanStoredEntry_fold_entries props _ _ Hfold k y Hy)
      as [[]|(x & Hx & Hxy)].
    cbn [isRedactedStored] in Hred. rewrite forallb_forall in Hred.
    specialize (Hred (k, x) Hx). cbn [fst snd] in Hred.
    rewrite Forall_forall in IH. specialize (IH (k, x) Hx). cbn [snd] in IH.
    destruct (existsb (String.eqb k) excludeKeys).
    + destruct x as [ xv | | | ]; try discriminate Hred.
      apply isRedactedValue_eq in Hred. subst xv.
      cbn [cleanStored] in Hxy. injection Hxy as <-. reflexivity.
    + apply (IH Hred y Hxy).
Qed.

Lemma contributionOf_redacted (keys : list string) (a : StateAdapter)
      (v : JsValue) :
  contributionOf (Some keys) a = Some v -> isRedacted keys v = true.
Proof.
  unfold contributionOf.
  destruct (isAvailable a) as [[|]|]; try discriminate.
  destruct (getState a) as [[st|]|]; try discriminate.
  unfold adapterContribution.
  destruct (filterStored keys (SObj st)) as [filtered|e] eqn:Hfilter;
    [|discriminate].
  cbn [bind].
  destruct (cleanStored (SObj filtered)) as [cleaned|e] eqn:Hclean;
    [|discriminate].
  cbn [bind].
  pose proof (cleanStored_isRedacted
                keys (SObj filtered)
                (filterStored_isRedacted keys (SObj st) filtered Hfilter)
                cleaned Hclean) as Hred.
  destruct cleaned; try discriminate.
  destruct (0 <? length props)%nat; [|discriminate].
  intros H. injection H as <-. exact Hred.
Qed.

(** X7. In what [captureAppState] returns for an adapter, every excluded
    key holds ["[REDACTED]"], at the top of the adapter's state and in the
    objects nested in it through properties; the cleaning that follows the
    redaction keeps the markers. *)
Theorem captured_adapter_state_is_redacted :
  forall (win : Window) (customStateGetter : option (result StoreValue))
         (excludeKeys : list string) (state : Props) (warnings : nat)
         (a : StateAdapter) (adapterState : JsValue)
         (key : string) (v : JsValue),
    captureAppState win customStateGetter (Some excludeKeys)
    = Ok (state, warnings) ->
    In a (adapters win) ->
    obj_get state (name a) = Some adapterState ->
    held_under adapterState key v ->
    In key excludeKeys ->
    v = REDACTED.
Proof.
  intros win custom keys state warnings a adapterState key v
         Hrun Ha Hget Hheld Hkey.
  destruct (captureAppState_Ok_entries win custom (Some keys) state warnings
                                       Hrun)
    as (_ & Hcap & Hentries & _).
  assert (Hstate : state = fst (captureCustom custom
                                  (mergedAdapters win (Some keys))))
    by (rewrite <- Hcap; reflexivity).
  rewrite Hstate, captureCustom_other, Hentries in Hget
    by (try apply (adapters_not_custom win a Ha); assumption).
  eapply isRedacted_held; [exact Hheld | | exact Hkey].
  eapply contributionOf_redacted. exact Hget.
Qed.

Definition sessionStore : HostObject :=
  {| store_getState :=
       Ok (Some (Ok [("user", SObj [("name", SData (JStr "Ada"));
                                    ("token", SData (JStr "s3cr3t"))]);
                     ("token", SData (JStr "abc"))]));
     subscribe_is_function := Ok true;
     dispatch_is_function := Ok true;
     values_map := Ok None;
     store_get := Ok None |}.

Definition sessionPage : Window :=
  [("__REDUX_STORE__", Data (GObject sessionStore))].

Definition sessionCaptured : JsValue :=
  JObj [("user", JObj [("name", JStr "Ada"); ("token", JStr "[REDACTED]")]);
        ("token", JStr "[REDACTED]")].

Lemma captured_adapter_state_is_redacted_witness :
  captureAppState sessionPage None (Some ["token"])
  = Ok ([("redux", sessionCaptured)], 0) /\
  held_under sessionCaptured "token" (JStr "[REDACTED]") /\
  JStr "[REDACTED]" = REDACTED.
Proof.
  assert (Hheld : held_under sessionCaptured "token" (JStr "[REDACTED]")).
  { eapply held_deeper; [left; reflexivity|].
    apply held_here. right; left; reflexivity. }
  split; [reflexivity|]. split; [exact Hheld|].
  apply (captured_adapter_state_is_redacted
           sessionPage None ["token"] [("redux", sessionCaptured)] 0
           (reduxAdapter sessionPage) sessionCaptured "token"
           (JStr "[REDACTED]")).
  - reflexivity.
  - right; left; reflexivity.
  - reflexivity.
  - exact Hheld.
  - left; reflexivity.
Defined.

(** *** The custom getter *)

(** X8. The custom state is cleaned but never redacted.  When the
    capture without a getter throws, so does the capture with one, before
    the getter is called.  Otherwise the capture with the getter returns;
    under ["custom"] it holds the cleaned return value of the getter
    whatever [excludeKeys] says, nothing when that value cleans to nothing
    or when the getter or the cleaning throws (one warning is printed
    then); and its other entries are those of the capture without the
    getter, which has no ["custom"] entry. *)
Theorem custom_state_is_cleaned_but_not_redacted :
  forall (win : Window) (outcome : result StoreValue)
         (excludeKeys : option (list string)),
    match captureAppState win None excludeKeys with
    | Throw e => captureAppState win (Some outcome) excludeKeys = Throw e
    | Ok (adapterEntries, _) =>
        exists state warnings,
          captureAppState win (Some outcome) excludeKeys
          = Ok (state, warnings) /\
          obj_get state "custom"
          = match (raw <- outcome ;; cleanStored raw)%js with
            | Ok customState =>
                if isMeaningfulValue customState
                then Some customState else None
            | Throw _ => None
            end /\
          warnings = match (raw <- outcome ;; cleanStored raw)%js with
                     | Ok _ => 0
                     | Throw _ => 1
                     end /\
          (forall key, key <> "custom" ->
                       obj_get state key = obj_get adapterEntries key) /\
          obj_get adapterEntries "custom" = None
    end.
Proof.
  intros win outcome excludeKeys.
  unfold captureAppState, captureWith.
  destruct (captureAdapters (adapters win) excludeKeys []) as [merged|e]
    eqn:Hloop; cbn [bind captureCustom]; [|reflexivity].
  assert (Hcustom : obj_get merged "custom" = None).
  { rewrite (captureAdapters_Ok_merged _ _ _ _ Hloop).
    rewrite mergeAdapter_fold_other; [reflexivity|].
    intros b Hb. apply (adapters_not_custom win b Hb). }
  destruct (bind outcome _) as [customState|err].
  - destruct (isMeaningfulValue customState).
    + eexists. eexists. split; [reflexivity|].
      split; [apply obj_get_set_same|]. split; [reflexivity|].
      split; [|exact Hcustom].
      intros key Hkey. apply obj_get_set_other. exact Hkey.
    + eexists. eexists. split; [reflexivity|]. auto.
  - eexists. eexists. split; [reflexivity|]. auto.
Qed.

(** *** Which managers are there *)

(** [adapters.some((adapter) => adapter.isAvailable())] *)
Fixpoint someAvailable (registered : list StateAdapter) : result bool :=
  match registered with
  | [] => Ok false
  | adapter :: rest =>
      (available <- isAvailable adapter ;;
       if available then Ok true else someAvailable rest)%js
  end.

(** [adapters.filter((adapter) => adapter.isAvailable())] *)
Fixpoint filterAvailable (registered : list StateAdapter)
  : result (list StateAdapter) :=
  match registered with
  | [] => Ok []
  | adapter :: rest =>
      (available <- isAvailable adapter ;;
       kept <- filterAvailable rest ;;
       Ok (if available then adapter :: kept else kept))%js
  end.

Definition hasAvailableStateManager (win : Window) : result bool :=
  someAvailable (adapters win).

Definition getAvailableStateManagers (win : Window) : result (list string) :=
  (available <- filterAvailable (adapters win) ;;
   Ok (map name available))%js.

(** The adapters whose [isAvailable()] answers [true]. *)
Definition answersAvailable (a : StateAdapter) : bool :=
  match isAvailable a with
  | Ok true => true
  | _ => false
  end.

Lemma filterAvailable_filter (registered : list StateAdapter) :
  (forall a, In a registered -> returns (isAvailable a)) ->
  filterAvailable registered = Ok (filter answersAvailable registered) /\
  someAvailable registered = Ok (existsb answersAvailable registered).
Proof.
  induction registered as [|a rest IH]; intros Hret; [split; reflexivity|].
  destruct (Hret a (or_introl eq_refl)) as [available Ha].
  destruct IH as [IHf IHs]; [intros b Hb; apply Hret; right; exact Hb|].
  assert (Hans : answersAvailable a = available)
    by (unfold answersAvailable; rewrite Ha; destruct available; reflexivity).
  cbn [filterAvailable someAvailable filter existsb].
  rewrite Ha, IHf, IHs, Hans. cbn [bind].
  destruct available; split; reflexivity.
Qed.

Lemma filterAvailable_Ok_inv (registered : list StateAdapter) :
  forall kept,
    filterAvailable registered = Ok kept ->
    forall a, In a registered -> returns (isAvailable a).
Proof.
  induction registered as [|b rest IH]; intros kept Hrun a Hin;
    [destruct Hin|].
  cbn [filterAvailable] in Hrun.
  apply bind_Ok_inv in Hrun. destruct Hrun as (available & Hav & Hrun).
  apply bind_Ok_inv in Hrun. destruct Hrun as (kept' & Hrest & _).
  destruct Hin as [<-|Hin]; [exists available; exact Hav|].
  apply (IH kept' Hrest a Hin).
Qed.

Lemma mergeAdapter_fold_keys (excludeKeys : option (list string))
      (registered : list StateAdapter) (key : string) :
  forall state,
    In key (map fst (fold_left (mergeAdapter excludeKeys) registered state)) ->
    In key (map fst state) \/
    exists a, In a registered /\ name a = key /\
              contributionOf excludeKeys a <> None.
Proof.
  induction registered as [|a rest IH]; intros state Hin; [left; exact Hin|].
  cbn [fold_left] in Hin. destruct (IH _ Hin) as [H|(b & Hb & Hn & Hc)].
  - unfold mergeAdapter in H.
    destruct (contributionOf excludeKeys a) eqn:E; [|left; exact H].
    apply obj_set_keys in H as [H|H]; [left; exact H|].
    right. exists a. split; [left; reflexivity|]. split; [auto|congruence].
  - right. exists b. split; [right; exact Hb|]. split; assumption.
Qed.

Lemma contributionOf_available (excludeKeys : option (list string))
      (a : StateAdapter) :
  contributionOf excludeKeys a <> None -> answersAvailable a = true.
Proof.
  unfold contributionOf, answersAvailable.
  destruct (isAvailable a) as [[|]|]; congruence.
Qed.

(** X9. When [captureAppState] returns, so do
    [getAvailableStateManagers] and [hasAvailableStateManager]: every key
    of the capture other than ["custom"] names a manager of the list, which
    holds only ["zustand"], ["redux"] and ["jotai"], and
    [hasAvailableStateManager] answers [true] exactly when the list is not
    empty. *)
Theorem captured_keys_name_available_managers :
  forall (win : Window) (customStateGetter : option (result StoreValue))
         (excludeKeys : option (list string))
         (state : Props) (warnings : nat),
    captureAppState win customStateGetter excludeKeys
    = Ok (state, warnings) ->
    exists managers,
      getAvailableStateManagers win = Ok managers /\
      hasAvailableStateManager win = Ok (negb (length managers =? 0)%nat) /\
      (forall m, In m managers -> In m ["zustand"; "redux"; "jotai"]) /\
      (forall key, In key (map fst state) ->
                   key = "custom" \/ In key managers).
Proof.
  intros win custom excludeKeys state warnings Hrun.
  destruct (captureAppState_Ok_entries win custom excludeKeys state warnings
                                       Hrun) as (Hruns & Hcap & _ & _).
  destruct (filterAvailable_filter (adapters win)) as [Hf Hs].
  { intros a Ha. destruct (Hruns a Ha) as (available & Hav & _).
    exists available. exact Hav. }
  exists (map name (filter answersAvailable (adapters win))).
  split; [unfold getAvailableStateManagers; rewrite Hf; reflexivity|].
  split; [|split].
  - unfold hasAvailableStateManager. rewrite Hs. f_equal.
    rewrite length_map. clear.
    induction (adapters win) as [|a rest IH]; [reflexivity|].
    cbn [existsb filter]. destruct (answersAvailable a); [reflexivity|].
    exact IH.
  - intros m Hm. apply in_map_iff in Hm as (a & <- & Ha).
    apply filter_In in Ha as [Ha _].
    destruct Ha as [<-|[<-|[<-|[]]]]; cbn; auto.
  - intros key Hkey.
    assert (Hstate : state = fst (captureCustom custom
                                    (mergedAdapters win excludeKeys)))
      by (rewrite <- Hcap; reflexivity).
    rewrite Hstate in Hkey. clear Hstate Hcap.
    assert (Hmerged : In key (map fst (mergedAdapters win excludeKeys)) \/
                      key = "custom").
    { unfold captureCustom in Hkey.
      destruct custom as [outcome|]; cbn [fst] in Hkey; auto.
      destruct (bind outcome _) as [customState|err]; cbn [fst] in Hkey; auto.
      destruct (isMeaningfulValue customState); cbn [fst] in Hkey; auto.
      apply obj_set_keys in Hkey. exact Hkey. }
    destruct Hmerged as [Hmerged | ->]; [|left; reflexivity].
    right. unfold mergedAdapters in Hmerged.
    apply mergeAdapter_fold_keys in Hmerged as [[]|(a & Ha & <- & Hc)].
    apply in_map. apply filter_In. split; [exact Ha|].
    eapply contributionOf_available. exact Hc.
Qed.

Lemma captured_keys_name_available_managers_witness :
  captureAppState sessionPage None (Some ["token"])
  = Ok ([("redux", sessionCaptured)], 0) /\
  exists managers,
    getAvailableStateManagers sessionPage = Ok managers /\
    In "redux" managers.
Proof.
  split; [reflexivity|].
  destruct (captured_keys_name_available_managers
              sessionPage None (Some ["token"]) [("redux", sessionCaptured)] 0
              eq_refl) as (managers & Hlist & _ & _ & Hkeys).
  exists managers. split; [exact Hlist|].
  destruct (Hkeys "redux" (or_introl eq_refl)) as [Hcustom|Hin];
    [discriminate Hcustom | exact Hin].
Defined.

(** *** Exposing stores *)

(** **** redux.ts *)

(** [exposeReduxStore(store)] *)
Definition exposeReduxStore (win : Window) (store : HostObject)
  : result Window :=
  win_set win "__REDUX_DEVTOOLS_STORE__" (GObject store).

(** **** zustand.ts *)


(** **** jotai.ts *)


Lemma win_get_set_same (win : Window) (key : string) (g : Global) :
  win_get (obj_set win key (Data g)) key = Ok g.
Proof. unfold win_get. rewrite obj_get_set_same. reflexivity. Qed.


Lemma win_set_Ok (win : Window) (key : string) (g : Global) (win' : Window) :
  win_set win key g = Ok win' -> win' = obj_set win key (Data g).
Proof.
  unfold win_set. destruct (obj_get win key) as [[g0|e]|]; intros H;
    try discriminate H; injection H as <-; reflexivity.
Qed.


Lemma exposed_redux_is_found (win win' : Window) (store : HostObject)
      (outcome : result StoreState) :
  store_getState store = Ok (Some outcome) ->
  exposeReduxStore win store = Ok win' ->
  forall found, findReduxStore win' = Ok found -> found = Some store.
Proof.
  intros Hs Hexpose found Hfind. apply win_set_Ok in Hexpose. subst win'.
  unfold findReduxStore in Hfind.
  apply bind_Ok_inv in Hfind. destruct Hfind as (devTools & _ & Hfind).
  rewrite win_get_set_same in Hfind. cbn [bind hasGetState] in Hfind.
  rewrite Hs in Hfind. cbn [bind] in Hfind. congruence.
Qed.



Lemma scanForStores_fold_nonempty (win : Window) (entries : Window) :
  forall potentialStores out,
    potentialStores <> [] ->
    foldR (scanKey win) entries potentialStores = Ok out ->
    out <> [].
Proof.
  induction entries as [|e rest IH]; intros acc out Hne Hrun;
    cbn [foldR] in Hrun.
  - injection Hrun as <-. exact Hne.
  - apply bind_Ok_inv in Hrun. destruct Hrun as (next & Hstep & Hrun).
    apply (IH next out); [|exact Hrun]. unfold scanKey in Hstep.
    destruct (looksLikeStoreKey (fst e)); [|injection Hstep as <-; exact Hne].
    apply bind_Ok_inv in Hstep. destruct Hstep as (value & _ & Hstep).
    apply bind_Ok_inv in Hstep. destruct Hstep as (found & _ & Hstep).
    injection Hstep as <-. destruct found as [store|]; [|exact Hne].
    intros E. pose proof (obj_get_set_same acc (fst e) store) as Hg.
    rewrite E in Hg. discriminate.
Qed.

Lemma scanForStores_fold_finds (win : Window) (key : string)
      (store : HostObject) (outcome : result StoreState) (entries : Window) :
  In key (map fst entries) ->
  looksLikeStoreKey key = true ->
  win_get win key = Ok (GObject store) ->
  store_getState store = Ok (Some outcome) ->
  forall potentialStores out,
    foldR (scanKey win) entries potentialStores = Ok out ->
    out <> [].
Proof.
  intros Hin Hlooks Hread Hstore.
  induction entries as [|e rest IH]; intros acc out Hrun; [destruct Hin|].
  cbn [foldR] in Hrun.
  apply bind_Ok_inv in Hrun. destruct Hrun as (next & Hstep & Hrun).
  cbn [map In] in Hin. destruct Hin as [Hkey|Hin].
  - apply (scanForStores_fold_nonempty win rest next out); [|exact Hrun].
    unfold scanKey in Hstep. rewrite Hkey, Hlooks, Hread in Hstep.
    cbn [bind hasGetState] in Hstep. rewrite Hstore in Hstep.
    cbn [bind] in Hstep. injection Hstep as <-.
    intros E. pose proof (obj_get_set_same acc key store) as Hg.
    rewrite E in Hg. discriminate.
  - apply (IH Hin next out Hrun).
Qed.

Lemma findZustandStores_scan (win : Window)
      (found : option (list (string * HostObject))) :
  findZustandStores win = Ok found ->
  (forall stores, scanForStores win = Ok stores -> stores <> []) ->
  found <> None.
Proof.
  unfold findZustandStores. intros Hfind Hscan.
  apply bind_Ok_inv in Hfind. destruct Hfind as (devtools & _ & Hfind).
  assert (Hrest :
            (exposedStore <- win_get win "__ZUSTAND_STORE__" ;;
             found <- hasGetState exposedStore ;;
             match found with
             | Some exposedStore => Ok (Some [("default", exposedStore)])
             | None =>
                 potentialStores <- scanForStores win ;;
                 Ok (match potentialStores with
                     | [] => None
                     | _ => Some potentialStores
                     end)
             end)%js = Ok found -> found <> None).
  { clear Hfind. intros Hfind.
    apply bind_Ok_inv in Hfind. destruct Hfind as (exposedStore & _ & Hfind).
    apply bind_Ok_inv in Hfind. destruct Hfind as (hit & _ & Hfind).
    destruct hit as [store|]; [injection Hfind as <-; discriminate|].
    apply bind_Ok_inv in Hfind. destruct Hfind as (stores & Hstores & Hfind).
    specialize (Hscan stores Hstores).
    destruct stores; [congruence|]. injection Hfind as <-. discriminate. }
  destruct devtools as [ | o | [|first more] | atoms ];
    try (apply Hrest; exact Hfind).
  injection Hfind as <-. discriminate.
Qed.

(** X11. A store exposed with [exposeReduxStore] is also taken for a
    Zustand store: its global name contains "store", so whenever
    [getAvailableStateManagers] returns, it lists both ["zustand"] and
    ["redux"]; and it returns on a page whose reads return. *)
Theorem exposed_redux_store_counts_as_zustand :
  forall (win win' : Window) (store : HostObject)
         (outcome : result StoreState),
    store_getState store = Ok (Some outcome) ->
    exposeReduxStore win store = Ok win' ->
    (forall managers,
        getAvailableStateManagers win' = Ok managers ->
        In "zustand" managers /\ In "redux" managers) /\
    (pageReadable win' = true -> returns (getAvailableStateManagers win')).
Proof.
  intros win win' store outcome Hs Hexpose. split.
  - intros managers Hlist. unfold getAvailableStateManagers in Hlist.
    apply bind_Ok_inv in Hlist. destruct Hlist as (kept & Hkept & Hlist).
    injection Hlist as <-.
    pose proof (filterAvailable_Ok_inv _ _ Hkept) as Hret.
    destruct (filterAvailable_filter (adapters win') Hret) as [Hf _].
    assert (E : kept = filter answersAvailable (adapters win')) by congruence.
    subst kept. clear Hkept Hf.
    assert (Hz : answersAvailable (zustandAdapter win') = true).
    { destruct (Hret (zustandAdapter win') (or_introl eq_refl))
        as [available Hav].
      unfold answersAvailable. rewrite Hav.
      cbn [isAvailable zustandAdapter] in Hav.
      apply bind_Ok_inv in Hav. destruct Hav as (found & Hfind & Hav).
      injection Hav as <-.
      assert (Hsome : found <> None).
      { apply (findZustandStores_scan win' found Hfind).
        intros stores Hscan.
        pose proof (win_set_Ok _ _ _ _ Hexpose) as Hwin.
        apply (scanForStores_fold_finds
                 win' "__REDUX_DEVTOOLS_STORE__" store outcome win')
          with (potentialStores := []); auto.
        - rewrite Hwin. apply obj_set_keys. right. reflexivity.
        - rewrite Hwin. apply win_get_set_same. }
      destruct found; [reflexivity | congruence]. }
    assert (Hr : answersAvailable (reduxAdapter win') = true).
    { destruct (Hret (reduxAdapter win') (or_intror (or_introl eq_refl)))
        as [available Hav].
      unfold answersAvailable. rewrite Hav.
      cbn [isAvailable reduxAdapter] in Hav.
      apply bind_Ok_inv in Hav. destruct Hav as (found & Hfind & Hav).
      injection Hav as <-.
      rewrite (exposed_redux_is_found win win' store outcome Hs Hexpose
                                      found Hfind).
      reflexivity. }
    split.
    + apply (in_map name _ (zustandAdapter win')). apply filter_In.
      split; [left; reflexivity | exact Hz].
    + apply (in_map name _ (reduxAdapter win')). apply filter_In.
      split; [right; left; reflexivity | exact Hr].
  - intros Hpage.
    destruct (filterAvailable_filter (adapters win')) as [Hf _].
    { intros a Ha.
      destruct (adapters_callsReturn win' a Hpage Ha)
        as (available & _ & Hav & _).
      exists available. exact Hav. }
    unfold getAvailableStateManagers. rewrite Hf. apply returns_Ok.
Qed.

Lemma exposed_redux_store_counts_as_zustand_witness :
  store_getState counterStore
  = Ok (Some (Ok [("count", SData (JNum 3)); ("_persist", SData JNull)])) /\
  exists win' managers,
    exposeReduxStore [] counterStore = Ok win' /\
    getAvailableStateManagers win' = Ok managers /\
    In "zustand" managers /\ In "redux" managers.
Proof.
  split; [reflexivity|].
  destruct (exposed_redux_store_counts_as_zustand
              [] _ counterStore
              (Ok [("count", SData (JNum 3)); ("_persist", SData JNull)])
              eq_refl eq_refl) as [Hlists Hreturns].
  destruct (Hreturns eq_refl) as [managers Hmanagers].
  eexists. exists managers. split; [reflexivity|].
  split; [exact Hmanagers | apply (Hlists managers Hmanagers)].
Defined.











End StateCapture.

(** * Delivery transport (src/utils/reporter.ts) *)

Module Reporter.

Definition DEFAULT_SERVER_URL : string := "http://localhost:9847".
Definition LOCAL_STORAGE_KEY : string := "contextReports".
Definition SERVER_CHECK_INTERVAL : Z := 5000.
Definition REPORT_TAG : string := "[CLAUDE_CONTEXT_REPORT]".

(** What the transport reads of a report.  [jsonSafe] tells whether
    [JSON.stringify(report)] returns (it throws on a [BigInt] or a cycle
    in the captured state). *)
Record ContextReport : Type := mkReport {
  id : string;
  url : string;
  description : option string;
  selectedElement_tagName : string;
  selectedElement_id : string;
  componentPath_names : list string;
  jsonSafe : bool
}.

Record ReporterConfig : Type := mkConfig {
  serverUrl : option string;
  serverTimeout : option Z;
  forceConsole : option bool
}.

Definition emptyConfig : ReporterConfig :=
  {| serverUrl := None; serverTimeout := None; forceConsole := None |}.

Definition orDefault {A : Type} (o : option A) (d : A) : A :=
  match o with Some a => a | None => d end.

(** *** The browser around the transport *)

(** The item under [LOCAL_STORAGE_KEY]: absent (or empty), the JSON text
    of a report array, or text that [JSON.parse] rejects. *)
Inductive StoredItem : Type :=
| NoItem
| ReportsJson (reports : list ContextReport)
| BadJson.

Record Storage : Type := mkStorage {
  item : StoredItem;
  getItem_throws : bool;   (* storage access denied *)
  setItem_throws : bool    (* quota exceeded, or storage read-only *)
}.

Inductive Method : Type := GET | POST.

Record Request : Type := mkRequest {
  req_method : Method;
  req_url : string
}.

(** How the endpoint answers a request sent at a given time. *)
Inductive Answer : Type :=
| Responds (ok : bool)      (* a response; [ok] is [response.ok] *)
| ConnectionFails.          (* [fetch] rejects *)

Inductive Reply : Type :=
| NoReply
| ReplyAfter (latency : Z) (answer : Answer).

Definition Server : Type := Request -> Z -> Reply.

Inductive LogLine : Type :=
| Log (parts : list string)
| LogJson (tag : string) (report : ContextReport)
| Warn (parts : list string)
| Group (title : string)
| GroupEnd.

Record World : Type := mkWorld {
  clock : Z;                              (* [Date.now()] *)
  cachedServerAvailable : option bool;
  lastServerCheck : Z;
  localStorage : Storage;
  console : list LogLine;                 (* oldest first *)
  requests : list Request                 (* fetches issued, oldest first *)
}.

Definition setClock (w : World) (t : Z) : World :=
  {| clock := t;
     cachedServerAvailable := cachedServerAvailable w;
     lastServerCheck := lastServerCheck w;
     localStorage := localStorage w;
     console := console w;
     requests := requests w |}.

(** Time passing between two calls. *)
Definition elapse (d : Z) (w : World) : World := setClock w (clock w + d).

Definition setCache (w : World) (available : bool) (checkedAt : Z) : World :=
  {| clock := clock w;
     cachedServerAvailable := Some available;
     lastServerCheck := checkedAt;
     localStorage := localStorage w;
     console := console w;
     requests := requests w |}.

Definition setStorage (w : World) (s : Storage) : World :=
  {| clock := clock w;
     cachedServerAvailable := cachedServerAvailable w;
     lastServerCheck := lastServerCheck w;
     localStorage := s;
     console := console w;
     requests := requests w |}.

Definition logLines (w : World) (lines : list LogLine) : World :=
  {| clock := clock w;
     cachedServerAvailable := cachedServerAvailable w;
     lastServerCheck := lastServerCheck w;
     localStorage := localStorage w;
     console := (console w ++ lines)%list;
     requests := requests w |}.

Definition recordRequest (w : World) (r : Request) : World :=
  {| clock := clock w;
     cachedServerAvailable := cachedServerAvailable w;
     lastServerCheck := lastServerCheck w;
     localStorage := localStorage w;
     console := console w;
     requests := (requests w ++ [r])%list |}.

(** [await fetch(url, {signal})] raced against
    [setTimeout(() => controller.abort(), timeout)]: the response if it
    comes before the timer, else the rejection. *)
Definition fetchWithTimeout (server : Server) (r : Request) (timeout : Z)
           (w : World) : result bool * World :=
  let w1 := recordRequest w r in
  match server r (clock w) with
  | NoReply => (Throw AbortError, elapse (Z.max 0 timeout) w1)
  | ReplyAfter latency answer =>
      if (latency <? timeout)%Z then
        match answer with
        | Responds ok => (Ok ok, elapse (Z.max 0 latency) w1)
        | ConnectionFails => (Throw NetworkError, elapse (Z.max 0 latency) w1)
        end
      else (Throw AbortError, elapse (Z.max 0 timeout) w1)
  end.

Definition healthRequest (serverUrl : string) : Request :=
  {| req_method := GET; req_url := serverUrl ++ "/health" |}.

Definition postRequest (serverUrl endpoint : string) : Request :=
  {| req_method := POST; req_url := serverUrl ++ endpoint |}.

(** [checkServerAvailable(serverUrl, timeout)] *)
Definition checkServerAvailable (server : Server) (serverUrl : string)
           (timeout : Z) (w : World) : bool * World :=
  let now := clock w in
  match cachedServerAvailable w with
  | Some cached =>
      if (now - lastServerCheck w <? SERVER_CHECK_INTERVAL)%Z
      then (cached, w)
      else
        match fetchWithTimeout server (healthRequest serverUrl) timeout w with
        | (Ok ok, w1) => (ok, setCache w1 ok now)
        | (Throw _, w1) => (false, setCache w1 false now)
        end
  | None =>
      match fetchWithTimeout server (healthRequest serverUrl) timeout w with
      | (Ok ok, w1) => (ok, setCache w1 ok now)
      | (Throw _, w1) => (false, setCache w1 false now)
      end
  end.

(** [sendToServer(endpoint, data, serverUrl, timeout)]: the body is
    serialized inside the [try], before the request goes out. *)
Definition sendToServer (server : Server) (endpoint : string)
           (data : ContextReport) (serverUrl : string) (timeout : Z)
           (w : World) : bool * World :=
  if jsonSafe data then
    match fetchWithTimeout server (postRequest serverUrl endpoint) timeout w
    with
    | (Ok ok, w1) => (ok, w1)
    | (Throw _, w1) => (false, w1)
    end
  else (false, w).

(** [localStorage.getItem(LOCAL_STORAGE_KEY)] followed by
    [existing ? JSON.parse(existing) : []]. *)
Definition readReports (s : Storage) : result (list ContextReport) :=
  if getItem_throws s then Throw SecurityError
  else match item s with
       | NoItem => Ok []
       | ReportsJson reports => Ok reports
       | BadJson => Throw SyntaxError
       end.

(** [JSON.stringify(trimmed)] then [localStorage.setItem]: the stored
    reports came out of [JSON.parse], so only the new one can make
    [JSON.stringify] throw. *)
Definition writeReports (s : Storage) (report : ContextReport)
           (trimmed : list ContextReport) : result Storage :=
  if negb (jsonSafe report) then Throw TypeError
  else if setItem_throws s then Throw QuotaExceededError
  else Ok {| item := ReportsJson trimmed;
             getItem_throws := getItem_throws s;
             setItem_throws := setItem_throws s |}.

Definition saveToLocalStorage (report : ContextReport) (w : World) : World :=
  match
    (reports <- readReports (localStorage w) ;;
     let reports := report :: reports in
     let trimmed := firstn 20 reports in
     writeReports (localStorage w) report trimmed)%js
  with
  | Ok s => setStorage w s
  | Throw _ =>
      logLines w [Warn ["[ContextReporter] Failed to save to localStorage:"]]
  end.

Definition getStoredReports (w : World) : list ContextReport :=
  match readReports (localStorage w) with
  | Ok reports => reports
  | Throw _ => []
  end.

Definition clearServerCache (w : World) : World :=
  {| clock := clock w;
     cachedServerAvailable := None;
     lastServerCheck := 0;
     localStorage := localStorage w;
     console := console w;
     requests := requests w |}.

Inductive DeliveryMethod : Type := ViaServer | ViaConsole.

Record Delivery : Type := mkDelivery {
  method : DeliveryMethod;
  success : bool
}.

(** The human-readable summary printed by the console branch. *)
Definition summaryHead (report : ContextReport) : list LogLine :=
  [ Group ("Context Report: " ++ id report);
    Log ["URL:"; url report];
    Log ["Element:";
         selectedElement_tagName report ++ "#" ++
         (if String.eqb (selectedElement_id report) ""
          then "(no id)" else selectedElement_id report)];
    Log ["Component Path:";
         JsString.join " > " (componentPath_names report)] ].

Definition summaryDescription (report : ContextReport) : list LogLine :=
  match description report with
  | Some d => if String.eqb d "" then [] else [Log ["Description:"; d]]
  | None => []
  end.

Definition summaryFoot : list LogLine :=
  [ Log ["Note: Run /process-reports in Claude Code to retrieve this report"];
    GroupEnd ].

(** The console branch of [logContextReport]; [JSON.stringify(report)]
    is evaluated in the open here. *)
Definition consoleFallback (report : ContextReport) (w : World)
  : result Delivery * World :=
  if jsonSafe report then
    (Ok {| method := ViaConsole; success := true |},
     logLines w
       (LogJson REPORT_TAG report
        :: app (summaryHead report)
               (app (summaryDescription report) summaryFoot)))
  else (Throw TypeError, w).

(** [logContextReport(report, config)] *)
Definition logContextReport (server : Server) (report : ContextReport)
           (config : ReporterConfig) (w : World) : result Delivery * World :=
  let serverUrl := orDefault (serverUrl config) DEFAULT_SERVER_URL in
  let serverTimeout := orDefault (serverTimeout config) 1000%Z in
  let forceConsole := orDefault (forceConsole config) false in
  let w1 := saveToLocalStorage report w in
  if negb forceConsole then
    let (serverAvailable, w2) :=
      checkServerAvailable server serverUrl serverTimeout w1 in
    if serverAvailable then
      let (sent, w3) :=
        sendToServer server "/report" report serverUrl serverTimeout w2 in
      if sent then
        (Ok {| method := ViaServer; success := true |},
         logLines w3
           [Log ["[ContextReporter] Report sent to server: " ++ id report]])
      else consoleFallback report w3
    else consoleFallback report w2
  else consoleFallback report w1.

(** *** Facts about the transport *)

(** A request sent at time [t] gets an OK response before the timer. *)
Definition fetchSucceeds (server : Server) (r : Request) (timeout t : Z)
  : bool :=
  match server r t with
  | ReplyAfter latency (Responds true) => (latency <? timeout)%Z
  | _ => false
  end.


(** The cache holds a fresh "available". *)
Definition cacheSaysUp (w : World) : bool :=
  match cachedServerAvailable w with
  | Some true => (clock w - lastServerCheck w <? SERVER_CHECK_INTERVAL)%Z
  | _ => false
  end.

Definition storageHealthy (s : Storage) : Prop :=
  getItem_throws s = false /\ setItem_throws s = false /\ item s <> BadJson.

Lemma fetchWithTimeout_ok (server : Server) (r : Request) (timeout : Z)
      (w : World) :
  fst (fetchWithTimeout server r timeout w) = Ok true ->
  fetchSucceeds server r timeout (clock w) = true.
Proof.
  unfold fetchWithTimeout, fetchSucceeds.
  destruct (server r (clock w)) as [|latency [ok|]]; cbn [fst];
    try discriminate;
    destruct (latency <? timeout)%Z; cbn [fst]; try discriminate.
  intros H; inversion H; subst; reflexivity.
Qed.

Lemma fetchWithTimeout_world (server : Server) (r : Request) (timeout : Z)
      (w : World) :
  let w' := snd (fetchWithTimeout server r timeout w) in
  localStorage w' = localStorage w /\
  cachedServerAvailable w' = cachedServerAvailable w /\
  lastServerCheck w' = lastServerCheck w /\
  requests w' = (requests w ++ [r])%list.
Proof.
  unfold fetchWithTimeout.
  destruct (server r (clock w)) as [|latency [ok|]];
    try destruct (latency <? timeout)%Z; repeat split.
Qed.

Lemma checkServerAvailable_storage (server : Server) (serverUrl : string)
      (timeout : Z) (w : World) :
  localStorage (snd (checkServerAvailable server serverUrl timeout w))
  = localStorage w.
Proof.
  unfold checkServerAvailable.
  pose proof (fetchWithTimeout_world server (healthRequest serverUrl)
                                     timeout w) as (Hs & _).
  destruct (fetchWithTimeout server (healthRequest serverUrl) timeout w)
    as [[ok|e] w1]; cbn [snd] in Hs;
    destruct (cachedServerAvailable w);
    try destruct (clock w - lastServerCheck w <? SERVER_CHECK_INTERVAL)%Z;
    cbn; auto.
Qed.

Lemma checkServerAvailable_up (server : Server) (serverUrl : string)
      (timeout : Z) (w : World) :
  fst (checkServerAvailable server serverUrl timeout w) = true ->
  cacheSaysUp w = true \/
  fetchSucceeds server (healthRequest serverUrl) timeout (clock w) = true.
Proof.
  unfold checkServerAvailable, cacheSaysUp.
  pose proof (fetchWithTimeout_ok server (healthRequest serverUrl)
                                  timeout w) as Hok.
  destruct (fetchWithTimeout server (healthRequest serverUrl) timeout w)
    as [[ok|e] w1]; cbn [fst] in Hok;
    destruct (cachedServerAvailable w) as [cached|];
    try destruct (clock w - lastServerCheck w <? SERVER_CHECK_INTERVAL)%Z;
    cbn [fst]; intros H; subst; auto; discriminate.
Qed.

Lemma sendToServer_storage (server : Server) (endpoint : string)
      (data : ContextReport) (serverUrl : string) (timeout : Z) (w : World) :
  localStorage (snd (sendToServer server endpoint data serverUrl timeout w))
  = localStorage w.
Proof.
  unfold sendToServer. destruct (jsonSafe data); [|reflexivity].
  pose proof (fetchWithTimeout_world server (postRequest serverUrl endpoint)
                                     timeout w) as (Hs & _).
  destruct (fetchWithTimeout server (postRequest serverUrl endpoint)
                             timeout w) as [[ok|e] w1]; exact Hs.
Qed.

Lemma sendToServer_sent (server : Server) (endpoint : string)
      (data : ContextReport) (serverUrl : string) (timeout : Z) (w : World) :
  fst (sendToServer server endpoint data serverUrl timeout w) = true ->
  fetchSucceeds server (postRequest serverUrl endpoint) timeout (clock w)
  = true.
Proof.
  unfold sendToServer. destruct (jsonSafe data); [|discriminate].
  pose proof (fetchWithTimeout_ok server (postRequest serverUrl endpoint)
                                  timeout w) as Hok.
  destruct (fetchWithTimeout server (postRequest serverUrl endpoint)
                             timeout w) as [[ok|e] w1];
    cbn [fst] in *; intros H; subst; auto; discriminate.
Qed.

Lemma consoleFallback_safe (report : ContextReport) (w : World) :
  jsonSafe report = true ->
  fst (consoleFallback report w)
  = Ok {| method := ViaConsole; success := true |} /\
  localStorage (snd (consoleFallback report w)) = localStorage w.
Proof. unfold consoleFallback. intros ->. split; reflexivity. Qed.

Lemma saveToLocalStorage_history (report : ContextReport) (w : World) :
  jsonSafe report = true ->
  storageHealthy (localStorage w) ->
  getStoredReports (saveToLocalStorage report w)
  = firstn 20 (report :: getStoredReports w).
Proof.
  intros Hsafe (Hget & Hset & Hitem).
  unfold saveToLocalStorage, getStoredReports, readReports, writeReports.
  rewrite Hget, Hset, Hsafe.
  destruct (item (localStorage w)); cbn; try rewrite Hget; try reflexivity.
  congruence.
Qed.

Lemma saveToLocalStorage_cache (report : ContextReport) (w : World) :
  let w1 := saveToLocalStorage report w in
  clock w1 = clock w /\
  cachedServerAvailable w1 = cachedServerAvailable w /\
  lastServerCheck w1 = lastServerCheck w.
Proof.
  unfold saveToLocalStorage.
  destruct (bind _ _); repeat split.
Qed.

(** C1, as the code has it.  For a report that [JSON.stringify]
    accepts, [logContextReport] returns with [success: true]; the method
    is ["console"] when the POST of the report gets no OK response in
    time, and when the health probe gets none and the cache holds no
    fresh "available"; and, whatever the transport did, when the
    [localStorage] read, parse and write succeed the stored history
    afterwards is the report followed by the previous history, cut to 20
    entries. *)
Theorem report_falls_back_to_console_and_is_kept :
  forall (server : Server) (report : ContextReport) (config : ReporterConfig)
         (w w' : World) (res : result Delivery),
    jsonSafe report = true ->
    logContextReport server report config w = (res, w') ->
    let endpoint := orDefault (serverUrl config) DEFAULT_SERVER_URL in
    let timeout := orDefault (serverTimeout config) 1000%Z in
    (exists m, res = Ok {| method := m; success := true |}) /\
    ((forall t, fetchSucceeds server (postRequest endpoint "/report")
                              timeout t = false) ->
     res = Ok {| method := ViaConsole; success := true |}) /\
    ((forall t, fetchSucceeds server (healthRequest endpoint)
                              timeout t = false) ->
     cacheSaysUp w = false ->
     res = Ok {| method := ViaConsole; success := true |}) /\
    (storageHealthy (localStorage w) ->
     getStoredReports w' = firstn 20 (report :: getStoredReports w)).
Proof.
  intros server report config w w' res Hsafe Hrun endpoint timeout.
  unfold logContextReport in Hrun.
  fold endpoint in Hrun. fold timeout in Hrun.
  pose proof (saveToLocalStorage_cache report w) as (Hclock & Hcache & Hlast).
  pose proof (saveToLocalStorage_history report w Hsafe) as Hhist.
  set (w1 := saveToLocalStorage report w) in *.
  assert (HsaysUp : cacheSaysUp w1 = cacheSaysUp w)
    by (unfold cacheSaysUp; rewrite Hclock, Hcache, Hlast; reflexivity).
  pose proof (checkServerAvailable_storage server endpoint timeout w1) as Hs2.
  pose proof (checkServerAvailable_up server endpoint timeout w1) as Hup.
  destruct (negb (orDefault (forceConsole config) false)).
  - destruct (checkServerAvailable server endpoint timeout w1)
      as [available w2]. cbn [fst snd] in *.
    destruct available.
    + pose proof (sendToServer_storage server "/report" report endpoint
                                       timeout w2) as Hs3.
      pose proof (sendToServer_sent server "/report" report endpoint
                                    timeout w2) as Hsent.
      destruct (sendToServer server "/report" report endpoint timeout w2)
        as [sent w3]. cbn [fst snd] in *.
      destruct sent.
      * inversion Hrun; subst res w'. repeat split.
        -- eexists; reflexivity.
        -- intros Hpost. rewrite Hpost in Hsent.
           specialize (Hsent eq_refl). discriminate.
        -- intros Hprobe Hcold. rewrite Hprobe, HsaysUp, Hcold in Hup.
           destruct (Hup eq_refl); discriminate.
        -- intros Hh. unfold getStoredReports in *. cbn [localStorage logLines].
           rewrite Hs3, Hs2. apply Hhist. exact Hh.
      * destruct (consoleFallback_safe report w3 Hsafe) as [Hr Hs4].
        destruct (consoleFallback report w3) as [r w4].
        cbn [fst snd] in *. inversion Hrun; subst. repeat split; auto.
        -- eexists; reflexivity.
        -- intros Hh. unfold getStoredReports in *.
           rewrite Hs4, Hs3, Hs2. apply Hhist. exact Hh.
    + destruct (consoleFallback_safe report w2 Hsafe) as [Hr Hs4].
      destruct (consoleFallback report w2) as [r w4].
      cbn [fst snd] in *. inversion Hrun; subst. repeat split; auto.
      * eexists; reflexivity.
      * intros Hh. unfold getStoredReports in *.
        rewrite Hs4, Hs2. apply Hhist. exact Hh.
  - destruct (consoleFallback_safe report w1 Hsafe) as [Hr Hs4].
    destruct (consoleFallback report w1) as [r w4].
    cbn [fst snd] in *. inversion Hrun; subst. repeat split; auto.
    + eexists; reflexivity.
    + intros Hh. unfold getStoredReports in *.
      rewrite Hs4. apply Hhist. exact Hh.
Qed.

Definition sampleReport : ContextReport :=
  {| id := "report-1700000000000-k3x9qa";
     url := "http://localhost:3000/cart";
     description := Some "Save button does nothing";
     selectedElement_tagName := "BUTTON";
     selectedElement_id := "save-btn";
     componentPath_names := ["App"; "Cart"; "SaveButton"];
     jsonSafe := true |}.

(** Nothing listens on the port. *)
Definition deadServer : Server := fun _ _ => ReplyAfter 3 ConnectionFails.

Definition emptyStorage : Storage :=
  {| item := NoItem; getItem_throws := false; setItem_throws := false |}.

Definition freshWorld : World :=
  {| clock := 0;
     cachedServerAvailable := None;
     lastServerCheck := 0;
     localStorage := emptyStorage;
     console := [];
     requests := [] |}.

Lemma report_falls_back_to_console_and_is_kept_witness :
  fst (logContextReport deadServer sampleReport emptyConfig freshWorld)
  = Ok {| method := ViaConsole; success := true |} /\
  getStoredReports
    (snd (logContextReport deadServer sampleReport emptyConfig freshWorld))
  = [sampleReport].
Proof.
  destruct (logContextReport deadServer sampleReport emptyConfig freshWorld)
    as [res w'] eqn:Hrun.
  destruct (report_falls_back_to_console_and_is_kept
              deadServer sampleReport emptyConfig freshWorld w' res
              eq_refl Hrun) as (_ & Hpost & _ & Hhist).
  cbn [fst snd]. split.
  - apply Hpost. intros t. reflexivity.
  - apply Hhist. repeat split. discriminate.
Defined.

(** A browser whose storage refuses writes (quota exceeded). *)
Definition fullStorage : Storage :=
  {| item := NoItem; getItem_throws := false; setItem_throws := true |}.

Definition fullStorageWorld : World :=
  {| clock := 0;
     cachedServerAvailable := None;
     lastServerCheck := 0;
     localStorage := fullStorage;
     console := [];
     requests := [] |}.

(** A report whose captured state holds a [BigInt]. *)
Definition bigintReport : ContextReport :=
  {| id := "report-1700000000001-b1g1nt";
     url := "http://localhost:3000/cart";
     description := None;
     selectedElement_tagName := "DIV";
     selectedElement_id := "";
     componentPath_names := ["App"];
     jsonSafe := false |}.

(** C1 as stated fails: with the endpoint down and the storage full, the
    call returns the console result and the history does not hold the
    report; and for a report that [JSON.stringify] rejects the console
    branch throws, with nothing stored either. *)
Lemma report_missing_from_history_when_storage_fails :
  fst (logContextReport deadServer sampleReport emptyConfig fullStorageWorld)
  = Ok {| method := ViaConsole; success := true |} /\
  ~ In sampleReport
       (getStoredReports
          (snd (logContextReport deadServer sampleReport emptyConfig
                                 fullStorageWorld))) /\
  fst (logContextReport deadServer bigintReport emptyConfig freshWorld)
  = Throw TypeError /\
  getStoredReports
    (snd (logContextReport deadServer bigintReport emptyConfig freshWorld))
  = [].
Proof.
  split; [reflexivity|]. split; [intros H; exact H|].
  split; reflexivity.
Qed.

(** *** The availability cache *)

Lemma checkServerAvailable_cached (server : Server) (serverUrl : string)
      (timeout : Z) (w : World) (cached : bool) :
  cachedServerAvailable w = Some cached ->
  (clock w - lastServerCheck w < SERVER_CHECK_INTERVAL)%Z ->
  checkServerAvailable server serverUrl timeout w = (cached, w).
Proof.
  intros Hc Hfresh. unfold checkServerAvailable. rewrite Hc.
  apply Z.ltb_lt in Hfresh. rewrite Hfresh. reflexivity.
Qed.




(** An endpoint that answers OK after 800 ms. *)
Definition slowServer : Server := fun _ _ => ReplyAfter 800 (Responds true).


(** *** The stored history over several reports *)

(** [clearStoredReports()].  [removeItem] fails when the storage cannot
    be accessed, as [getItem] does. *)
Definition clearStoredReports (w : World) : World :=
  if getItem_throws (localStorage w)
  then logLines w [Warn ["[ContextReporter] Failed to clear localStorage:"]]
  else setStorage w {| item := NoItem;
                       getItem_throws := getItem_throws (localStorage w);
                       setItem_throws := setItem_throws (localStorage w) |}.

(** [isServerAvailable(serverUrl, timeout)] *)
Definition isServerAvailable (server : Server) (serverUrl : option string)
           (timeout : option Z) (w : World) : bool * World :=
  checkServerAvailable server (orDefault serverUrl DEFAULT_SERVER_URL)
                       (orDefault timeout 1000%Z) w.

(** Saving the reports of [reports] one after the other. *)
Definition saveAll (reports : list ContextReport) (w : World) : World :=
  fold_left (fun w report => saveToLocalStorage report w) reports w.

Lemma firstn_app_firstn {A : Type} (n : nat) (a b : list A) :
  firstn n (a ++ firstn n b)%list = firstn n (a ++ b)%list.
Proof.
  rewrite !firstn_app, firstn_firstn. do 2 f_equal. lia.
Qed.

Lemma saveToLocalStorage_healthy (report : ContextReport) (w : World) :
  storageHealthy (localStorage w) ->
  storageHealthy (localStorage (saveToLocalStorage report w)).
Proof.
  intros (Hget & Hset & Hitem).
  unfold saveToLocalStorage, readReports, writeReports.
  rewrite Hget, Hset.
  destruct (item (localStorage w)) eqn:E; cbn [bind];
    try congruence;
    destruct (jsonSafe report); cbn;
    repeat split; auto; try congruence; try discriminate.
Qed.

Lemma saveAll_history (reports : list ContextReport) :
  Forall (fun report => jsonSafe report = true) reports ->
  forall (first : ContextReport) (w : World),
    jsonSafe first = true ->
    storageHealthy (localStorage w) ->
    getStoredReports (saveAll (first :: reports) w)
    = firstn 20 (rev (first :: reports) ++ getStoredReports w)%list.
Proof.
  induction 1 as [|report rest Hreport Hrest IH]; intros first w Hfirst Hw.
  - cbn [saveAll fold_left rev app].
    apply saveToLocalStorage_history; assumption.
  - change (saveAll (first :: report :: rest) w)
      with (saveAll (report :: rest) (saveToLocalStorage first w)).
    rewrite IH by (auto using saveToLocalStorage_healthy).
    rewrite saveToLocalStorage_history by assumption.
    rewrite firstn_app_firstn.
    change (rev (first :: report :: rest))
      with (rev (report :: rest) ++ [first])%list.
    rewrite <- app_assoc. reflexivity.
Qed.

Lemma clearStoredReports_empty (w : World) :
  getStoredReports (clearStoredReports w) = [].
Proof.
  unfold clearStoredReports, getStoredReports, readReports.
  destruct (getItem_throws (localStorage w)) eqn:E;
    cbn [localStorage logLines setStorage getItem_throws item];
    rewrite ?E; reflexivity.
Qed.

(** X14. After saving one report after the other into a healthy storage,
    the stored history is the saved reports, newest first, followed by the
    earlier history, cut to 20 entries; and [clearStoredReports] empties
    it. *)
Theorem history_keeps_the_newest_twenty :
  forall (reports : list ContextReport) (w : World),
    reports <> [] ->
    storageHealthy (localStorage w) ->
    Forall (fun report => jsonSafe report = true) reports ->
    getStoredReports (saveAll reports w)
    = firstn 20 (rev reports ++ getStoredReports w)%list /\
    length (getStoredReports (saveAll reports w)) <= 20 /\
    getStoredReports (clearStoredReports (saveAll reports w)) = [].
Proof.
  intros reports w Hne Hhealthy Hsafe.
  destruct reports as [|first rest]; [congruence|].
  inversion Hsafe as [|? ? Hfirst Hrest]; subst.
  rewrite (saveAll_history rest Hrest first w Hfirst Hhealthy).
  split; [reflexivity|]. split; [rewrite length_firstn; lia|].
  apply clearStoredReports_empty.
Qed.

Lemma history_keeps_the_newest_twenty_witness :
  repeat sampleReport 25 <> [] /\
  storageHealthy (localStorage freshWorld) /\
  Forall (fun report => jsonSafe report = true) (repeat sampleReport 25) /\
  length (getStoredReports (saveAll (repeat sampleReport 25) freshWorld))
  <= 20.
Proof.
  assert (Hne : repeat sampleReport 25 <> []) by discriminate.
  assert (Hhealthy : storageHealthy (localStorage freshWorld))
    by (repeat split; discriminate).
  assert (Hsafe : Forall (fun report => jsonSafe report = true)
                         (repeat sampleReport 25))
    by (apply Forall_forall; intros r Hr; apply repeat_spec in Hr;
        subst; reflexivity).
  split; [exact Hne|]. split; [exact Hhealthy|]. split; [exact Hsafe|].
  apply (history_keeps_the_newest_twenty
           (repeat sampleReport 25) freshWorld Hne Hhealthy Hsafe).
Defined.

(** *** Calls that stay off the network *)

Lemma consoleFallback_requests (report : ContextReport) (w : World) :
  requests (snd (consoleFallback report w)) = requests w /\
  cachedServerAvailable (snd (consoleFallback report w))
  = cachedServerAvailable w.
Proof. unfold consoleFallback. destruct (jsonSafe report); split; reflexivity. Qed.

Lemma saveToLocalStorage_requests (report : ContextReport) (w : World) :
  requests (saveToLocalStorage report w) = requests w.
Proof. unfold saveToLocalStorage. destruct (bind _ _); reflexivity. Qed.

(** X15. With [forceConsole], or while the cache holds an "unavailable"
    answer younger than 5 s, [logContextReport] delivers through the
    console without issuing any request and leaves the cache as it is. *)
Theorem console_delivery_without_network :
  forall (server : Server) (report : ContextReport) (config : ReporterConfig)
         (w : World),
    jsonSafe report = true ->
    forceConsole config = Some true \/
    (cachedServerAvailable w = Some false /\
     (clock w - lastServerCheck w < SERVER_CHECK_INTERVAL)%Z) ->
    fst (logContextReport server report config w)
    = Ok {| method := ViaConsole; success := true |} /\
    requests (snd (logContextReport server report config w)) = requests w /\
    cachedServerAvailable (snd (logContextReport server report config w))
    = cachedServerAvailable w.
Proof.
  intros server report config w Hsafe Hoff.
  unfold logContextReport.
  pose proof (saveToLocalStorage_cache report w) as (Hclock & Hcache & Hlast).
  pose proof (saveToLocalStorage_requests report w) as Hreq.
  set (w1 := saveToLocalStorage report w) in *.
  destruct (consoleFallback_safe report w1 Hsafe) as [Hres _].
  destruct (consoleFallback_requests report w1) as [Hreq' Hcache'].
  destruct (negb (orDefault (forceConsole config) false)) eqn:Hforce.
  - destruct Hoff as [Hf|[Hdown Hfresh]];
      [rewrite Hf in Hforce; discriminate|].
    rewrite (checkServerAvailable_cached server _ _ w1 false)
      by (rewrite ?Hcache, ?Hclock, ?Hlast; assumption).
    rewrite Hres, Hreq', Hcache', Hreq, Hcache. repeat split.
  - rewrite Hres, Hreq', Hcache', Hreq, Hcache. repeat split.
Qed.

Definition downWorld : World :=
  {| clock := 7000;
     cachedServerAvailable := Some false;
     lastServerCheck := 3000;
     localStorage := emptyStorage;
     console := [];
     requests := [healthRequest DEFAULT_SERVER_URL] |}.

Lemma console_delivery_without_network_witness :
  (cachedServerAvailable downWorld = Some false /\
   (clock downWorld - lastServerCheck downWorld < SERVER_CHECK_INTERVAL)%Z) /\
  fst (logContextReport slowServer sampleReport emptyConfig downWorld)
  = Ok {| method := ViaConsole; success := true |} /\
  requests (snd (logContextReport slowServer sampleReport emptyConfig
                                  downWorld))
  = [healthRequest DEFAULT_SERVER_URL].
Proof.
  assert (Hdown : cachedServerAvailable downWorld = Some false /\
                  (clock downWorld - lastServerCheck downWorld
                   < SERVER_CHECK_INTERVAL)%Z)
    by (split; [reflexivity | vm_compute; reflexivity]).
  split; [exact Hdown|].
  destruct (console_delivery_without_network
              slowServer sampleReport emptyConfig downWorld eq_refl
              (or_intror Hdown)) as (Hres & Hreq & _).
  split; [exact Hres | exact Hreq].
Defined.

(** X16. After [clearServerCache], [isServerAvailable] issues one health
    probe whatever the cache held, answers whether that probe got an OK
    response in time, and caches the answer. *)
Theorem clearing_the_cache_forces_a_probe :
  forall (server : Server) (serverUrl : option string) (timeout : option Z)
         (w : World),
    let checked := isServerAvailable server serverUrl timeout
                                     (clearServerCache w) in
    requests (snd checked)
    = (requests w
       ++ [healthRequest (orDefault serverUrl DEFAULT_SERVER_URL)])%list /\
    fst checked
    = fetchSucceeds server
        (healthRequest (orDefault serverUrl DEFAULT_SERVER_URL))
        (orDefault timeout 1000%Z) (clock w) /\
    cachedServerAvailable (snd checked) = Some (fst checked).
Proof.
  intros server serverUrl timeout w. cbn zeta.
  unfold isServerAvailable, checkServerAvailable, clearServerCache.
  cbn [cachedServerAvailable clock].
  unfold fetchWithTimeout, fetchSucceeds. cbn [clock].
  destruct (server _ (clock w)) as [|latency [ok|]];
    try destruct (latency <? orDefault timeout 1000)%Z;
    try destruct ok; repeat split.
Qed.

(** X17. While the cache holds an "available" answer younger than 5 s,
    [logContextReport] issues exactly one request, the POST of the report,
    and no probe; the method is ["server"] exactly when that POST gets an OK
    response in time; and a failed POST leaves the cached answer and its
    date untouched. *)
Theorem fresh_available_cache_posts_without_probing :
  forall (server : Server) (report : ContextReport) (config : ReporterConfig)
         (w : World),
    jsonSafe report = true ->
    orDefault (forceConsole config) false = false ->
    cacheSaysUp w = true ->
    let endpoint := orDefault (serverUrl config) DEFAULT_SERVER_URL in
    let timeout := orDefault (serverTimeout config) 1000%Z in
    let after := logContextReport server report config w in
    requests (snd after)
    = (requests w ++ [postRequest endpoint "/report"])%list /\
    fst after
    = Ok {| method :=
              if fetchSucceeds server (postRequest endpoint "/report")
                               timeout (clock w)
              then ViaServer else ViaConsole;
            success := true |} /\
    cachedServerAvailable (snd after) = Some true /\
    lastServerCheck (snd after) = lastServerCheck w.
Proof.
  intros server report config w Hsafe Hforce Hup. cbn zeta.
  unfold logContextReport. rewrite Hforce. cbn [negb].
  pose proof (saveToLocalStorage_cache report w) as (Hclock & Hcache & Hlast).
  pose proof (saveToLocalStorage_requests report w) as Hreq.
  set (w1 := saveToLocalStorage report w) in *.
  unfold cacheSaysUp in Hup.
  destruct (cachedServerAvailable w) as [[|]|] eqn:Hc; try discriminate.
  apply Z.ltb_lt in Hup.
  rewrite (checkServerAvailable_cached server _ _ w1 true)
    by (rewrite ?Hcache, ?Hclock, ?Hlast; auto).
  unfold sendToServer. rewrite Hsafe.
  unfold fetchWithTimeout, fetchSucceeds, consoleFallback.
  rewrite Hclock, Hsafe.
  destruct (server _ (clock w)) as [|latency [ok|]];
    try destruct (latency <? _)%Z; try destruct ok;
    cbn [fst snd requests logLines elapse setClock recordRequest
         cachedServerAvailable lastServerCheck];
    rewrite Hreq, Hcache, Hlast; repeat split.
Qed.

Definition upWorld : World :=
  {| clock := 7000;
     cachedServerAvailable := Some true;
     lastServerCheck := 3000;
     localStorage := emptyStorage;
     console := [];
     requests := [] |}.

Lemma fresh_available_cache_posts_without_probing_witness :
  cacheSaysUp upWorld = true /\
  requests (snd (logContextReport deadServer sampleReport emptyConfig upWorld))
  = [postRequest DEFAULT_SERVER_URL "/report"] /\
  fst (logContextReport deadServer sampleReport emptyConfig upWorld)
  = Ok {| method := ViaConsole; success := true |} /\
  cachedServerAvailable
    (snd (logContextReport deadServer sampleReport emptyConfig upWorld))
  = Some true.
Proof.
  split; [reflexivity|].
  destruct (fresh_available_cache_posts_without_probing
              deadServer sampleReport emptyConfig upWorld
              eq_refl eq_refl eq_refl) as (Hreq & Hres & Hcache & _).
  split; [exact Hreq|]. split; [exact Hres | exact Hcache].
Defined.

End Reporter.

(** * React fibers, as attached to DOM elements *)

Module Fiber.

(** A Proxy: its traps forward to the target unless they throw. *)
Record ProxyTraps : Type := mkTraps {
  get_throws : bool;
  has_throws : bool;
  ownKeys_throws : bool
}.

(** A value held in a prop or in a hook cell: an ordinary value, or a
    Proxy around one. *)
Inductive HostValue : Type :=
| Plain (v : JsValue)
| Proxied (target : JsValue) (traps : ProxyTraps).

(** [fiber.type] *)
Inductive FiberType : Type :=
| TypeNull
| TypeString (hostTag : string)
| TypeObject (name : option string) (displayName : option string).

Record DebugSource : Type := mkDebugSource {
  fileName : string;
  lineNumber : Z;
  columnNumber : option Z
}.

(** A fiber.  [memoizedProps] lists the own enumerable keys with the
    outcome of reading each; [memoizedState] is the linked list of hook
    cells, each given by its [memoizedState] value. *)
Inductive FiberNode : Type := mkFiber {
  tag : Z;
  type : FiberType;
  return_ : option FiberNode;
  memoizedProps : option (list (string * result HostValue));
  memoizedState : list HostValue;
  _debugSource : option DebugSource
}.

End Fiber.

(** * Identity extractor (src/utils/dom-utils.ts) *)

Module DomUtils.

(** [element.className]: a string on HTML elements, an object on SVG
    ones. *)
Inductive ClassName : Type :=
| ClassString (s : string)
| ClassObject.

Record DOMRect : Type := mkRect {
  rect_x : Q;
  rect_y : Q;
  rect_width : Q;
  rect_height : Q
}.

(** An element, given by what each DOM read on it yields: a value, or
    the exception it throws (as the brand-checked accessors of a
    Proxy-backed element do).  [parentElement], [children] and the
    siblings are the elements the walk reaches from here.  [expando]
    lists the own enumerable properties ([Object.keys(element)]) with
    the fiber each holds. *)
Inductive Element : Type := mkElement {
  nodeId : nat;
  isHTMLElement : bool;
  isDocumentBody : bool;
  tagName : result string;
  id : result string;
  className : result ClassName;
  textContent : result (option string);
  innerHTML : result string;
  attributes : result (list (string * string));
  getAttribute : string -> result (option string);
  getBoundingClientRect : result DOMRect;
  getComputedStyle : result (string -> string);
  parentElement : result (option Element);
  children : result (list Element);
  previousElementSibling : result (option Element);
  nextElementSibling : result (option Element);
  expando : list (string * option Fiber.FiberNode)
}.

(** The snapshot types of src/types. *)
Module Info.

Record BoundingRect : Type := mkBoundingRect {
  x : Z;
  y : Z;
  width : Z;
  height : Z
}.

Record ParentInfo : Type := mkParentInfo {
  parent_tagName : string;
  parent_id : string;
  parent_className : string;
  htmlPreview : string
}.

Record DOMContext : Type := mkDOMContext {
  parents : list ParentInfo;
  previousSibling : option string;
  nextSibling : option string;
  childCount : nat;
  innerHTML : string
}.

Record Accessibility : Type := mkAccessibility {
  role : option string;
  ariaLabel : option string;
  ariaDescribedBy : option string;
  ariaDisabled : option string;
  tabIndex : option string
}.

Record ElementInfo : Type := mkElementInfo {
  tagName : string;
  id : string;
  className : string;
  textContent : string;
  attributes : list (string * string);
  boundingRect : BoundingRect;
  selector : string;
  computedStyles : list (string * string);
  domContext : DOMContext;
  accessibility : Accessibility
}.

End Info.

Local Open Scope js_scope.

(** A [string | null] that is truthy. *)
Definition truthyString (o : option string) : option string :=
  match o with
  | Some s => if String.eqb s "" then None else Some s
  | None => None
  end.

(** [Math.round] *)
Definition Math_round (q : Q) : Z := Qfloor (q + (1 # 2))%Q.

Definition DEFAULT_STYLES : list (string * string) :=
  [ ("display", "block"); ("position", "static"); ("visibility", "visible");
    ("opacity", "1"); ("cursor", "auto"); ("pointerEvents", "auto");
    ("overflow", "visible"); ("zIndex", "auto") ].

Definition STYLE_PROPERTIES : list string :=
  [ "display"; "position"; "visibility"; "opacity"; "width"; "height";
    "padding"; "margin"; "border"; "backgroundColor"; "color"; "fontSize";
    "fontWeight"; "cursor"; "pointerEvents"; "overflow"; "zIndex" ].

(** The tests of the loop body of [extractComputedStyles] that end in
    [continue]. *)
Definition skipStyle (prop value : string) : bool :=
  match obj_get DEFAULT_STYLES prop with
  | Some defaultValue => String.eqb value defaultValue
  | None => false
  end
  || (String.eqb prop "border" && JsString.includes "none" value)
  || (String.eqb prop "backgroundColor"
      && (String.eqb value "transparent"
          || String.eqb value "rgba(0, 0, 0, 0)"))
  || ((String.eqb prop "padding" || String.eqb prop "margin")
      && String.eqb value "0px").

Definition extractComputedStyles (element : Element)
  : result (list (string * string)) :=
  computed <- getComputedStyle element ;;
  Ok (fold_left
        (fun styles prop =>
           let kebabProp :=
             JsString.toLowerCase (JsString.dashBeforeUpper prop) in
           let value := computed kebabProp in
           if skipStyle prop value then styles
           else obj_set styles prop value)
        STYLE_PROPERTIES []).

Definition UTILITY_PREFIXES : list string :=
  [ "flex"; "grid"; "block"; "inline"; "hidden"; "p-"; "m-"; "w-"; "h-";
    "text-"; "bg-"; "border-"; "rounded"; "items-"; "justify-"; "gap-";
    "space-" ].

(** The filter callback of [generateUniqueSelector]. *)
Definition isMeaningfulClass (c : string) : bool :=
  if String.eqb c "" then false
  else if existsb (fun p => JsString.startsWith p c) UTILITY_PREFIXES
       then false
  else if (String.length c <? 3)%nat then false
  else if JsString.startsWith "_" c then false
  else true.

Definition space : ascii := ascii_of_nat 32.

(** [array.filter(pred)] with a predicate that reads the DOM. *)
Fixpoint filterR {A : Type} (pred : A -> result bool) (l : list A)
  : result (list A) :=
  match l with
  | [] => Ok []
  | a :: rest =>
      keep <- pred a ;;
      kept <- filterR pred rest ;;
      Ok (if keep then a :: kept else kept)
  end.

(** [siblings.indexOf(element)], by node identity. *)
Fixpoint indexOfNode (l : list Element) (target : nat) (from : Z) : Z :=
  match l with
  | [] => (-1)%Z
  | e :: rest =>
      if (nodeId e =? target)%nat then from
      else indexOfNode rest target (from + 1)%Z
  end.

Definition classSelector (tag : string) (cn : ClassName) : string :=
  match cn with
  | ClassString s =>
      if String.eqb s "" then tag
      else
        let meaningfulClasses :=
          firstn 2 (filter isMeaningfulClass (JsString.split space s)) in
        if (0 <? length meaningfulClasses)%nat
        then tag ++ "." ++ JsString.join "." meaningfulClasses
        else tag
  | ClassObject => tag
  end.

Definition generateUniqueSelector (element : Element) : result string :=
  testId <- getAttribute element "data-testid" ;;
  match truthyString testId with
  | Some t => Ok ("[data-testid=" ++ JsString.dq ++ t ++ JsString.dq ++ "]")
  | None =>
    elementId <- id element ;;
    if negb (String.eqb elementId "") then Ok ("#" ++ elementId)
    else
      componentAttr <- getAttribute element "data-component" ;;
      match truthyString componentAttr with
      | Some c =>
          Ok ("[data-component=" ++ JsString.dq ++ c ++ JsString.dq ++ "]")
      | None =>
        elementTag <- tagName element ;;
        let tag := JsString.toLowerCase elementTag in
        cn <- className element ;;
        let selector := classSelector tag cn in
        parent <- parentElement element ;;
        match parent with
        | None => Ok selector
        | Some parent =>
            kids <- children parent ;;
            siblings <-
              filterR (fun child =>
                         childTag <- tagName child ;;
                         Ok (String.eqb childTag elementTag)) kids ;;
            let selector :=
              if (1 <? length siblings)%nat then
                let index :=
                  (indexOfNode siblings (nodeId element) 0 + 1)%Z in
                selector ++ ":nth-of-type(" ++ JsString.of_Z index ++ ")"
              else selector in
            parentId <- id parent ;;
            parentHint <-
              (if negb (String.eqb parentId "")
               then Ok ("#" ++ parentId ++ " > ")
               else
                 parentTestId <- getAttribute parent "data-testid" ;;
                 match truthyString parentTestId with
                 | Some t =>
                     Ok ("[data-testid=" ++ JsString.dq ++ t ++ JsString.dq
                         ++ "] > ")
                 | None => Ok ""
                 end) ;;
            Ok (if negb (String.eqb parentHint "")
                then parentHint ++ selector else selector)
        end
      end
  end.

(** [array.find(pred)] *)
Definition findFirst (pred : string -> bool) (l : list string)
  : option string := List.find pred l.

Definition getElementSummary (element : option Element)
  : result (option string) :=
  match element with
  | None => Ok None
  | Some element =>
    if negb (isHTMLElement element) then Ok None
    else
      elementTag <- tagName element ;;
      let tag := JsString.toLowerCase elementTag in
      elementId <- id element ;;
      let idStr := if String.eqb elementId "" then "" else "#" ++ elementId in
      testId <- getAttribute element "data-testid" ;;
      let testIdStr :=
        match truthyString testId with
        | Some t => "[data-testid=" ++ JsString.dq ++ t ++ JsString.dq ++ "]"
        | None => ""
        end in
      classStr <-
        (if String.eqb idStr "" && String.eqb testIdStr "" then
           cn <- className element ;;
           match cn with
           | ClassString s =>
               match findFirst
                       (fun c => negb (String.eqb c "")
                                 && (2 <? String.length c)%nat
                                 && negb (JsString.startsWith "_" c))
                       (JsString.split space s) with
               | Some firstClass => Ok ("." ++ firstClass)
               | None => Ok ""
               end
           | ClassObject => Ok ""
           end
         else Ok "") ;;
      content <- textContent element ;;
      let text :=
        match content with
        | Some t => JsString.slice (JsString.trim t) 0 20
        | None => ""
        end in
      Ok (Some
            ("<" ++ tag ++ idStr ++ testIdStr ++ classStr ++ ">" ++
             (if String.eqb text "" then ""
              else " " ++ JsString.dq ++ text ++
                   (if (20 <=? String.length text)%nat then "..." else "")
                   ++ JsString.dq)))
  end.

Definition getHtmlPreview (element : Element) : result string :=
  elementTag <- tagName element ;;
  let tag := JsString.toLowerCase elementTag in
  elementId <- id element ;;
  let idAttr :=
    if String.eqb elementId "" then ""
    else " id=" ++ JsString.dq ++ elementId ++ JsString.dq in
  testId <- getAttribute element "data-testid" ;;
  let testIdAttr :=
    match truthyString testId with
    | Some t => " data-testid=" ++ JsString.dq ++ t ++ JsString.dq
    | None => ""
    end in
  cn <- className element ;;
  let classAttr :=
    match cn with
    | ClassString s =>
        if String.eqb s "" then ""
        else
          let classes :=
            JsString.join " "
              (firstn 3 (filter (fun c => negb (String.eqb c ""))
                                (JsString.split space s))) in
          if String.eqb classes "" then ""
          else " class=" ++ JsString.dq ++ classes ++
               (if (3 <? length (JsString.split space s))%nat
                then " ..." else "")
               ++ JsString.dq
    | ClassObject => ""
    end in
  Ok ("<" ++ tag ++ idAttr ++ testIdAttr ++ classAttr ++ ">").

(** The [while (parent && parent !== document.body && depth < 3)] loop;
    [remaining] is [3 - depth]. *)
Fixpoint collectParents (remaining : nat) (parent : option Element)
  : result (list Info.ParentInfo) :=
  match remaining with
  | O => Ok []
  | S remaining' =>
      match parent with
      | None => Ok []
      | Some p =>
          if isDocumentBody p then Ok []
          else
            parentTag <- tagName p ;;
            parentId <- id p ;;
            cn <- className p ;;
            preview <- getHtmlPreview p ;;
            next <- parentElement p ;;
            rest <- collectParents remaining' next ;;
            Ok ({| Info.parent_tagName := parentTag;
                   Info.parent_id := parentId;
                   Info.parent_className :=
                     match cn with
                     | ClassString s =>
                         JsString.join " "
                           (firstn 3 (JsString.split space s))
                     | ClassObject => ""
                     end;
                   Info.htmlPreview := preview |} :: rest)
      end
  end.

Definition extractDOMContext (element : Element) : result Info.DOMContext :=
  parent <- parentElement element ;;
  parents <- collectParents 3 parent ;;
  previous <- previousElementSibling element ;;
  previousSibling <- getElementSummary previous ;;
  next <- nextElementSibling element ;;
  nextSibling <- getElementSummary next ;;
  kids <- children element ;;
  html <- innerHTML element ;;
  let trimmed := JsString.trim html in
  Ok {| Info.parents := parents;
        Info.previousSibling := previousSibling;
        Info.nextSibling := nextSibling;
        Info.childCount := length kids;
        Info.innerHTML :=
          if (300 <? String.length trimmed)%nat
          then JsString.slice trimmed 0 300 ++ "..."
          else trimmed |}.

Definition extractAccessibility (element : Element)
  : result Info.Accessibility :=
  role <- getAttribute element "role" ;;
  ariaLabel <- getAttribute element "aria-label" ;;
  ariaDescribedBy <- getAttribute element "aria-describedby" ;;
  ariaDisabled <- getAttribute element "aria-disabled" ;;
  tabIndex <- getAttribute element "tabindex" ;;
  Ok {| Info.role := role;
        Info.ariaLabel := ariaLabel;
        Info.ariaDescribedBy := ariaDescribedBy;
        Info.ariaDisabled := ariaDisabled;
        Info.tabIndex := tabIndex |}.

(** The attribute loop of [extractElementInfo]. *)
Definition collectAttributes (attrs : list (string * string))
  : list (string * string) :=
  fold_left
    (fun attributes attr =>
       let '(attrName, attrValue) := attr in
       if existsb (String.eqb attrName) ["id"; "class"; "style"]
       then attributes
       else if (200 <? String.length attrValue)%nat
            then obj_set attributes attrName
                           (JsString.slice attrValue 0 200 ++ "...")
            else obj_set attributes attrName attrValue)
    attrs [].

Definition extractElementInfo (element : Element) : result Info.ElementInfo :=
  rect <- getBoundingClientRect element ;;
  attrs <- attributes element ;;
  let attributes := collectAttributes attrs in
  content <- textContent element ;;
  let trimmed :=
    match content with
    | Some t => JsString.trim t
    | None => ""
    end in
  let textContent :=
    if (150 <? String.length trimmed)%nat
    then JsString.slice trimmed 0 150 ++ "..."
    else trimmed in
  elementTag <- tagName element ;;
  elementId <- id element ;;
  cn <- className element ;;
  selector <- generateUniqueSelector element ;;
  computedStyles <- extractComputedStyles element ;;
  domContext <- extractDOMContext element ;;
  accessibility <- extractAccessibility element ;;
  Ok {| Info.tagName := elementTag;
        Info.id := elementId;
        Info.className :=
          match cn with
          | ClassString s => s
          | ClassObject => ""
          end;
        Info.textContent := textContent;
        Info.attributes := attributes;
        Info.boundingRect :=
          {| Info.x := Math_round (rect_x rect);
             Info.y := Math_round (rect_y rect);
             Info.width := Math_round (rect_width rect);
             Info.height := Math_round (rect_height rect) |};
        Info.selector := selector;
        Info.computedStyles := computedStyles;
        Info.domContext := domContext;
        Info.accessibility := accessibility |}.

(** *** Elements whose DOM reads return *)

(** The reads on the element itself return. *)
Definition ownReadsReturn (e : Element) : Prop :=
  returns (tagName e) /\ returns (id e) /\ returns (className e) /\
  returns (textContent e) /\ returns (innerHTML e) /\
  returns (attributes e) /\ (forall name, returns (getAttribute e name)) /\
  returns (getBoundingClientRect e) /\ returns (getComputedStyle e).

(** Every read on the element and on the elements reached from it
    returns: an ordinary element, attached or not. *)
Fixpoint readable (e : Element) : Prop :=
  ownReadsReturn e /\
  match parentElement e with
  | Ok (Some p) => readable p
  | Ok None => True
  | Throw _ => False
  end /\
  match children e with
  | Ok kids =>
      (fix all (l : list Element) : Prop :=
         match l with
         | [] => True
         | kid :: rest => readable kid /\ all rest
         end) kids
  | Throw _ => False
  end /\
  match previousElementSibling e with
  | Ok (Some sibling) => readable sibling
  | Ok None => True
  | Throw _ => False
  end /\
  match nextElementSibling e with
  | Ok (Some sibling) => readable sibling
  | Ok None => True
  | Throw _ => False
  end.

Definition relativeReadable (r : result (option Element)) : Prop :=
  match r with
  | Ok (Some p) => readable p
  | Ok None => True
  | Throw _ => False
  end.

Definition kidsReadable (r : result (list Element)) : Prop :=
  match r with
  | Ok kids => Forall readable kids
  | Throw _ => False
  end.

Lemma readable_unfold (e : Element) :
  readable e <->
  ownReadsReturn e /\ relativeReadable (parentElement e) /\
  kidsReadable (children e) /\
  relativeReadable (previousElementSibling e) /\
  relativeReadable (nextElementSibling e).
Proof.
  assert (Hall : forall l,
             (fix all (l : list Element) : Prop :=
                match l with
                | [] => True
                | kid :: rest => readable kid /\ all rest
                end) l <-> Forall readable l).
  { induction l as [|k r IH]; split; intros H.
    - constructor.
    - exact I.
    - destruct H as [Hk Hr]. constructor; [exact Hk | apply IH; exact Hr].
    - inversion H; subst. split; [assumption | apply IH; assumption]. }
  destruct e. cbn [readable parentElement children previousElementSibling
                   nextElementSibling relativeReadable kidsReadable].
  unfold relativeReadable, kidsReadable.
  destruct children0 as [kids|err]; [rewrite Hall|]; tauto.
Qed.

(** Steps through a chain of binds whose reads are known to return. *)
Ltac step_returns :=
  repeat (first
    [ apply returns_Ok
    | apply returns_bind; [solve [auto] | intros ? ?] ]).

Lemma filterR_returns {A : Type} (pred : A -> result bool) (l : list A) :
  Forall (fun a => returns (pred a)) l -> returns (filterR pred l).
Proof.
  induction 1 as [|a rest Ha Hrest IH]; cbn [filterR]; [apply returns_Ok|].
  apply returns_bind; [exact Ha|]. intros keep _.
  apply returns_bind; [exact IH|]. intros kept _. apply returns_Ok.
Qed.

Lemma getHtmlPreview_returns (e : Element) :
  ownReadsReturn e -> returns (getHtmlPreview e).
Proof.
  intros (Htag & Hid & Hcn & _ & _ & _ & Hattr & _).
  unfold getHtmlPreview. step_returns.
Qed.

Lemma collectParents_returns (remaining : nat) :
  forall parent,
    relativeReadable (Ok parent) -> returns (collectParents remaining parent).
Proof.
  induction remaining as [|n IH]; intros parent Hp; cbn [collectParents];
    [apply returns_Ok|].
  destruct parent as [p|]; [|apply returns_Ok].
  destruct (isDocumentBody p); [apply returns_Ok|].
  cbn [relativeReadable] in Hp. apply readable_unfold in Hp.
  destruct Hp as (Hown & Hparent & _).
  pose proof (getHtmlPreview_returns p Hown) as Hpreview.
  destruct Hown as (Htag & Hid & Hcn & _).
  apply returns_bind; [exact Htag|]; intros ? _.
  apply returns_bind; [exact Hid|]; intros ? _.
  apply returns_bind; [exact Hcn|]; intros ? _.
  apply returns_bind; [exact Hpreview|]; intros ? _.
  destruct (parentElement p) as [next|err]; [|destruct Hparent].
  cbn [bind].
  apply returns_bind; [apply IH; exact Hparent|]; intros ? _.
  apply returns_Ok.
Qed.

Lemma getElementSummary_returns (element : option Element) :
  relativeReadable (Ok element) -> returns (getElementSummary element).
Proof.
  destruct element as [e|]; cbn [relativeReadable getElementSummary];
    [|intros _; apply returns_Ok].
  intros He. apply readable_unfold in He.
  destruct He as ((Htag & Hid & Hcn & Htext & _ & _ & Hattr & _) & _).
  destruct (negb (isHTMLElement e)); [apply returns_Ok|].
  apply returns_bind; [exact Htag|]; intros ? _.
  apply returns_bind; [exact Hid|]; intros ? _.
  apply returns_bind; [apply Hattr|]; intros ? _.
  apply returns_bind.
  - match goal with
    | |- returns (if ?c then _ else _) => destruct c
    end; [|apply returns_Ok].
    apply returns_bind; [exact Hcn|]; intros cn _.
    destruct cn as [cls|]; [|apply returns_Ok].
    destruct (findFirst _ _); apply returns_Ok.
  - intros ? _. apply returns_bind; [exact Htext|]; intros ? _.
    apply returns_Ok.
Qed.

Lemma generateUniqueSelector_returns (e : Element) :
  readable e -> returns (generateUniqueSelector e).
Proof.
  intros He. apply readable_unfold in He.
  destruct He as ((Htag & Hid & Hcn & _ & _ & _ & Hattr & _) & Hparent & _).
  unfold generateUniqueSelector.
  apply returns_bind; [apply Hattr|]; intros testId _.
  destruct (truthyString testId); [apply returns_Ok|].
  apply returns_bind; [exact Hid|]; intros elementId _.
  destruct (negb (String.eqb elementId "")); [apply returns_Ok|].
  apply returns_bind; [apply Hattr|]; intros componentAttr _.
  destruct (truthyString componentAttr); [apply returns_Ok|].
  apply returns_bind; [exact Htag|]; intros elementTag _.
  apply returns_bind; [exact Hcn|]; intros cn _.
  destruct (parentElement e) as [[p|]|err]; cbn [bind relativeReadable] in *;
    [|apply returns_Ok|destruct Hparent].
  apply readable_unfold in Hparent.
  destruct Hparent as ((_ & Hpid & _ & _ & _ & _ & Hpattr & _) & _ & Hkids & _).
  destruct (children p) as [kids|err]; [|destruct Hkids].
  cbn [bind kidsReadable] in *.
  apply returns_bind.
  - apply filterR_returns. eapply Forall_impl; [|exact Hkids].
    intros kid Hkid. apply readable_unfold in Hkid.
    destruct Hkid as ((Hkt & _) & _).
    apply returns_bind; [exact Hkt|]; intros ? _. apply returns_Ok.
  - intros siblings _.
    apply returns_bind; [exact Hpid|]; intros parentId _.
    apply returns_bind.
    + destruct (negb (String.eqb parentId "")); [apply returns_Ok|].
      apply returns_bind; [apply Hpattr|]; intros parentTestId _.
      destruct (truthyString parentTestId); apply returns_Ok.
    + intros ? _. apply returns_Ok.
Qed.

Lemma extractDOMContext_returns (e : Element) :
  readable e -> returns (extractDOMContext e).
Proof.
  intros He. apply readable_unfold in He.
  destruct He as ((_ & _ & _ & _ & Hhtml & _) & Hparent & Hkids & Hprev & Hnext).
  unfold extractDOMContext.
  destruct (parentElement e) as [parent|err]; [|destruct Hparent].
  cbn [bind].
  apply returns_bind; [apply collectParents_returns; exact Hparent|];
    intros ? _.
  destruct (previousElementSibling e) as [prev|err]; [|destruct Hprev].
  cbn [bind].
  apply returns_bind; [apply getElementSummary_returns; exact Hprev|];
    intros ? _.
  destruct (nextElementSibling e) as [next|err]; [|destruct Hnext].
  cbn [bind].
  apply returns_bind; [apply getElementSummary_returns; exact Hnext|];
    intros ? _.
  destruct (children e) as [kids|err]; [|destruct Hkids].
  cbn [bind].
  apply returns_bind; [exact Hhtml|]; intros ? _. apply returns_Ok.
Qed.

Lemma extractElementInfo_returns (e : Element) :
  readable e -> returns (extractElementInfo e).
Proof.
  intros He.
  pose proof (generateUniqueSelector_returns e He) as Hsel.
  pose proof (extractDOMContext_returns e He) as Hctx.
  apply readable_unfold in He.
  destruct He as ((Htag & Hid & Hcn & Htext & _ & Hattrs & Hattr & Hrect
                   & Hstyle) & _).
  unfold extractElementInfo.
  apply returns_bind; [exact Hrect|]; intros ? _.
  apply returns_bind; [exact Hattrs|]; intros ? _.
  apply returns_bind; [exact Htext|]; intros ? _.
  apply returns_bind; [exact Htag|]; intros ? _.
  apply returns_bind; [exact Hid|]; intros ? _.
  apply returns_bind; [exact Hcn|]; intros ? _.
  apply returns_bind; [exact Hsel|]; intros ? _.
  apply returns_bind.
  { unfold extractComputedStyles.
    apply returns_bind; [exact Hstyle|]; intros ? _. apply returns_Ok. }
  intros ? _.
  apply returns_bind; [exact Hctx|]; intros ? _.
  apply returns_bind.
  { unfold extractAccessibility.
    repeat (apply returns_bind; [apply Hattr|]; intros ? _).
    apply returns_Ok. }
  intros ? _. apply returns_Ok.
Qed.

(** *** Bounds of a snapshot *)

(** Inversion of a chain of binds that returned. *)
Ltac bind_inv H :=
  repeat
    (let a := fresh "a" in
     let Ha := fresh "Ha" in
     apply bind_Ok_inv in H; destruct H as (a & Ha & H)).

Definition withinLimits (info : Info.ElementInfo) : Prop :=
  (String.length (Info.textContent info) <= 150 + 3)%nat /\
  Forall (fun attr => (String.length (snd attr) <= 200 + 3)%nat)
         (Info.attributes info) /\
  (String.length (Info.innerHTML (Info.domContext info)) <= 300 + 3)%nat /\
  (length (Info.parents (Info.domContext info)) <= 3)%nat /\
  (length (Info.computedStyles info) <= length STYLE_PROPERTIES)%nat.

Lemma truncate_length (s : string) (limit : nat) :
  (String.length
     (if (limit <? String.length s)%nat
      then JsString.slice s 0 limit ++ "..." else s) <= limit + 3)%nat.
Proof.
  destruct (Nat.ltb_spec limit (String.length s)) as [Hlong|Hshort].
  - rewrite JsString.length_append.
    pose proof (JsString.length_slice_le s 0 limit). cbn [String.length]. lia.
  - lia.
Qed.

Lemma collectAttributes_bounded (attrs : list (string * string)) :
  Forall (fun attr => (String.length (snd attr) <= 200 + 3)%nat)
         (collectAttributes attrs).
Proof.
  unfold collectAttributes.
  assert (Hgen : forall acc,
             Forall (fun attr => (String.length (snd attr) <= 200 + 3)%nat) acc ->
             Forall (fun attr => (String.length (snd attr) <= 200 + 3)%nat)
                    (fold_left
                       (fun attributes attr =>
                          let '(attrName, attrValue) := attr in
                          if existsb (String.eqb attrName) ["id"; "class"; "style"]
                          then attributes
                          else if (200 <? String.length attrValue)%nat
                               then obj_set attributes attrName
                                      (JsString.slice attrValue 0 200 ++ "...")
                               else obj_set attributes attrName attrValue)
                       attrs acc)).
  { induction attrs as [|[n v] rest IH]; intros acc Hacc; [exact Hacc|].
    cbn [fold_left]. apply IH.
    destruct (existsb (String.eqb n) ["id"; "class"; "style"]); [exact Hacc|].
    pose proof (truncate_length v 200) as Hlen.
    destruct (200 <? String.length v)%nat;
      apply obj_set_Forall; auto. }
  apply Hgen. constructor.
Qed.

Lemma collectParents_length (remaining : nat) :
  forall parent parents,
    collectParents remaining parent = Ok parents ->
    (length parents <= remaining)%nat.
Proof.
  induction remaining as [|n IH]; intros parent parents H; cbn [collectParents] in H.
  - inversion H; subst. cbn; lia.
  - destruct parent as [p|]; [|inversion H; subst; cbn; lia].
    destruct (isDocumentBody p); [inversion H; subst; cbn; lia|].
    bind_inv H. inversion H; subst. cbn [length].
    match goal with
    | Hrec : collectParents n _ = Ok _ |- _ => apply IH in Hrec; lia
    end.
Qed.

Lemma extractComputedStyles_length (element : Element)
      (styles : list (string * string)) :
  extractComputedStyles element = Ok styles ->
  (length styles <= length STYLE_PROPERTIES)%nat.
Proof.
  unfold extractComputedStyles. intros H. bind_inv H.
  apply Ok_inj in H. subst styles.
  assert (Hgen : forall props acc,
             (length
                (fold_left
                   (fun styles prop =>
                      let kebabProp :=
                        JsString.toLowerCase (JsString.dashBeforeUpper prop) in
                      let value := a kebabProp in
                      if skipStyle prop value then styles
                      else obj_set styles prop value) props acc)
              <= length acc + length props)%nat).
  { induction props as [|prop rest IH]; intros acc; cbn [fold_left length];
      [lia|].
    etransitivity; [apply IH|].
    destruct (skipStyle prop _); [lia|].
    pose proof (obj_set_length acc prop
                  (a (JsString.toLowerCase (JsString.dashBeforeUpper prop)))).
    lia. }
  apply (Hgen STYLE_PROPERTIES []).
Qed.

Lemma extractDOMContext_bounded (element : Element) (ctx : Info.DOMContext) :
  extractDOMContext element = Ok ctx ->
  (String.length (Info.innerHTML ctx) <= 300 + 3)%nat /\
  (length (Info.parents ctx) <= 3)%nat.
Proof.
  unfold extractDOMContext. intros H. bind_inv H. inversion H; subst.
  cbn [Info.innerHTML Info.parents]. split.
  - apply truncate_length.
  - eapply collectParents_length; eassumption.
Qed.

Lemma extractElementInfo_withinLimits (element : Element)
      (info : Info.ElementInfo) :
  extractElementInfo element = Ok info -> withinLimits info.
Proof.
  unfold extractElementInfo. intros H. bind_inv H. inversion H; subst.
  unfold withinLimits.
  cbn [Info.textContent Info.attributes Info.domContext Info.computedStyles].
  match goal with
  | Hctx : extractDOMContext _ = Ok _ |- _ =>
      destruct (extractDOMContext_bounded _ _ Hctx) as [Hhtml Hparents]
  end.
  repeat split.
  - apply truncate_length.
  - apply collectAttributes_bounded.
  - exact Hhtml.
  - exact Hparents.
  - eapply extractComputedStyles_length; eassumption.
Qed.

(** *** Sample elements *)

Definition zeroRect : DOMRect :=
  {| rect_x := 0; rect_y := 0; rect_width := 0; rect_height := 0 |}.

(** An ordinary HTML element; [getAttribute] reads the attribute list
    and the computed style of every property is [style]. *)
Definition htmlElement (node : nat) (tag elementId cls text html : string)
           (attrs : list (string * string)) (style : string)
           (parent : option Element) (kids : list Element) : Element :=
  {| nodeId := node;
     isHTMLElement := true;
     isDocumentBody := false;
     tagName := Ok tag;
     id := Ok elementId;
     className := Ok (ClassString cls);
     textContent := Ok (Some text);
     innerHTML := Ok html;
     attributes := Ok attrs;
     getAttribute := fun name => Ok (obj_get attrs name);
     getBoundingClientRect := Ok zeroRect;
     getComputedStyle := Ok (fun _ => style);
     parentElement := Ok parent;
     children := Ok kids;
     previousElementSibling := Ok None;
     nextElementSibling := Ok None;
     expando := [] |}.

Fixpoint repeatString (s : string) (n : nat) : string :=
  match n with
  | O => ""
  | S n' => s ++ repeatString s n'
  end.

(** A button that is not in the document, with 400 characters of text
    and a 240-character attribute. *)
Definition detachedButton : Element :=
  htmlElement 7 "BUTTON" "" "btn btn-primary" (repeatString "Save " 80)
              (repeatString "<b>Save</b>" 40)
              [("class", "btn btn-primary");
               ("data-payload", repeatString "0123456789ab" 20)]
              "auto" None [].

(** A plain Proxy around an element ([new Proxy(element, {})]): every
    DOM accessor and method, called on the Proxy, fails its brand check. *)
Definition proxyBacked : Element :=
  {| nodeId := 8;
     isHTMLElement := true;
     isDocumentBody := false;
     tagName := Throw TypeError;
     id := Throw TypeError;
     className := Throw TypeError;
     textContent := Throw TypeError;
     innerHTML := Throw TypeError;
     attributes := Throw TypeError;
     getAttribute := fun _ => Throw TypeError;
     getBoundingClientRect := Throw TypeError;
     getComputedStyle := Throw TypeError;
     parentElement := Throw TypeError;
     children := Throw TypeError;
     previousElementSibling := Throw TypeError;
     nextElementSibling := Throw TypeError;
     expando := [] |}.

(** The detached button behind a Proxy whose [get] trap binds methods
    to the target: the reads made on the element work, but
    [window.getComputedStyle], handed the Proxy, rejects it. *)
Definition noComputedStyle : Element :=
  {| nodeId := 7;
     isHTMLElement := true;
     isDocumentBody := false;
     tagName := tagName detachedButton;
     id := id detachedButton;
     className := className detachedButton;
     textContent := textContent detachedButton;
     innerHTML := innerHTML detachedButton;
     attributes := attributes detachedButton;
     getAttribute := getAttribute detachedButton;
     getBoundingClientRect := Ok zeroRect;
     getComputedStyle := Throw TypeError;
     parentElement := Ok None;
     children := Ok [];
     previousElementSibling := Ok None;
     nextElementSibling := Ok None;
     expando := [] |}.

Lemma detachedButton_readable : readable detachedButton.
Proof.
  apply readable_unfold. cbn.
  repeat split; try (eexists; reflexivity); try constructor.
Qed.

(** C7. Whatever [extractElementInfo] returns has a text content of at
    most 150 characters plus the three of the ellipsis, attribute values
    of at most 200 plus three, an inner-HTML preview of at most 300 plus
    three, at most 3 parent levels and at most one computed style per
    listed property; and it does return for every element whose DOM
    reads return, the detached ones among them. *)
Theorem snapshot_fields_are_bounded :
  forall (e : Element),
    (forall info, extractElementInfo e = Ok info -> withinLimits info) /\
    (readable e ->
     exists info, extractElementInfo e = Ok info /\ withinLimits info).
Proof.
  intros e. split.
  - apply extractElementInfo_withinLimits.
  - intros He. destruct (extractElementInfo_returns e He) as [info Hinfo].
    exists info. split; [exact Hinfo|].
    apply extractElementInfo_withinLimits with (element := e). exact Hinfo.
Qed.

Lemma snapshot_fields_are_bounded_witness :
  readable detachedButton /\
  exists info,
    extractElementInfo detachedButton = Ok info /\
    String.length (Info.textContent info) = 153%nat /\
    withinLimits info.
Proof.
  split; [exact detachedButton_readable|].
  destruct (snapshot_fields_are_bounded detachedButton) as [_ Hreturns].
  destruct (Hreturns detachedButton_readable) as (info & Hinfo & Hlimits).
  exists info. split; [exact Hinfo|]. split; [|exact Hlimits].
  assert (E : Ok info = extractElementInfo detachedButton)
    by (symmetry; exact Hinfo).
  vm_compute in E. inversion E. reflexivity.
Defined.

(** *** No guard inside the extractor *)

Lemma extractElementInfo_needs_every_part (e : Element)
      (info : Info.ElementInfo) :
  extractElementInfo e = Ok info ->
  returns (getBoundingClientRect e) /\ returns (attributes e) /\
  returns (textContent e) /\ returns (generateUniqueSelector e) /\
  returns (extractComputedStyles e) /\ returns (extractDOMContext e) /\
  returns (extractAccessibility e).
Proof.
  unfold extractElementInfo. intros H. bind_inv H.
  repeat split; eexists; eassumption.
Qed.

(** C2, as the code has it.  [extractElementInfo] holds no [try]: it
    returns a snapshot for every element whose DOM reads return (a
    detached element, or one whose [className] is not a string, which
    gives the empty string), and only when the geometry, the attributes,
    the text, the selector, the computed styles, the DOM context and the
    accessibility reads have all returned; the exception of the first
    read, [getBoundingClientRect], leaves the function as it is. *)
Theorem snapshot_extraction_is_unguarded :
  forall (e : Element),
    (readable e -> returns (extractElementInfo e)) /\
    (forall info,
        extractElementInfo e = Ok info ->
        returns (getBoundingClientRect e) /\ returns (attributes e) /\
        returns (textContent e) /\ returns (generateUniqueSelector e) /\
        returns (extractComputedStyles e) /\ returns (extractDOMContext e) /\
        returns (extractAccessibility e)) /\
    (forall info,
        extractElementInfo e = Ok info -> className e = Ok ClassObject ->
        Info.className info = "") /\
    (forall err,
        getBoundingClientRect e = Throw err ->
        extractElementInfo e = Throw err).
Proof.
  intros e. split; [apply extractElementInfo_returns|].
  split; [apply extractElementInfo_needs_every_part|]. split.
  - unfold extractElementInfo. intros info H Hcn. bind_inv H.
    match goal with
    | Hc : className e = Ok _ |- _ =>
        rewrite Hcn in Hc; injection Hc as <-
    end.
    injection H as <-. reflexivity.
  - intros err Hrect. unfold extractElementInfo. rewrite Hrect. reflexivity.
Qed.

Lemma snapshot_extraction_is_unguarded_witness :
  readable detachedButton /\ returns (extractElementInfo detachedButton).
Proof.
  split; [exact detachedButton_readable|].
  destruct (snapshot_extraction_is_unguarded detachedButton) as [Hreturns _].
  apply Hreturns. exact detachedButton_readable.
Defined.

(** C2 as stated fails: on a Proxy-backed element the first read throws
    and the exception leaves [extractElementInfo]; and when only the
    computed-style read throws, no snapshot with empty styles is
    returned either. *)
Lemma snapshot_extraction_throws :
  extractElementInfo proxyBacked = Throw TypeError /\
  extractComputedStyles noComputedStyle = Throw TypeError /\
  returns (generateUniqueSelector noComputedStyle) /\
  extractElementInfo noComputedStyle = Throw TypeError.
Proof.
  split; [reflexivity|]. split; [reflexivity|].
  split; [eexists; reflexivity | vm_compute; reflexivity].
Qed.

(** [getElementSelector(element)] *)
Definition getElementSelector (element : Element) : result string :=
  generateUniqueSelector element.

(** *** Selectors of identified elements *)

(** X18. [getElementSelector] needs no tree access on an identified
    element: with a non-empty [data-testid] the selector is
    [[data-testid="..."]], without one but with a non-empty id it is
    [#id], whatever the other reads on the element and its parent do. *)
Theorem identified_element_needs_no_tree_walk :
  forall (e : Element) (testId : option string),
    getAttribute e "data-testid" = Ok testId ->
    (forall t, truthyString testId = Some t ->
       getElementSelector e
       = Ok ("[data-testid=" ++ JsString.dq ++ t ++ JsString.dq ++ "]")) /\
    (forall elementId,
       truthyString testId = None ->
       id e = Ok elementId -> elementId <> "" ->
       getElementSelector e = Ok ("#" ++ elementId)).
Proof.
  intros e testId Htest. unfold getElementSelector, generateUniqueSelector.
  rewrite Htest. cbn [bind]. split.
  - intros t ->. reflexivity.
  - intros elementId -> Hid Hne. rewrite Hid. cbn [bind].
    destruct (String.eqb elementId "") eqn:E; [|reflexivity].
    apply String.eqb_eq in E. contradiction.
Qed.

(** *** What the computed styles hold *)

Definition kebab (prop : string) : string :=
  JsString.toLowerCase (JsString.dashBeforeUpper prop).

(** The loop of [extractComputedStyles] over [props]. *)
Definition collectStyles (computed : string -> string) (props : list string)
           (styles : list (string * string)) : list (string * string) :=
  fold_left
    (fun styles prop =>
       let kebabProp := JsString.toLowerCase (JsString.dashBeforeUpper prop) in
       let value := computed kebabProp in
       if skipStyle prop value then styles
       else obj_set styles prop value)
    props styles.

Lemma extractComputedStyles_unfold (element : Element) :
  extractComputedStyles element
  = (computed <- getComputedStyle element ;;
     Ok (collectStyles computed STYLE_PROPERTIES [])).
Proof. reflexivity. Qed.

Lemma collectStyles_entries (computed : string -> string)
      (props : list string) :
  forall acc,
    (NoDup (map fst acc) ->
     NoDup (map fst (collectStyles computed props acc))) /\
    (forall prop value,
       In (prop, value) (collectStyles computed props acc) ->
       In (prop, value) acc \/
       (In prop props /\ value = computed (kebab prop) /\
        skipStyle prop value = false)).
Proof.
  induction props as [|p rest IH]; intros acc.
  - split; auto.
  - change (collectStyles computed (p :: rest) acc)
      with (collectStyles computed rest
              (if skipStyle p (computed (kebab p)) then acc
               else obj_set acc p (computed (kebab p)))).
    destruct (IH (if skipStyle p (computed (kebab p)) then acc
                  else obj_set acc p (computed (kebab p)))) as [Hnd Hin].
    split.
    + intros H. apply Hnd. destruct (skipStyle p _); [exact H|].
      apply obj_set_NoDup. exact H.
    + intros prop value Hpv.
      destruct (Hin prop value Hpv) as [H|(H1 & H2 & H3)].
      * destruct (skipStyle p (computed (kebab p))) eqn:Hskip; [left; exact H|].
        destruct (obj_set_entry _ _ _ _ _ H) as [H'|[-> ->]]; [left; exact H'|].
        right. split; [left; reflexivity|]. split; [reflexivity|exact Hskip].
      * right. split; [right; exact H1|]. split; assumption.
Qed.

(** X19. Every entry of the computed styles is one of the 17 listed
    properties, at most once, with the value the browser computed for it,
    and that value is not the property's default, not ["0px"] for padding
    or margin, not a transparent background and not a border containing
    ["none"]. *)
Theorem computed_styles_leave_out_defaults :
  forall (e : Element) (styles : list (string * string))
         (prop value : string),
    extractComputedStyles e = Ok styles ->
    In (prop, value) styles ->
    NoDup (map fst styles) /\
    In prop STYLE_PROPERTIES /\
    (exists computed,
        getComputedStyle e = Ok computed /\ value = computed (kebab prop)) /\
    obj_get DEFAULT_STYLES prop <> Some value /\
    (prop = "padding" \/ prop = "margin" -> value <> "0px") /\
    (prop = "backgroundColor" ->
     value <> "transparent" /\ value <> "rgba(0, 0, 0, 0)") /\
    (prop = "border" -> ~ exists pre post, value = pre ++ "none" ++ post).
Proof.
  intros e styles prop value Hrun Hin.
  rewrite extractComputedStyles_unfold in Hrun.
  destruct (getComputedStyle e) as [computed|err]; [|discriminate Hrun].
  cbn [bind] in Hrun. apply Ok_inj in Hrun.
  pose proof (collectStyles_entries computed STYLE_PROPERTIES [])
    as [Hnd Hentries].
  rewrite Hrun in Hnd, Hentries.
  split; [apply Hnd; constructor|].
  destruct (Hentries prop value Hin) as [[]|(Hprop & Hvalue & Hskip)].
  split; [exact Hprop|]. split; [exists computed; split; auto|].
  unfold skipStyle in Hskip.
  apply orb_false_iff in Hskip as [Hskip Hpad].
  apply orb_false_iff in Hskip as [Hskip Hbg].
  apply orb_false_iff in Hskip as [Hdefault Hborder].
  split; [|split; [|split]].
  - intros Hd. rewrite Hd, String.eqb_refl in Hdefault. discriminate.
  - intros Hp Hv. rewrite Hv in Hpad.
    destruct Hp as [Hp|Hp]; rewrite Hp in Hpad; discriminate Hpad.
  - intros Hp. rewrite Hp in Hbg. cbn [andb] in Hbg.
    change (String.eqb "backgroundColor" "backgroundColor") with true in Hbg.
    cbn [andb] in Hbg. apply orb_false_iff in Hbg as [H1 H2].
    split; intros Hv; rewrite Hv in *; discriminate.
  - intros Hp Hnone. rewrite Hp in Hborder.
    change (String.eqb "border" "border") with true in Hborder.
    cbn [andb] in Hborder.
    apply JsString.includes_spec in Hnone. congruence.
Qed.

(** An element with an id whose parent cannot be read. *)
Definition orphanedSaveButton : Element :=
  {| nodeId := 3;
     isHTMLElement := true;
     isDocumentBody := false;
     tagName := Ok "BUTTON";
     id := Ok "save-btn";
     className := Ok (ClassString "btn");
     textContent := Ok (Some "Save");
     innerHTML := Ok "Save";
     attributes := Ok [("id", "save-btn"); ("class", "btn")];
     getAttribute := fun name => Ok (obj_get [("id", "save-btn");
                                              ("class", "btn")] name);
     getBoundingClientRect := Ok zeroRect;
     getComputedStyle := Ok (fun _ => "auto");
     parentElement := Throw SecurityError;
     children := Ok [];
     previousElementSibling := Ok None;
     nextElementSibling := Ok None;
     expando := [] |}.

Lemma identified_element_needs_no_tree_walk_witness :
  getAttribute orphanedSaveButton "data-testid" = Ok None /\
  getElementSelector orphanedSaveButton = Ok "#save-btn".
Proof.
  split; [reflexivity|].
  destruct (identified_element_needs_no_tree_walk
              orphanedSaveButton None eq_refl) as [_ Hid].
  apply (Hid "save-btn"); [reflexivity | reflexivity | discriminate].
Defined.

Lemma computed_styles_leave_out_defaults_witness :
  extractComputedStyles orphanedSaveButton
  = Ok [("display", "auto"); ("position", "auto"); ("visibility", "auto");
        ("opacity", "auto"); ("width", "auto"); ("height", "auto");
        ("padding", "auto"); ("margin", "auto"); ("border", "auto");
        ("backgroundColor", "auto"); ("color", "auto"); ("fontSize", "auto");
        ("fontWeight", "auto"); ("overflow", "auto")] /\
  obj_get DEFAULT_STYLES "display" <> Some "auto".
Proof.
  split; [reflexivity|].
  eapply (computed_styles_leave_out_defaults
            orphanedSaveButton _ "display" "auto");
    [reflexivity | left; reflexivity].
Defined.

(** *** What the attribute map holds *)






End DomUtils.

(** * Runtime operations on values *)

Module JsOps.

Import Fiber.
Local Open Scope js_scope.

Inductive JsType : Type :=
| TUndefined | TObject | TBoolean | TNumber | TString | TBigInt
| TFunction | TSymbol.

(** [typeof v] *)
Definition typeof (v : JsValue) : JsType :=
  match v with
  | JUndefined => TUndefined
  | JNull => TObject
  | JBool _ => TBoolean
  | JNum _ => TNumber
  | JStr _ => TString
  | JBigInt _ => TBigInt
  | JFunction => TFunction
  | JSymbol => TSymbol
  | JArr _ | JObj _ => TObject
  end.

Definition isObjectType (v : JsValue) : bool :=
  match typeof v with TObject => true | _ => false end.

Definition isFunctionType (v : JsValue) : bool :=
  match typeof v with TFunction => true | _ => false end.

(** The keys ["0"], ["1"], ... of an array or string of length [n]. *)
Definition indexKeys (n : nat) : list string :=
  map (fun i => JsString.of_Z (Z.of_nat i)) (seq 0 n).

(** The position that an index key names, among the first [n]. *)
Definition indexOfKey (n : nat) (key : string) : option nat :=
  List.find (fun i => String.eqb (JsString.of_Z (Z.of_nat i)) key) (seq 0 n).

(** [v[key]] on an ordinary value (own properties). *)
Definition js_get (v : JsValue) (key : string) : result JsValue :=
  match v with
  | JUndefined | JNull => Throw TypeError
  | JObj props =>
      Ok (match obj_get props key with Some x => x | None => JUndefined end)
  | JArr items =>
      if String.eqb key "length" then Ok (JNum (Z.of_nat (length items)))
      else Ok (match indexOfKey (length items) key with
               | Some i => nth i items JUndefined
               | None => JUndefined
               end)
  | JStr s =>
      if String.eqb key "length" then Ok (JNum (Z.of_nat (String.length s)))
      else Ok JUndefined
  | _ => Ok JUndefined
  end.

(** [key in v] on an ordinary value (own properties; the keys tested
    by the code are on no prototype). *)
Definition js_has (key : string) (v : JsValue) : result bool :=
  match v with
  | JObj props => Ok (existsb (String.eqb key) (map fst props))
  | JArr items =>
      Ok (String.eqb key "length"
          || match indexOfKey (length items) key with
             | Some _ => true
             | None => false
             end)
  | JFunction => Ok false
  | _ => Throw TypeError
  end.

(** [Object.keys(v)] on an ordinary value. *)
Definition js_keys (v : JsValue) : result (list string) :=
  match v with
  | JUndefined | JNull => Throw TypeError
  | JObj props => Ok (map fst props)
  | JArr items => Ok (indexKeys (length items))
  | JStr s => Ok (indexKeys (String.length s))
  | _ => Ok []
  end.

Definition targetOf (hv : HostValue) : JsValue :=
  match hv with
  | Plain v => v
  | Proxied target _ => target
  end.

Definition hv_get (hv : HostValue) (key : string) : result JsValue :=
  match hv with
  | Plain v => js_get v key
  | Proxied target traps =>
      if get_throws traps then Throw TypeError else js_get target key
  end.

Definition hv_has (key : string) (hv : HostValue) : result bool :=
  match hv with
  | Plain v => js_has key v
  | Proxied target traps =>
      if has_throws traps then Throw TypeError else js_has key target
  end.

Definition hv_keys (hv : HostValue) : result (list string) :=
  match hv with
  | Plain v => js_keys v
  | Proxied target traps =>
      if ownKeys_throws traps then Throw TypeError else js_keys target
  end.

(** [Array.isArray(hv)] looks through a Proxy. *)
Definition isArray (hv : HostValue) : bool :=
  match targetOf hv with JArr _ => true | _ => false end.

(** [value === null || value === undefined] *)
Definition isNullish (hv : HostValue) : bool :=
  match hv with
  | Plain JNull | Plain JUndefined => true
  | _ => false
  end.

(** *** [JSON.stringify] *)

Definition hexDigit (n : nat) : ascii :=
  ascii_of_nat (if (n <? 10)%nat then 48 + n else 87 + n).

(** The escape of one character inside a JSON string. *)
Definition jsonEscape (c : ascii) : string :=
  let n := nat_of_ascii c in
  if (n =? 34)%nat then String "\" JsString.dq
  else if (n =? 92)%nat then "\\"
  else if (n =? 8)%nat then "\b"
  else if (n =? 9)%nat then "\t"
  else if (n =? 10)%nat then "\n"
  else if (n =? 12)%nat then "\f"
  else if (n =? 13)%nat then "\r"
  else if (n <? 32)%nat
       then "\u00" ++ String (hexDigit (n / 16))
                             (String (hexDigit (n mod 16)) EmptyString)
  else String c EmptyString.

Fixpoint jsonEscapeAll (s : string) : string :=
  match s with
  | EmptyString => EmptyString
  | String c rest => jsonEscape c ++ jsonEscapeAll rest
  end.

Definition jsonQuote (s : string) : string :=
  JsString.dq ++ jsonEscapeAll s ++ JsString.dq.

(** **** Numbers as text *)

(** The Number nearest to the integer [n] (a tie goes to the even
    significand), as the integer it is; [None] when it is an infinity. *)
Definition nearestDouble (n : Z) : option Z :=
  let a := Z.abs n in
  let shift := (Z.log2 a - 52)%Z in
  if (shift <=? 0)%Z then Some n
  else
    let q := Z.shiftr a shift in
    let r := (a - Z.shiftl q shift)%Z in
    let half := Z.shiftl 1 (shift - 1) in
    let up := (half <? r)%Z || ((half =? r)%Z && Z.odd q) in
    let x := Z.shiftl (if up then q + 1 else q)%Z shift in
    if (Z.shiftl 1 1024 <=? x)%Z then None else Some (Z.sgn n * x)%Z.

Definition roundsTo (x v : Z) : bool :=
  match nearestDouble v with
  | Some y => (y =? x)%Z
  | None => false
  end.

(** The decimal with [k] significant digits that reads back as the
    Number [x > 0] of [digits] digits; when the decimals on both sides of
    [x] do, the closer one, and the even one of two equally close. *)
Definition decimalOf (x : Z) (digits k : nat) : option Z :=
  let unit := (10 ^ Z.of_nat (digits - k))%Z in
  let below := (x / unit * unit)%Z in
  let above := (below + unit)%Z in
  match roundsTo x below, roundsTo x above with
  | true, true =>
      if (x - below <? above - x)%Z then Some below
      else if (above - x <? x - below)%Z then Some above
      else if Z.even (below / unit) then Some below else Some above
  | true, false => Some below
  | false, true => Some above
  | false, false => None
  end.

Fixpoint shortestFrom (x : Z) (digits : nat) (ks : list nat) : Z :=
  match ks with
  | [] => x
  | k :: rest =>
      match decimalOf x digits k with
      | Some v => v
      | None => shortestFrom x digits rest
      end
  end.

(** The decimal with the fewest significant digits that reads back as
    the Number [x > 0]. *)
Definition shortestDecimal (x : Z) : Z :=
  let digits := String.length (JsString.of_Z x) in
  shortestFrom x digits (seq 1 digits).

Fixpoint dropZeros (reversed : list ascii) : list ascii :=
  match reversed with
  | "0"%char :: rest => dropZeros rest
  | _ => reversed
  end.

(** The digits of [text] without the zeros at its end. *)
Definition significand (text : string) : string :=
  string_of_list_ascii (rev (dropZeros (rev (list_ascii_of_string text)))).

(** The text of a Number [x > 0] whose shortest decimal is [v]: all the
    digits up to 21 of them, an exponent beyond. *)
Definition positiveToString (v : Z) : string :=
  let text := JsString.of_Z v in
  let n := String.length text in
  if (n <=? 21)%nat then text
  else
    let exponent := "e+" ++ JsString.of_Z (Z.of_nat (n - 1)) in
    match significand text with
    | String first EmptyString => String first exponent
    | String first rest => String first ("." ++ rest ++ exponent)
    | EmptyString => text
    end.

(** [String(x)] for the Number [x] nearest to the integer [n]. *)
Definition numberToString (n : Z) : string :=
  match nearestDouble n with
  | None => if (n <? 0)%Z then "-Infinity" else "Infinity"
  | Some x =>
      if (x =? 0)%Z then "0"
      else if (x <? 0)%Z then "-" ++ positiveToString (shortestDecimal (- x))
      else positiveToString (shortestDecimal x)
  end.

(** [JSON.stringify(x)] for that Number: an infinity gives [null]. *)
Definition jsonNumber (n : Z) : string :=
  match nearestDouble n with
  | None => "null"
  | Some _ => numberToString n
  end.

Example numberToString_samples :
  map numberToString
      [0; 7; -12; 9007199254740993; 18446744073709551616;
       999999999999999999999; 1180591620717411303424;
       100000000000000000000000]%Z
  = ["0"; "7"; "-12"; "9007199254740992"; "18446744073709552000";
     "1e+21"; "1.1805916207174113e+21"; "1e+23"].
Proof. vm_compute. reflexivity. Qed.

(** [JSON.stringify(v)] on an ordinary value; [None] is [undefined].
    A [BigInt] anywhere makes it throw. *)
Fixpoint stringifyValue (v : JsValue) : result (option string) :=
  match v with
  | JUndefined | JFunction | JSymbol => Ok None
  | JNull => Ok (Some "null")
  | JBool b => Ok (Some (if b then "true" else "false"))
  | JNum n => Ok (Some (jsonNumber n))
  | JStr s => Ok (Some (jsonQuote s))
  | JBigInt _ => Throw TypeError
  | JArr items =>
      parts <- mapR (fun item =>
                       r <- stringifyValue item ;;
                       Ok (match r with Some s => s | None => "null" end))
                    items ;;
      Ok (Some ("[" ++ JsString.join "," parts ++ "]"))
  | JObj props =>
      parts <- mapR (fun entry =>
                       r <- stringifyValue (snd entry) ;;
                       Ok (match r with
                           | Some s => [jsonQuote (fst entry) ++ ":" ++ s]
                           | None => []
                           end))
                    props ;;
      Ok (Some ("{" ++ JsString.join "," (concat parts) ++ "}"))
  end.

(** [JSON.stringify(hv)]: through a Proxy it reads properties, and on
    a non-array also lists the keys. *)
Definition JSON_stringify (hv : HostValue) : result (option string) :=
  match hv with
  | Plain v => stringifyValue v
  | Proxied target traps =>
      if get_throws traps then Throw TypeError
      else if negb (isArray hv) && ownKeys_throws traps then Throw TypeError
      else stringifyValue target
  end.

Example stringify_sample :
  stringifyValue
    (JObj [("id", JNum 7); ("tags", JArr [JStr "a"; JUndefined]);
           ("cb", JFunction)])
  = Ok (Some (String.concat ""
                ["{"; JsString.dq; "id"; JsString.dq; ":7,";
                 JsString.dq; "tags"; JsString.dq; ":[";
                 JsString.dq; "a"; JsString.dq; ",null]}"])).
Proof. reflexivity. Qed.

End JsOps.

(** * Ownership-path walker (src/utils/component-path.ts) *)

Module ComponentPath.

Import Fiber.
Import JsOps.
Local Open Scope js_scope.

Definition FUNCTION_COMPONENT : Z := 0.
Definition CLASS_COMPONENT : Z := 1.
Definition FORWARD_REF : Z := 11.
Definition MEMO_COMPONENT : Z := 14.
Definition SIMPLE_MEMO_COMPONENT : Z := 15.

Definition COMPONENT_TAGS : list Z :=
  [ FUNCTION_COMPONENT; CLASS_COMPONENT; FORWARD_REF; MEMO_COMPONENT;
    SIMPLE_MEMO_COMPONENT ].

(** The shapes of the regular expressions in
    [FRAMEWORK_COMPONENT_PATTERNS]. *)
Inductive Pattern : Type :=
| Exactly (alternatives : list string)   (* /^(a|b|...)$/ *)
| Around (before after : string)         (* /^before.*after$/ *)
| EndsWith (suffix : string).            (* /suffix$/ *)

Definition FRAMEWORK_COMPONENT_PATTERNS : list Pattern :=
  [ Exactly ["Root"; "ServerRoot"];
    Exactly ["AppRouter"];
    Exactly ["Router"];
    Exactly ["HotReload"];
    Exactly ["DevRootHTTPAccessFallbackBoundary"];
    Around "__next_" "__";
    Exactly ["OuterLayoutRouter"];
    Exactly ["InnerLayoutRouter"];
    Exactly ["SegmentStateProvider"];
    Exactly ["SegmentViewNode"];
    Exactly ["RenderFromTemplateContext"];
    Exactly ["ScrollAndFocusHandler"];
    Exactly ["InnerScrollAndFocusHandler"];
    Exactly ["HTTPAccessFallbackBoundary"];
    Exactly ["HTTPAccessFallbackErrorBoundary"];
    Exactly ["RedirectBoundary"];
    Exactly ["RedirectErrorBoundary"];
    Exactly ["LoadingBoundary"];
    Exactly ["ClientPageRoot"];
    Exactly ["AppDevOverlayErrorBoundary"];
    Exactly ["Suspense"];
    Exactly ["Fragment"];
    Exactly ["StrictMode"];
    Exactly ["Profiler"];
    Exactly ["Provider"];
    Exactly ["QueryClientProvider"];
    Exactly ["ThemeProvider"];
    Exactly ["ErrorBoundary"];
    Exactly ["ErrorBoundary"; "RootErrorBoundary"; "ErrorBoundaryHandler";
             "RootErrorBoundaryHandler"];
    EndsWith "Context" ].

(** A line terminator, which [.] does not match. *)
Definition isLineTerminator (c : ascii) : bool :=
  let n := nat_of_ascii c in ((n =? 10) || (n =? 13))%nat.

Fixpoint noLineTerminator (s : string) : bool :=
  match s with
  | EmptyString => true
  | String c rest => negb (isLineTerminator c) && noLineTerminator rest
  end.

(** [pattern.test(name)] *)
Definition test (pattern : Pattern) (name : string) : bool :=
  match pattern with
  | Exactly alternatives => existsb (String.eqb name) alternatives
  | Around before after =>
      let n := String.length name in
      let b := String.length before in
      let a := String.length after in
      (b + a <=? n)%nat
      && JsString.startsWith before name
      && JsString.endsWith after name
      && noLineTerminator (String.substring b (n - b - a) name)
  | EndsWith suffix => JsString.endsWith suffix name
  end.

Definition isFrameworkComponent (name : string) : bool :=
  existsb (fun pattern => test pattern name) FRAMEWORK_COMPONENT_PATTERNS.

Definition EXCLUDED_PROPS : list string :=
  [ "children"; "key"; "ref"; "__self"; "__source"; "password"; "token";
    "apiKey"; "secret"; "credentials"; "params"; "searchParams" ].

Definition EXCLUDED_PROPS_has (key : string) : bool :=
  existsb (String.eqb key) EXCLUDED_PROPS.

Inductive Source : Type := FromFiber | FromAttribute | FromDisplayName.

Record SourceLocation : Type := mkSourceLocation {
  loc_fileName : string;
  loc_lineNumber : Z;
  loc_columnNumber : option Z
}.

Record ComponentPathItem : Type := mkItem {
  name : string;
  source : Source;
  sourceLocation : option SourceLocation;
  props : option (list (string * HostValue));
  state : option (list HostValue)
}.

(** A [string | undefined] that is truthy. *)
Definition truthyName (o : option string) : option string :=
  match o with
  | Some s => if String.eqb s "" then None else Some s
  | None => None
  end.

Definition isFiberKey (key : string) : bool :=
  JsString.startsWith "__reactFiber$" key
  || JsString.startsWith "__reactInternalInstance$" key.

Definition getFiberFromElement (element : DomUtils.Element)
  : option FiberNode :=
  match List.find (fun entry => isFiberKey (fst entry))
                  (DomUtils.expando element) with
  | Some (_, fiber) => fiber
  | None => None
  end.

Definition getComponentName (fiber : FiberNode) : option string :=
  match type fiber with
  | TypeNull => None
  | TypeString _ => None
  | TypeObject typeName displayName =>
      match truthyName displayName with
      | Some d => Some d
      | None => truthyName typeName
      end
  end.

Definition isComponentFiber (fiber : FiberNode) : bool :=
  existsb (Z.eqb (tag fiber)) COMPONENT_TAGS.

(** [s.slice(n)] *)
Definition dropChars (n : nat) (s : string) : string :=
  String.substring n (String.length s - n) s.

(** [s.replace(/^webpack:\/\/[^/]*\//, '')] *)
Definition stripWebpack (s : string) : string :=
  if JsString.startsWith "webpack://" s then
    let rest := dropChars 10 s in
    match String.index 0 "/" rest with
    | Some i => dropChars (S i) rest
    | None => s
    end
  else s.

(** [s.replace(/^prefix/, '')] for a literal prefix. *)
Definition stripPrefix (prefix s : string) : string :=
  if JsString.startsWith prefix s then dropChars (String.length prefix) s
  else s.

Definition extractSourceLocation (fiber : FiberNode)
  : option SourceLocation :=
  match _debugSource fiber with
  | Some debugSource =>
      Some {| loc_fileName :=
                stripPrefix "./"
                  (stripPrefix "/_next/" (stripWebpack (fileName debugSource)));
              loc_lineNumber := lineNumber debugSource;
              loc_columnNumber := columnNumber debugSource |}
  | None => None
  end.

(** [typeof value === 'object' && value !== null] *)
Definition isObject (hv : HostValue) : bool :=
  isObjectType (targetOf hv) && negb (isNullish hv).

Definition isMeaningfulStateValue (value : HostValue) : result bool :=
  if isNullish value then Ok false
  else if isObject value then
    hasDestroy <- hv_has "destroy" value ;;
    hasCreate <- (if hasDestroy then Ok true else hv_has "create" value) ;;
    if hasCreate then Ok false
    else
      hasCurrent <- hv_has "current" value ;;
      refLike <- (if hasCurrent
                  then keys <- hv_keys value ;; Ok (length keys =? 1)%nat
                  else Ok false) ;;
      if refLike then Ok false
      else
        hasPersist <- hv_has "persist" value ;;
        persistOnly <- (if hasPersist
                        then keys <- hv_keys value ;; Ok (length keys =? 1)%nat
                        else Ok false) ;;
        if persistOnly then Ok false
        else if isArray value then
          len <- hv_get value "length" ;;
          match len with
          | JNum 2 =>
              first <- hv_get value "0" ;;
              match first with
              | JNull => Ok false
              | _ => Ok true
              end
          | _ => Ok true
          end
        else Ok true
  else Ok true.

Definition isReactQueryInternal (obj : HostValue) : result bool :=
  hasListeners <- hv_has "listeners" obj ;;
  both <- (if hasListeners then hv_has "options" obj else Ok false) ;;
  if both then Ok true
  else
    hasDefaulted <- hv_has "_defaulted" obj ;;
    if hasDefaulted
    then keys <- hv_keys obj ;; Ok (length keys <=? 2)%nat
    else Ok false.

Definition isIdleMutationState (obj : HostValue) : result bool :=
  hasIsIdle <- hv_has "isIdle" obj ;;
  both <- (if hasIsIdle then hv_has "submittedAt" obj else Ok false) ;;
  if both then
    isIdle <- hv_get obj "isIdle" ;;
    match isIdle with
    | JBool true =>
        status <- hv_get obj "status" ;;
        match status with
        | JStr s => Ok (String.eqb s "idle")
        | _ => Ok false
        end
    | _ => Ok false
    end
  else Ok false.

(** [array.every(pred)] with a callback that can throw. *)
Fixpoint everyR {A : Type} (pred : A -> result bool) (l : list A)
  : result bool :=
  match l with
  | [] => Ok true
  | a :: rest =>
      ok <- pred a ;;
      if ok then everyR pred rest else Ok false
  end.

Definition isEmptyObject (obj : HostValue) : result bool :=
  keys <- hv_keys obj ;;
  if (length keys =? 0)%nat then Ok true
  else
    everyR (fun k =>
              v <- hv_get obj k ;;
              match v with
              | JNull | JUndefined => Ok true
              | _ =>
                  if isObjectType v
                  then vkeys <- js_keys v ;; Ok (length vkeys =? 0)%nat
                  else Ok false
              end) keys.

Definition boolFields : list string :=
  ["isLoading"; "isError"; "isPending"; "isFetching"].

(** The [for (const field of boolFields)] loop of
    [cleanReactQueryState]. *)
Fixpoint copyTrueFlags (state : HostValue) (fields : list string)
         (cleaned : Props) : result Props :=
  match fields with
  | [] => Ok cleaned
  | field :: rest =>
      v <- hv_get state field ;;
      match v with
      | JBool true => copyTrueFlags state rest (obj_set cleaned field (JBool true))
      | _ => copyTrueFlags state rest cleaned
      end
  end.

Definition hasKey (o : Props) (key : string) : bool :=
  existsb (String.eqb key) (map fst o).

(** [cleanReactQueryState(state)]; [None] is [null]. *)
Definition cleanReactQueryState (state : HostValue) : result (option Props) :=
  internal <- isReactQueryInternal state ;;
  if internal then Ok None
  else
    hasStatus <- hv_has "status" state ;;
    hasFetchStatus <- (if hasStatus then Ok true
                       else hv_has "fetchStatus" state) ;;
    if negb hasFetchStatus then Ok None
    else
      let cleaned := [("_type", JStr "ReactQuery")] in
      cleaned <- (if hasStatus
                  then status <- hv_get state "status" ;;
                       Ok (obj_set cleaned "status" status)
                  else Ok cleaned) ;;
      hasData <- hv_has "data" state ;;
      cleaned <-
        (if hasData then
           data <- hv_get state "data" ;;
           match data with
           | JNull | JUndefined => Ok cleaned
           | _ =>
               dataStr <- stringifyValue data ;;
               match dataStr with
               | None => Throw TypeError
               | Some str =>
                   if (1000 <? String.length str)%nat
                   then Ok (obj_set cleaned "data"
                                    (JStr "[Large data object - truncated]"))
                   else Ok (obj_set cleaned "data" data)
               end
           end
         else Ok cleaned) ;;
      hasError <- hv_has "error" state ;;
      cleaned <-
        (if hasError then
           err <- hv_get state "error" ;;
           if truthy err then Ok (obj_set cleaned "error" err)
           else Ok cleaned
         else Ok cleaned) ;;
      cleaned <- copyTrueFlags state boolFields cleaned ;;
      let hasUsefulData :=
        hasKey cleaned "data" || hasKey cleaned "error"
        || existsb (fun f => match obj_get cleaned f with
                             | Some (JBool true) => true
                             | _ => false
                             end) boolFields in
      let statusIsIdle :=
        match obj_get cleaned "status" with
        | Some (JStr s) => String.eqb s "idle"
        | _ => false
        end in
      if hasUsefulData || negb statusIsIdle
      then Ok (Some cleaned) else Ok None.

Definition isPromise (value : HostValue) : result bool :=
  if negb (isNullish value) && isObjectType (targetOf value) then
    thenValue <- hv_get value "then" ;;
    Ok (isFunctionType thenValue)
  else Ok false.

(** [typeof value === 'string' && value.length > 100] *)
Definition longString (value : HostValue) : option string :=
  match value with
  | Plain (JStr str) =>
      if (100 <? String.length str)%nat then Some str else None
  | _ => None
  end.

(** [Array.isArray(value) && value.length > 10], with the length. *)
Definition largeArray (value : HostValue) : result (option Z) :=
  if isArray value then
    len <- hv_get value "length" ;;
    Ok (match len with
        | JNum n => if (10 <? n)%Z then Some n else None
        | _ => None
        end)
  else Ok None.

(** The block that skips empty objects and arrays; [Object.keys] is
    called inside a [try]. *)
Definition isEmptyContainer (value : HostValue) : result bool :=
  if isObject value then
    emptyArray <-
      (if isArray value then
         len <- hv_get value "length" ;;
         Ok (match len with JNum 0 => true | _ => false end)
       else Ok false) ;;
    if emptyArray then Ok true
    else
      Ok (match hv_keys value with
          | Ok keys => (length keys =? 0)%nat
          | Throw _ => true
          end)
  else Ok false.

(** What the loop body of [extractProps] does with one value that was
    read: [None] is [continue] without a write, [Some v] is
    [props[key] = v]. *)
Definition sanitizeProp (key : string) (value : HostValue)
  : result (option HostValue) :=
  promise <- isPromise value ;;
  if promise then Ok None
  else if isFunctionType (targetOf value) then
    if JsString.startsWith "on" key then Ok None
    else Ok (Some (Plain (JStr "[Function]")))
  else
    reactElement <- (if isObject value then hv_has "$$typeof" value
                     else Ok false) ;;
    if reactElement then Ok None
    else
      match longString value with
      | Some str =>
          Ok (Some (Plain (JStr (JsString.slice str 0 100 ++ "..."))))
      | None =>
          large <- largeArray value ;;
          match large with
          | Some n =>
              Ok (Some (Plain (JStr ("[Array(" ++ JsString.of_Z n ++ ")]"))))
          | None =>
              skip <- isEmptyContainer value ;;
              if skip then Ok None
              else
                Ok (match JSON_stringify value with
                    | Ok _ => Some value
                    | Throw _ => None
                    end)
          end
      end.

(** The [for (const key of keys)] loop of [extractProps]. *)
Fixpoint propsLoop (entries : list (string * result HostValue))
         (props : list (string * HostValue)) (hasProps : bool)
  : result (option (list (string * HostValue))) :=
  match entries with
  | [] => Ok (if hasProps then Some props else None)
  | (key, read) :: rest =>
      if EXCLUDED_PROPS_has key then propsLoop rest props hasProps
      else
        match read with
        | Throw _ => propsLoop rest props hasProps
        | Ok value =>
            kept <- sanitizeProp key value ;;
            match kept with
            | Some v => propsLoop rest (obj_set props key v) true
            | None => propsLoop rest props hasProps
            end
        end
  end.

Definition extractProps (fiber : FiberNode)
  : result (option (list (string * HostValue))) :=
  match memoizedProps fiber with
  | None => Ok None
  | Some entries => propsLoop entries [] false
  end.

(** The body of the [try] in [extractLocalState]: what the cell pushes. *)
Definition describeState (value : HostValue) : result (list HostValue) :=
  if isFunctionType (targetOf value) then Ok []
  else if isObject value then
    internal <- isReactQueryInternal value ;;
    if internal then Ok []
    else
      idle <- isIdleMutationState value ;;
      if idle then Ok []
      else
        empty <- isEmptyObject value ;;
        if empty then Ok []
        else
          cleaned <- cleanReactQueryState value ;;
          match cleaned with
          | Some c => Ok [Plain (JObj c)]
          | None =>
              isElement <- hv_has "$$typeof" value ;;
              if isElement then Ok []
              else
                str <- JSON_stringify value ;;
                match str with
                | None => Throw TypeError
                | Some text =>
                    if (String.length text <? 500)%nat then Ok [value]
                    else Ok [Plain (JStr "[Large object]")]
                end
          end
  else Ok [value].

(** One turn of the [while (state && count < 10)] loop. *)
Definition stateCell (value : HostValue) : result (list HostValue) :=
  meaningful <- isMeaningfulStateValue value ;;
  if negb meaningful then Ok []
  else try_catch (describeState value) (fun _ => Ok []).

(** The callback of [states.filter(...)]. *)
Definition keepState (s : HostValue) : bool :=
  if isObject s then true
  else match s with
       | Plain (JStr str) => (0 <? String.length str)%nat
       | Plain (JNum _) => true
       | _ => false
       end.

Definition extractLocalState (fiber : FiberNode)
  : result (option (list HostValue)) :=
  if negb (tag fiber =? FUNCTION_COMPONENT)%Z then Ok None
  else
    pushed <- mapR stateCell (firstn 10 (memoizedState fiber)) ;;
    let meaningfulStates := filter keepState (concat pushed) in
    Ok (if (0 <? length meaningfulStates)%nat
        then Some meaningfulStates else None).

Definition seenHas (seen : list string) (name : string) : bool :=
  existsb (String.eqb name) seen.

(** The body of the [while (fiber)] loop. *)
Definition visitFiber (fiber : FiberNode)
           (allComponents : list ComponentPathItem) (seen : list string)
  : result (list ComponentPathItem * list string) :=
  if isComponentFiber fiber then
    match getComponentName fiber with
    | Some componentName =>
        if negb (seenHas seen componentName) then
          let itemSource :=
            match type fiber with
            | TypeObject _ displayName =>
                match truthyName displayName with
                | Some _ => FromDisplayName
                | None => FromFiber
                end
            | _ => FromFiber
            end in
          extracted <-
            (if negb (isFrameworkComponent componentName) then
               p <- extractProps fiber ;;
               localState <- extractLocalState fiber ;;
               Ok (p, localState)
             else Ok (None, None)) ;;
          Ok ({| name := componentName;
                 source := itemSource;
                 sourceLocation := extractSourceLocation fiber;
                 props := fst extracted;
                 state := snd extracted |} :: allComponents,
              componentName :: seen)
        else Ok (allComponents, seen)
    | None => Ok (allComponents, seen)
    end
  else Ok (allComponents, seen).

Fixpoint walkFibers (fiber : FiberNode)
         (allComponents : list ComponentPathItem) (seen : list string)
  : result (list ComponentPathItem * list string) :=
  visited <- visitFiber fiber allComponents seen ;;
  match return_ fiber with
  | Some parent => walkFibers parent (fst visited) (snd visited)
  | None => Ok visited
  end.

(** The [while (current)] loop over the element and its ancestors. *)
Fixpoint walkAncestors (current : DomUtils.Element)
         (allComponents : list ComponentPathItem) (seen : list string)
  : result (list ComponentPathItem * list string) :=
  match DomUtils.getAttribute current "data-component" with
  | Throw e => Throw e
  | Ok componentAttr =>
      let visited :=
        match truthyName componentAttr with
        | Some attrName =>
            if negb (seenHas seen attrName)
            then (allComponents ++
                    [ {| name := attrName;
                         source := FromAttribute;
                         sourceLocation := None;
                         props := None;
                         state := None |} ],
                  attrName :: seen)%list
            else (allComponents, seen)
        | None => (allComponents, seen)
        end in
      match DomUtils.parentElement current with
      | Throw e => Throw e
      | Ok (Some parent) => walkAncestors parent (fst visited) (snd visited)
      | Ok None => Ok visited
      end
  end.

(** Both loops: the raw list [allComponents]. *)
Definition collectComponents (element : DomUtils.Element)
  : result (list ComponentPathItem) :=
  fromFibers <-
    match getFiberFromElement element with
    | Some fiber => walkFibers fiber [] []
    | None => Ok ([], [])
    end ;;
  collected <- walkAncestors element (fst fromFibers) (snd fromFibers) ;;
  Ok (fst collected).

(** The last lines of [extractComponentPath]: the noise filter and its
    fallback, [allComponents.slice(-5)]. *)
Definition filterNoise (allComponents : list ComponentPathItem)
  : list ComponentPathItem :=
  let appComponents :=
    filter (fun c => negb (isFrameworkComponent (name c))) allComponents in
  if (length appComponents =? 0)%nat && (0 <? length allComponents)%nat
  then lastn 5 allComponents
  else appComponents.

Definition extractComponentPath (element : DomUtils.Element)
  : result (list ComponentPathItem) :=
  allComponents <- collectComponents element ;;
  Ok (filterNoise allComponents).

(** *** Sample fibers *)

Definition componentFiber (componentName : string)
           (fiberProps : option (list (string * result HostValue)))
           (hooks : list HostValue) (parent : option FiberNode) : FiberNode :=
  {| tag := FUNCTION_COMPONENT;
     type := TypeObject (Some componentName) None;
     return_ := parent;
     memoizedProps := fiberProps;
     memoizedState := hooks;
     _debugSource := None |}.

(** An ordinary element carrying a fiber and a [data-component]
    attribute. *)
Definition elementWithFiber (fiber : option FiberNode)
           (componentAttr : option string)
           (parent : option DomUtils.Element) : DomUtils.Element :=
  {| DomUtils.nodeId := 1;
     DomUtils.isHTMLElement := true;
     DomUtils.isDocumentBody := false;
     DomUtils.tagName := Ok "DIV";
     DomUtils.id := Ok "";
     DomUtils.className := Ok (DomUtils.ClassString "");
     DomUtils.textContent := Ok (Some "");
     DomUtils.innerHTML := Ok "";
     DomUtils.attributes := Ok [];
     DomUtils.getAttribute :=
       fun attrName => if String.eqb attrName "data-component"
                       then Ok componentAttr else Ok None;
     DomUtils.getBoundingClientRect := Ok DomUtils.zeroRect;
     DomUtils.getComputedStyle := Ok (fun _ => "");
     DomUtils.parentElement := Ok parent;
     DomUtils.children := Ok [];
     DomUtils.previousElementSibling := Ok None;
     DomUtils.nextElementSibling := Ok None;
     DomUtils.expando :=
       match fiber with
       | Some f => [("__reactFiber$k3x9", Some f)]
       | None => []
       end |}.

Definition idleMutation : HostValue :=
  Plain (JObj [("isIdle", JBool true); ("status", JStr "idle");
               ("submittedAt", JNum 0)]).

Example idle_mutation_cell_is_dropped :
  extractLocalState
    (componentFiber "Form" None [idleMutation; Plain (JNum 3)] None)
  = Ok (Some [Plain (JNum 3)]).
Proof. reflexivity. Qed.

Example framework_names :
  map isFrameworkComponent
      ["ServerRoot"; "__next_root_layout__"; "ThemeContext"; "Cart";
       "RootErrorBoundaryHandler"; "Routers"]
  = [true; true; true; false; true; false].
Proof. reflexivity. Qed.

(** Six wrappers and nothing else, root last in the [return] chain. *)
Definition wrapperChain : FiberNode :=
  componentFiber "Suspense" None []
    (Some (componentFiber "ErrorBoundary" None []
       (Some (componentFiber "InnerLayoutRouter" None []
          (Some (componentFiber "OuterLayoutRouter" None []
             (Some (componentFiber "Router" None []
                (Some (componentFiber "AppRouter" None [] None)))))))))).

Definition cartFiber : FiberNode :=
  componentFiber "CartButton"
    (Some [("label", Ok (Plain (JStr "Save")));
           ("onClick", Ok (Plain JFunction))])
    [Plain (JNum 2)]
    (Some (componentFiber "Provider" None []
       (Some (componentFiber "App" None [] None)))).

Example cart_path :
  option_map (map name)
    (match extractComponentPath (elementWithFiber (Some cartFiber) None None)
     with Ok path => Some path | Throw _ => None end)
  = Some ["App"; "CartButton"].
Proof. reflexivity. Qed.

(** *** The noise filter *)

Lemma filter_nil_Forall {A : Type} (f : A -> bool) (l : list A) :
  filter f l = [] -> Forall (fun a => f a = false) l.
Proof.
  induction l as [|a rest IH]; cbn [filter]; intros H; [constructor|].
  destruct (f a) eqn:E; [discriminate|]. constructor; auto.
Qed.

Lemma lastn_Forall {A : Type} (P : A -> Prop) (n : nat) (l : list A) :
  Forall P l -> Forall P (lastn n l).
Proof.
  intros H. destruct (lastn_suffix n l) as [older E].
  rewrite E in H. apply Forall_app in H. apply H.
Qed.

Lemma filter_Forall_true {A : Type} (f : A -> bool) (l : list A) :
  Forall (fun a => f a = true) (filter f l).
Proof.
  apply Forall_forall. intros a Ha. apply filter_In in Ha. apply Ha.
Qed.

(** C9. When the noise filter would remove every entry of a non-empty
    raw list, [extractComponentPath] returns the last raw entries, at
    most 5 and at least one, all of them noise; in every other case it
    returns exactly the entries whose name is not noise, in order. *)
Theorem noise_filter_falls_back_to_raw_tail :
  forall (element : DomUtils.Element) (path : list ComponentPathItem),
    extractComponentPath element = Ok path ->
    exists allComponents,
      collectComponents element = Ok allComponents /\
      let appComponents :=
        filter (fun c => negb (isFrameworkComponent (name c)))
               allComponents in
      (appComponents = [] -> allComponents <> [] ->
       path = skipn (length allComponents - 5) allComponents /\
       (0 < length path <= 5)%nat /\
       Forall (fun c => isFrameworkComponent (name c) = true) path) /\
      (appComponents <> [] \/ allComponents = [] ->
       path = appComponents /\
       Forall (fun c => isFrameworkComponent (name c) = false) path).
Proof.
  intros element path H. unfold extractComponentPath in H.
  apply bind_Ok_inv in H. destruct H as (allComponents & Hall & H).
  injection H as <-. exists allComponents. split; [exact Hall|].
  cbv zeta. unfold filterNoise. split.
  - intros Hnone Hsome. rewrite Hnone. cbn [length Nat.eqb andb].
    destruct allComponents as [|c rest]; [congruence|].
    cbn [length Nat.ltb Nat.leb]. split; [reflexivity|]. split.
    + fold (lastn 5 (c :: rest)). rewrite lastn_length. cbn [length]. lia.
    + fold (lastn 5 (c :: rest)). apply lastn_Forall.
      apply filter_nil_Forall in Hnone.
      eapply Forall_impl; [|exact Hnone].
      intros a Ha. apply negb_false_iff in Ha. exact Ha.
  - intros Hcase.
    assert (E : ((length (filter (fun c => negb (isFrameworkComponent (name c)))
                                 allComponents) =? 0)%nat
                 && (0 <? length allComponents)%nat) = false).
    { destruct Hcase as [Hne | ->]; [|reflexivity].
      destruct (filter _ allComponents); [congruence|reflexivity]. }
    rewrite E. split; [reflexivity|].
    eapply Forall_impl; [|apply filter_Forall_true].
    intros a Ha. apply negb_true_iff in Ha. exact Ha.
Qed.

Lemma noise_filter_falls_back_to_raw_tail_witness :
  exists path,
    extractComponentPath (elementWithFiber (Some wrapperChain) None None)
    = Ok path /\
    map name path
    = ["Router"; "OuterLayoutRouter"; "InnerLayoutRouter"; "ErrorBoundary";
       "Suspense"].
Proof.
  destruct (extractComponentPath
              (elementWithFiber (Some wrapperChain) None None))
    as [path|err] eqn:Hrun; [|vm_compute in Hrun; discriminate].
  destruct (noise_filter_falls_back_to_raw_tail _ path Hrun)
    as (allComponents & Hall & Hfallback & _).
  exists path. split; [reflexivity|].
  vm_compute in Hall. injection Hall as <-.
  destruct Hfallback as (-> & _); [reflexivity | discriminate |].
  reflexivity.
Defined.

(** *** When the walk returns *)

(** What a Proxy can wrap. *)
Definition isProxyTarget (target : JsValue) : bool :=
  match target with
  | JArr _ | JObj _ | JFunction => true
  | _ => false
  end.

(** A prop value on which property reads and [in] tests return. *)
Definition quietProp (hv : HostValue) : Prop :=
  match hv with
  | Plain _ => True
  | Proxied target traps =>
      isProxyTarget target = true /\
      get_throws traps = false /\ has_throws traps = false
  end.

(** A hook value on which property reads, [in] tests and [Object.keys]
    return. *)
Definition quietHook (hv : HostValue) : Prop :=
  match hv with
  | Plain _ => True
  | Proxied target traps =>
      isProxyTarget target = true /\
      get_throws traps = false /\ has_throws traps = false /\
      ownKeys_throws traps = false
  end.

Definition quietRead (read : result HostValue) : Prop :=
  match read with
  | Ok v => quietProp v
  | Throw _ => True
  end.

(** Every prop and hook value along the [return] chain is quiet. *)
Fixpoint inspectable (fiber : FiberNode) : Prop :=
  match memoizedProps fiber with
  | Some entries => Forall (fun entry => quietRead (snd entry)) entries
  | None => True
  end /\
  Forall quietHook (memoizedState fiber) /\
  match return_ fiber with
  | Some parent => inspectable parent
  | None => True
  end.

(** The reads of the ancestor loop return. *)
Fixpoint ancestorsReadable (e : DomUtils.Element) : Prop :=
  returns (DomUtils.getAttribute e "data-component") /\
  match DomUtils.parentElement e with
  | Ok (Some parent) => ancestorsReadable parent
  | Ok None => True
  | Throw _ => False
  end.

(** The element and its ancestors, nearest first. *)
Fixpoint selfAndAncestors (e : DomUtils.Element) : list DomUtils.Element :=
  e :: match DomUtils.parentElement e with
       | Ok (Some parent) => selfAndAncestors parent
       | _ => []
       end.

(** An entry that comes from a [data-component] attribute of the
    element or of one of its ancestors. *)
Definition attributeDerived (element : DomUtils.Element)
           (item : ComponentPathItem) : Prop :=
  source item = FromAttribute /\ sourceLocation item = None /\
  props item = None /\ state item = None /\
  exists e, In e (selfAndAncestors element) /\
            DomUtils.getAttribute e "data-component" = Ok (Some (name item)).

Lemma js_has_object (key : string) (v : JsValue) :
  isObjectType v = true -> v <> JNull -> returns (js_has key v).
Proof. destruct v; cbn; intros H Hn; try discriminate; try congruence;
         eexists; reflexivity. Qed.

Lemma js_get_object (key : string) (v : JsValue) :
  isObjectType v = true -> v <> JNull -> returns (js_get v key).
Proof.
  destruct v; cbn; intros H Hn; try discriminate; try congruence.
  - destruct (String.eqb key "length"); eexists; reflexivity.
  - eexists; reflexivity.
Qed.

Lemma js_keys_object (v : JsValue) :
  isObjectType v = true -> v <> JNull -> returns (js_keys v).
Proof. destruct v; cbn; intros H Hn; try discriminate; try congruence;
         eexists; reflexivity. Qed.

Lemma isObject_target (hv : HostValue) :
  isObject hv = true ->
  match hv with
  | Plain v => isObjectType v = true /\ v <> JNull
  | Proxied target _ => isObjectType target = true
  end.
Proof.
  unfold isObject. destruct hv as [v|target traps]; cbn.
  - destruct v; cbn; intros H; try discriminate; split; congruence.
  - rewrite andb_true_r. auto.
Qed.

Lemma proxy_target_object (target : JsValue) :
  isProxyTarget target = true -> isObjectType target = true ->
  target <> JNull.
Proof. destruct target; cbn; congruence. Qed.

Lemma hv_has_returns (key : string) (hv : HostValue) :
  quietProp hv -> isObject hv = true -> returns (hv_has key hv).
Proof.
  intros Hq Ho. apply isObject_target in Ho.
  destruct hv as [v|target traps]; cbn [hv_has].
  - destruct Ho. apply js_has_object; assumption.
  - destruct Hq as (Ht & _ & ->).
    apply js_has_object; [exact Ho | apply proxy_target_object; assumption].
Qed.

Lemma hv_get_returns (key : string) (hv : HostValue) :
  quietProp hv -> isObject hv = true -> returns (hv_get hv key).
Proof.
  intros Hq Ho. apply isObject_target in Ho.
  destruct hv as [v|target traps]; cbn [hv_get].
  - destruct Ho. apply js_get_object; assumption.
  - destruct Hq as (Ht & -> & _).
    apply js_get_object; [exact Ho | apply proxy_target_object; assumption].
Qed.

Lemma hv_keys_returns (hv : HostValue) :
  quietHook hv -> isObject hv = true -> returns (hv_keys hv).
Proof.
  intros Hq Ho. apply isObject_target in Ho.
  destruct hv as [v|target traps]; cbn [hv_keys].
  - destruct Ho. apply js_keys_object; assumption.
  - destruct Hq as (Ht & _ & _ & ->).
    apply js_keys_object; [exact Ho | apply proxy_target_object; assumption].
Qed.

Lemma quietHook_quietProp (hv : HostValue) : quietHook hv -> quietProp hv.
Proof. destruct hv; cbn; tauto. Qed.

Lemma isArray_isObject (hv : HostValue) :
  isArray hv = true -> isObject hv = true.
Proof.
  unfold isArray, isObject.
  destruct hv as [v|target traps]; cbn; [destruct v | destruct target];
    cbn; congruence.
Qed.

(** Walks a chain of binds, closing each read with the hints at hand
    and splitting on every test it meets. *)
Ltac walk_returns :=
  repeat first
    [ apply returns_Ok
    | apply returns_bind; [ | intros ? ? ]
    | match goal with
      | |- returns (if ?b then _ else _) => destruct b eqn:?
      | |- returns (match ?x with _ => _ end) => destruct x eqn:?
      end ].

Lemma isPromise_returns (value : HostValue) :
  quietProp value -> returns (isPromise value).
Proof.
  intros Hq. unfold isPromise.
  destruct (negb (isNullish value) && isObjectType (targetOf value)) eqn:E;
    [|apply returns_Ok].
  apply andb_true_iff in E as [Hn Ho].
  apply returns_bind; [|intros ? _; apply returns_Ok].
  apply hv_get_returns; [exact Hq|].
  unfold isObject. rewrite Ho, Hn. reflexivity.
Qed.

Lemma sanitizeProp_returns (key : string) (value : HostValue) :
  quietProp value -> returns (sanitizeProp key value).
Proof.
  intros Hq. unfold sanitizeProp.
  apply returns_bind; [apply isPromise_returns; exact Hq|]. intros promise _.
  destruct promise; [apply returns_Ok|].
  destruct (isFunctionType (targetOf value));
    [destruct (JsString.startsWith "on" key); apply returns_Ok|].
  apply returns_bind.
  { destruct (isObject value) eqn:Ho; [|apply returns_Ok].
    apply hv_has_returns; assumption. }
  intros reactElement _. destruct reactElement; [apply returns_Ok|].
  destruct (longString value); [apply returns_Ok|].
  apply returns_bind.
  { unfold largeArray. destruct (isArray value) eqn:Ha; [|apply returns_Ok].
    apply returns_bind; [|intros ? _; apply returns_Ok].
    apply hv_get_returns; [exact Hq | apply isArray_isObject; exact Ha]. }
  intros large _. destruct large; [apply returns_Ok|].
  apply returns_bind.
  { unfold isEmptyContainer. destruct (isObject value) eqn:Ho;
      [|apply returns_Ok].
    apply returns_bind.
    - destruct (isArray value) eqn:Ha; [|apply returns_Ok].
      apply returns_bind; [|intros ? _; apply returns_Ok].
      apply hv_get_returns; assumption.
    - intros emptyArray _. destruct emptyArray; apply returns_Ok. }
  intros skip _. destruct skip; apply returns_Ok.
Qed.

Lemma propsLoop_returns (entries : list (string * result HostValue)) :
  Forall (fun entry => quietRead (snd entry)) entries ->
  forall collected hasProps, returns (propsLoop entries collected hasProps).
Proof.
  induction 1 as [|[key read] rest Hread Hrest IH]; intros collected hasProps;
    cbn [propsLoop]; [apply returns_Ok|].
  destruct (EXCLUDED_PROPS_has key); [apply IH|].
  destruct read as [value|err]; [|apply IH].
  apply returns_bind; [apply sanitizeProp_returns; exact Hread|].
  intros kept _. destruct kept; apply IH.
Qed.

Lemma isMeaningfulStateValue_returns (value : HostValue) :
  quietHook value -> returns (isMeaningfulStateValue value).
Proof.
  intros Hq. pose proof (quietHook_quietProp value Hq) as Hp.
  unfold isMeaningfulStateValue.
  destruct (isNullish value); [apply returns_Ok|].
  destruct (isObject value) eqn:Ho; [|apply returns_Ok].
  pose proof (fun key => hv_has_returns key value Hp Ho) as Hhas.
  pose proof (fun key => hv_get_returns key value Hp Ho) as Hget.
  pose proof (hv_keys_returns value Hq Ho) as Hkeys.
  walk_returns; auto.
Qed.

Lemma mapR_returns {A B : Type} (f : A -> result B) (l : list A) :
  Forall (fun a => returns (f a)) l -> returns (mapR f l).
Proof.
  induction 1 as [|a rest Ha Hrest IH]; cbn [mapR]; [apply returns_Ok|].
  apply returns_bind; [exact Ha|]. intros b _.
  apply returns_bind; [exact IH|]. intros bs _. apply returns_Ok.
Qed.

Lemma stateCell_returns (value : HostValue) :
  quietHook value -> returns (stateCell value).
Proof.
  intros Hq. unfold stateCell.
  apply returns_bind; [apply isMeaningfulStateValue_returns; exact Hq|].
  intros meaningful _. destruct (negb meaningful); [apply returns_Ok|].
  unfold try_catch. destruct (describeState value); apply returns_Ok.
Qed.

Lemma Forall_firstn {A : Type} (P : A -> Prop) (n : nat) (l : list A) :
  Forall P l -> Forall P (firstn n l).
Proof.
  intros H. rewrite <- (firstn_skipn n l) in H.
  apply Forall_app in H. apply H.
Qed.

Lemma extractLocalState_returns (fiber : FiberNode) :
  Forall quietHook (memoizedState fiber) ->
  returns (extractLocalState fiber).
Proof.
  intros Hq. unfold extractLocalState.
  destruct (negb (tag fiber =? FUNCTION_COMPONENT)%Z); [apply returns_Ok|].
  apply returns_bind; [|intros ? _; apply returns_Ok].
  apply mapR_returns. apply Forall_firstn.
  eapply Forall_impl; [|exact Hq]. intros v Hv. apply stateCell_returns.
  exact Hv.
Qed.

Lemma inspectable_unfold (fiber : FiberNode) :
  inspectable fiber <->
  match memoizedProps fiber with
  | Some entries => Forall (fun entry => quietRead (snd entry)) entries
  | None => True
  end /\
  Forall quietHook (memoizedState fiber) /\
  match return_ fiber with
  | Some parent => inspectable parent
  | None => True
  end.
Proof. destruct fiber; reflexivity. Qed.

Lemma visitFiber_returns (fiber : FiberNode)
      (allComponents : list ComponentPathItem) (seen : list string) :
  inspectable fiber -> returns (visitFiber fiber allComponents seen).
Proof.
  intros Hi. apply inspectable_unfold in Hi. destruct Hi as (Hprops & Hhooks & _).
  unfold visitFiber.
  destruct (isComponentFiber fiber); [|apply returns_Ok].
  destruct (getComponentName fiber) as [componentName|]; [|apply returns_Ok].
  destruct (negb (seenHas seen componentName)); [|apply returns_Ok].
  apply returns_bind; [|intros ? _; apply returns_Ok].
  destruct (negb (isFrameworkComponent componentName)); [|apply returns_Ok].
  apply returns_bind.
  - unfold extractProps. destruct (memoizedProps fiber) as [entries|];
      [apply propsLoop_returns; exact Hprops | apply returns_Ok].
  - intros p _. apply returns_bind; [|intros ? _; apply returns_Ok].
    apply extractLocalState_returns. exact Hhooks.
Qed.

(** Induction along the [return] chain. *)
Lemma fiber_chain_ind (P : FiberNode -> Prop) :
  (forall fiber,
      (forall parent, return_ fiber = Some parent -> P parent) -> P fiber) ->
  forall fiber, P fiber.
Proof.
  intros step. fix IH 1. intros fiber. apply step.
  destruct fiber as [t ty [par|] p h d]; cbn [return_]; intros parent E;
    [injection E as <-; apply IH | discriminate].
Qed.

(** Induction along the [parentElement] chain. *)
Lemma element_chain_ind (P : DomUtils.Element -> Prop) :
  (forall e,
      (forall parent,
          DomUtils.parentElement e = Ok (Some parent) -> P parent) -> P e) ->
  forall e, P e.
Proof.
  intros step. fix IH 1. intros e. apply step.
  destruct e as [? ? ? ? ? ? ? ? ? ? ? ? [[par|]|err] ? ? ? ?];
    cbn [DomUtils.parentElement]; intros parent E;
    [injection E as <-; apply IH | discriminate | discriminate].
Qed.

Lemma walkFibers_returns (fiber : FiberNode) :
  inspectable fiber ->
  forall allComponents seen, returns (walkFibers fiber allComponents seen).
Proof.
  induction fiber as [fiber IH] using fiber_chain_ind.
  intros Hi allComponents seen.
  assert (Hstep : walkFibers fiber allComponents seen
                  = bind (visitFiber fiber allComponents seen)
                         (fun visited =>
                            match return_ fiber with
                            | Some parent =>
                                walkFibers parent (fst visited) (snd visited)
                            | None => Ok visited
                            end))
    by (destruct fiber; reflexivity).
  rewrite Hstep.
  apply returns_bind; [apply visitFiber_returns; exact Hi|].
  intros visited _. apply inspectable_unfold in Hi.
  destruct Hi as (_ & _ & Hparent).
  destruct (return_ fiber) as [parent|]; [|apply returns_Ok].
  apply IH; [reflexivity | exact Hparent].
Qed.

Lemma ancestorsReadable_unfold (e : DomUtils.Element) :
  ancestorsReadable e <->
  returns (DomUtils.getAttribute e "data-component") /\
  match DomUtils.parentElement e with
  | Ok (Some parent) => ancestorsReadable parent
  | Ok None => True
  | Throw _ => False
  end.
Proof. destruct e; reflexivity. Qed.

Lemma walkAncestors_unfold (current : DomUtils.Element)
      (allComponents : list ComponentPathItem) (seen : list string) :
  walkAncestors current allComponents seen =
  match DomUtils.getAttribute current "data-component" with
  | Throw e => Throw e
  | Ok componentAttr =>
      let visited :=
        match truthyName componentAttr with
        | Some attrName =>
            if negb (seenHas seen attrName)
            then (allComponents ++
                    [ {| name := attrName;
                         source := FromAttribute;
                         sourceLocation := None;
                         props := None;
                         state := None |} ],
                  attrName :: seen)%list
            else (allComponents, seen)
        | None => (allComponents, seen)
        end in
      match DomUtils.parentElement current with
      | Throw e => Throw e
      | Ok (Some parent) => walkAncestors parent (fst visited) (snd visited)
      | Ok None => Ok visited
      end
  end.
Proof. destruct current; reflexivity. Qed.

Lemma selfAndAncestors_unfold (e : DomUtils.Element) :
  selfAndAncestors e =
  e :: match DomUtils.parentElement e with
       | Ok (Some parent) => selfAndAncestors parent
       | _ => []
       end.
Proof. destruct e; reflexivity. Qed.

Lemma walkAncestors_returns (current : DomUtils.Element) :
  ancestorsReadable current ->
  forall allComponents seen,
    returns (walkAncestors current allComponents seen).
Proof.
  induction current as [current IH] using element_chain_ind.
  intros Hr allComponents seen. rewrite walkAncestors_unfold.
  apply ancestorsReadable_unfold in Hr. destruct Hr as [[attr Hattr] Hparent].
  rewrite Hattr. cbv zeta.
  destruct (DomUtils.parentElement current) as [[parent|]|err];
    [|apply returns_Ok|destruct Hparent].
  apply IH; [reflexivity | exact Hparent].
Qed.

(** The ancestor loop only appends attribute entries. *)
Lemma walkAncestors_attributeDerived (root : DomUtils.Element)
      (current : DomUtils.Element) :
  (forall e, In e (selfAndAncestors current) ->
             In e (selfAndAncestors root)) ->
  forall allComponents seen collected,
    Forall (attributeDerived root) allComponents ->
    walkAncestors current allComponents seen = Ok collected ->
    Forall (attributeDerived root) (fst collected).
Proof.
  induction current as [current IH] using element_chain_ind.
  intros Hsub allComponents seen collected Hall Hrun.
  rewrite walkAncestors_unfold in Hrun.
  destruct (DomUtils.getAttribute current "data-component")
    as [componentAttr|err] eqn:Hattr; [|discriminate].
  cbv zeta in Hrun.
  assert (Hvisited :
            Forall (attributeDerived root)
                   (fst match truthyName componentAttr with
                        | Some attrName =>
                            if negb (seenHas seen attrName)
                            then (allComponents ++
                                    [ {| name := attrName;
                                         source := FromAttribute;
                                         sourceLocation := None;
                                         props := None;
                                         state := None |} ],
                                  attrName :: seen)%list
                            else (allComponents, seen)
                        | None => (allComponents, seen)
                        end)).
  { destruct (truthyName componentAttr) as [attrName|] eqn:Htruthy;
      [|exact Hall].
    destruct (negb (seenHas seen attrName)); [|exact Hall].
    cbn [fst]. apply Forall_app. split; [exact Hall|].
    constructor; [|constructor].
    unfold attributeDerived. cbn [source sourceLocation props state name].
    repeat split. exists current. split.
    - apply Hsub. rewrite selfAndAncestors_unfold. left. reflexivity.
    - rewrite Hattr. unfold truthyName in Htruthy.
      destruct componentAttr as [a|]; [|discriminate].
      destruct (String.eqb a ""); [discriminate|].
      injection Htruthy as <-. reflexivity. }
  destruct (DomUtils.parentElement current) as [[parent|]|err] eqn:Hparent;
    [| injection Hrun as <-; exact Hvisited | discriminate].
  eapply (IH parent eq_refl); [|exact Hvisited|exact Hrun].
  intros e He. apply Hsub. rewrite selfAndAncestors_unfold, Hparent.
  right. exact He.
Qed.

Lemma filterNoise_Forall (P : ComponentPathItem -> Prop)
      (allComponents : list ComponentPathItem) :
  Forall P allComponents -> Forall P (filterNoise allComponents).
Proof.
  intros H. unfold filterNoise.
  destruct (_ && _); [apply lastn_Forall; exact H|].
  apply Forall_forall. intros c Hc. apply filter_In in Hc as [Hc _].
  rewrite Forall_forall in H. apply H. exact Hc.
Qed.

(** C3, as the code has it.  [extractComponentPath] holds no [try] of
    its own.  It returns for every element whose ancestor reads
    ([getAttribute], [parentElement]) return and whose fibers hold prop
    and hook values that are ordinary values or Proxies with quiet traps;
    and when no fiber is attached to the element, what it returns is
    empty or made only of entries taken from [data-component]
    attributes of the element and its ancestors. *)
Theorem ownership_walk_returns_on_readable_input :
  forall (element : DomUtils.Element),
    ancestorsReadable element ->
    (forall fiber, getFiberFromElement element = Some fiber ->
                   inspectable fiber) ->
    exists path,
      extractComponentPath element = Ok path /\
      (getFiberFromElement element = None ->
       Forall (attributeDerived element) path).
Proof.
  intros element Hdom Hfiber.
  assert (Hcollect : returns (collectComponents element)).
  { unfold collectComponents. apply returns_bind.
    - destruct (getFiberFromElement element) as [fiber|];
        [apply walkFibers_returns; apply Hfiber; reflexivity
        | apply returns_Ok].
    - intros fromFibers _.
      apply returns_bind; [apply walkAncestors_returns; exact Hdom|].
      intros collected _. apply returns_Ok. }
  destruct Hcollect as [allComponents Hall].
  exists (filterNoise allComponents). split.
  - unfold extractComponentPath. rewrite Hall. reflexivity.
  - intros Hnone. apply filterNoise_Forall.
    unfold collectComponents in Hall. rewrite Hnone in Hall.
    cbn [bind fst snd] in Hall.
    apply bind_Ok_inv in Hall. destruct Hall as (collected & Hwalk & E).
    injection E as <-.
    eapply (walkAncestors_attributeDerived element element);
      [auto | constructor | exact Hwalk].
Qed.

(** A card inside a section, both named by attributes, no fiber. *)
Definition plainCard : DomUtils.Element :=
  elementWithFiber None (Some "Card")
    (Some (elementWithFiber None (Some "Section")
             (Some (elementWithFiber None None None)))).

Lemma ownership_walk_returns_on_readable_input_witness :
  exists path,
    extractComponentPath plainCard = Ok path /\
    map name path = ["Card"; "Section"] /\
    Forall (attributeDerived plainCard) path.
Proof.
  destruct (ownership_walk_returns_on_readable_input plainCard)
    as (path & Hrun & Hattr).
  - cbn. repeat split; eexists; reflexivity.
  - intros fiber Hf. vm_compute in Hf. discriminate.
  - exists path. split; [exact Hrun|]. split.
    + vm_compute in Hrun. injection Hrun as <-. reflexivity.
    + apply Hattr. reflexivity.
Defined.

(** A revoked Proxy handed down as a prop. *)
Definition revokedProxy : HostValue :=
  Proxied (JObj [])
          {| get_throws := true; has_throws := true; ownKeys_throws := true |}.

Definition chartFiber : FiberNode :=
  componentFiber "Chart" (Some [("draft", Ok revokedProxy)]) [] None.

(** C3 as stated fails: on a Proxy-backed element with no fiber the
    first [getAttribute] throws, and on an ordinary element whose fiber
    holds a revoked Proxy as a prop the [then] lookup of [isPromise]
    throws; both exceptions leave [extractComponentPath]. *)
Lemma ownership_walk_can_throw :
  getFiberFromElement DomUtils.proxyBacked = None /\
  extractComponentPath DomUtils.proxyBacked = Throw TypeError /\
  ancestorsReadable (elementWithFiber (Some chartFiber) None None) /\
  extractComponentPath (elementWithFiber (Some chartFiber) None None)
  = Throw TypeError.
Proof.
  split; [reflexivity|]. split; [reflexivity|]. split.
  - cbn. split; [eexists; reflexivity | exact I].
  - reflexivity.
Qed.

(** *** What a path entry holds *)

(** Takes apart a run that returned: every bind gives its intermediate
    value, every test the branch that was taken. *)
Ltac run_inv H :=
  repeat
    first
      [ discriminate H
      | match type of H with
        | bind _ _ = Ok _ =>
            let a := fresh "a" in
            let Ha := fresh "Ha" in
            apply bind_Ok_inv in H; destruct H as (a & Ha & H)
        | (if ?c then _ else _) = Ok _ =>
            let E := fresh "E" in destruct c eqn:E
        | match ?x with _ => _ end = Ok _ =>
            let E := fresh "E" in destruct x eqn:E
        end ].

(** How [extractProps] derives the stored value [v] from the prop
    [raw] under [key]. *)
Definition sanitizedFrom (key : string) (raw v : HostValue) : Prop :=
  (isFunctionType (targetOf raw) = true /\
   JsString.startsWith "on" key = false /\
   v = Plain (JStr "[Function]")) \/
  (exists str, raw = Plain (JStr str) /\ (100 < String.length str)%nat /\
               v = Plain (JStr (JsString.slice str 0 100 ++ "..."))) \/
  (exists n, isArray raw = true /\ hv_get raw "length" = Ok (JNum n) /\
             (10 < n)%Z /\
             v = Plain (JStr ("[Array(" ++ JsString.of_Z n ++ ")]"))) \/
  (v = raw /\ isFunctionType (targetOf raw) = false /\
   longString raw = None /\ isPromise raw = Ok false).

Lemma sanitizeProp_kept (key : string) (raw v : HostValue) :
  sanitizeProp key raw = Ok (Some v) ->
  isFunctionType (targetOf v) = false /\
  returns (JSON_stringify v) /\
  sanitizedFrom key raw v.
Proof.
  unfold sanitizeProp. intros H.
  apply bind_Ok_inv in H. destruct H as (promise & Hpromise & H).
  destruct promise; [discriminate|].
  destruct (isFunctionType (targetOf raw)) eqn:Hfun.
  - destruct (JsString.startsWith "on" key) eqn:Hon; [discriminate|].
    injection H as <-. split; [reflexivity|]. split; [eexists; reflexivity|].
    left. auto.
  - apply bind_Ok_inv in H. destruct H as (reactElement & _ & H).
    destruct reactElement; [discriminate|].
    destruct (longString raw) as [str|] eqn:Hlong.
    + injection H as <-. split; [reflexivity|].
      split; [eexists; reflexivity|]. right. left.
      unfold longString in Hlong. destruct raw as [[]|]; try discriminate.
      destruct (100 <? String.length s)%nat eqn:E; [|discriminate].
      injection Hlong as <-. apply Nat.ltb_lt in E. exists s. auto.
    + apply bind_Ok_inv in H. destruct H as (large & Hlarge & H).
      destruct large as [n|].
      * injection H as <-. split; [reflexivity|].
        split; [eexists; reflexivity|]. right. right. left.
        unfold largeArray in Hlarge.
        destruct (isArray raw) eqn:Harr; [|discriminate].
        apply bind_Ok_inv in Hlarge. destruct Hlarge as (len & Hlen & Hlarge).
        destruct len; try discriminate.
        destruct (10 <? n0)%Z eqn:E; [|discriminate].
        injection Hlarge as <-. apply Z.ltb_lt in E. exists n0. auto.
      * apply bind_Ok_inv in H. destruct H as (skip & _ & H).
        destruct skip; [discriminate|].
        destruct (JSON_stringify raw) as [text|err] eqn:Hjson; [|discriminate].
        injection H as <-. split; [exact Hfun|].
        split; [exists text; exact Hjson|]. right. right. right. auto.
Qed.

(** The props of an entry: no excluded key, no function, nothing that
    [JSON.stringify] rejects. *)
Definition propsSanitized (ps : list (string * HostValue)) : Prop :=
  Forall (fun entry =>
            EXCLUDED_PROPS_has (fst entry) = false /\
            isFunctionType (targetOf (snd entry)) = false /\
            returns (JSON_stringify (snd entry))) ps.

Lemma propsLoop_sanitized (entries : list (string * result HostValue)) :
  forall collected hasProps ps,
    propsSanitized collected ->
    propsLoop entries collected hasProps = Ok (Some ps) ->
    propsSanitized ps.
Proof.
  induction entries as [|[key read] rest IH]; intros collected hasProps ps
    Hcollected Hrun; cbn [propsLoop] in Hrun.
  - destruct hasProps; [|discriminate]. injection Hrun as <-. exact Hcollected.
  - destruct (EXCLUDED_PROPS_has key) eqn:Hex; [eapply IH; eassumption|].
    destruct read as [value|err]; [|eapply IH; eassumption].
    apply bind_Ok_inv in Hrun. destruct Hrun as (kept & Hkept & Hrun).
    destruct kept as [v|]; [|eapply IH; eassumption].
    eapply IH; [|exact Hrun].
    destruct (sanitizeProp_kept key value v Hkept) as (Hfun & Hjson & _).
    unfold propsSanitized. apply obj_set_Forall_at; [exact Hcollected|].
    cbn [fst snd]. auto.
Qed.

Lemma extractProps_sanitized (fiber : FiberNode)
      (ps : list (string * HostValue)) :
  extractProps fiber = Ok (Some ps) -> propsSanitized ps.
Proof.
  unfold extractProps. destruct (memoizedProps fiber) as [entries|];
    [|discriminate].
  apply propsLoop_sanitized. constructor.
Qed.

(** The hook values of an entry: between one and ten, each an object,
    a non-empty string or a number. *)
Definition stateBounded (states : list HostValue) : Prop :=
  (0 < length states <= 10)%nat /\
  Forall (fun s => keepState s = true) states.

Lemma describeState_length (value : HostValue) (pushed : list HostValue) :
  describeState value = Ok pushed -> (length pushed <= 1)%nat.
Proof.
  unfold describeState. intros H.
  run_inv H; injection H as <-; cbn [length]; lia.
Qed.

Lemma stateCell_length (value : HostValue) (pushed : list HostValue) :
  stateCell value = Ok pushed -> (length pushed <= 1)%nat.
Proof.
  unfold stateCell. intros H.
  apply bind_Ok_inv in H. destruct H as (meaningful & _ & H).
  destruct (negb meaningful); [injection H as <-; cbn; lia|].
  unfold try_catch in H.
  destruct (describeState value) as [l|err] eqn:E.
  - injection H as <-. eapply describeState_length. exact E.
  - injection H as <-. cbn; lia.
Qed.

Lemma mapR_concat_length {A B : Type} (f : A -> result (list B))
      (l : list A) :
  (forall a bs, f a = Ok bs -> (length bs <= 1)%nat) ->
  forall pushed,
    mapR f l = Ok pushed -> (length (concat pushed) <= length l)%nat.
Proof.
  intros Hf. induction l as [|a rest IH]; intros pushed H; cbn [mapR] in H.
  - injection H as <-. cbn; lia.
  - apply bind_Ok_inv in H. destruct H as (bs & Hbs & H).
    apply bind_Ok_inv in H. destruct H as (more & Hmore & H).
    injection H as <-. cbn [concat length]. rewrite length_app.
    specialize (Hf a bs Hbs). specialize (IH more Hmore). lia.
Qed.

Lemma extractLocalState_bounded (fiber : FiberNode)
      (states : list HostValue) :
  extractLocalState fiber = Ok (Some states) -> stateBounded states.
Proof.
  unfold extractLocalState. intros H.
  destruct (negb (tag fiber =? FUNCTION_COMPONENT)%Z); [discriminate|].
  apply bind_Ok_inv in H. destruct H as (pushed & Hpushed & H).
  destruct (0 <? length (filter keepState (concat pushed)))%nat eqn:Hlen;
    [|discriminate].
  injection H as <-. apply Nat.ltb_lt in Hlen.
  split; [|apply filter_Forall_true].
  split; [exact Hlen|].
  pose proof (mapR_concat_length stateCell _ stateCell_length _ Hpushed) as Hc.
  pose proof (filter_length_le keepState (concat pushed)) as Hf.
  rewrite length_firstn in Hc. lia.
Qed.

(** What every entry of a path satisfies. *)
Definition itemSanitized (item : ComponentPathItem) : Prop :=
  (forall ps, props item = Some ps -> propsSanitized ps) /\
  (forall states, state item = Some states -> stateBounded states) /\
  (isFrameworkComponent (name item) = true ->
   props item = None /\ state item = None).

Lemma visitFiber_sanitized (fiber : FiberNode)
      (allComponents : list ComponentPathItem) (seen : list string)
      (visited : list ComponentPathItem * list string) :
  Forall itemSanitized allComponents ->
  visitFiber fiber allComponents seen = Ok visited ->
  Forall itemSanitized (fst visited).
Proof.
  intros Hall Hrun. unfold visitFiber in Hrun.
  destruct (isComponentFiber fiber); [|injection Hrun as <-; exact Hall].
  destruct (getComponentName fiber) as [componentName|];
    [|injection Hrun as <-; exact Hall].
  destruct (negb (seenHas seen componentName));
    [|injection Hrun as <-; exact Hall].
  apply bind_Ok_inv in Hrun. destruct Hrun as (extracted & Hext & Hrun).
  injection Hrun as <-. cbn [fst]. constructor; [|exact Hall].
  unfold itemSanitized. cbn [props state name].
  destruct (isFrameworkComponent componentName) eqn:Hfw; cbn [negb] in Hext.
  - injection Hext as <-. cbn [fst snd].
    split; [discriminate|]. split; [discriminate|]. auto.
  - apply bind_Ok_inv in Hext. destruct Hext as (p & Hp & Hext).
    apply bind_Ok_inv in Hext. destruct Hext as (localState & Hs & Hext).
    injection Hext as <-. cbn [fst snd].
    split; [|split; [|discriminate]].
    + intros ps ->. eapply extractProps_sanitized. exact Hp.
    + intros states ->. eapply extractLocalState_bounded. exact Hs.
Qed.

Lemma walkFibers_unfold (fiber : FiberNode)
      (allComponents : list ComponentPathItem) (seen : list string) :
  walkFibers fiber allComponents seen
  = bind (visitFiber fiber allComponents seen)
         (fun visited =>
            match return_ fiber with
            | Some parent => walkFibers parent (fst visited) (snd visited)
            | None => Ok visited
            end).
Proof. destruct fiber; reflexivity. Qed.

Lemma walkFibers_sanitized (fiber : FiberNode) :
  forall allComponents seen collected,
    Forall itemSanitized allComponents ->
    walkFibers fiber allComponents seen = Ok collected ->
    Forall itemSanitized (fst collected).
Proof.
  induction fiber as [fiber IH] using fiber_chain_ind.
  intros allComponents seen collected Hall Hrun.
  rewrite walkFibers_unfold in Hrun.
  apply bind_Ok_inv in Hrun. destruct Hrun as (visited & Hvisit & Hrun).
  pose proof (visitFiber_sanitized _ _ _ _ Hall Hvisit) as Hvisited.
  destruct (return_ fiber) as [parent|] eqn:Hparent.
  - eapply (IH parent eq_refl); eassumption.
  - injection Hrun as <-. exact Hvisited.
Qed.

(** The ancestor loop only appends entries without props or state. *)
Lemma walkAncestors_Forall (P : ComponentPathItem -> Prop)
      (current : DomUtils.Element) :
  (forall attrName, P {| name := attrName;
                         source := FromAttribute;
                         sourceLocation := None;
                         props := None;
                         state := None |}) ->
  forall allComponents seen collected,
    Forall P allComponents ->
    walkAncestors current allComponents seen = Ok collected ->
    Forall P (fst collected).
Proof.
  intros Hattr.
  induction current as [current IH] using element_chain_ind.
  intros allComponents seen collected Hall Hrun.
  rewrite walkAncestors_unfold in Hrun.
  destruct (DomUtils.getAttribute current "data-component")
    as [componentAttr|err]; [|discriminate].
  cbv zeta in Hrun.
  match type of Hrun with
  | context [walkAncestors _ (fst ?v) (snd ?v)] =>
      assert (Hvisited : Forall P (fst v))
  end.
  { destruct (truthyName componentAttr) as [attrName|]; [|exact Hall].
    destruct (negb (seenHas seen attrName)); [|exact Hall].
    cbn [fst]. apply Forall_app. split; [exact Hall|].
    constructor; [apply Hattr | constructor]. }
  destruct (DomUtils.parentElement current) as [[parent|]|err] eqn:Hparent;
    [| injection Hrun as <-; exact Hvisited | discriminate].
  eapply (IH parent eq_refl); eassumption.
Qed.

Lemma extractComponentPath_sanitized (element : DomUtils.Element)
      (path : list ComponentPathItem) :
  extractComponentPath element = Ok path -> Forall itemSanitized path.
Proof.
  unfold extractComponentPath, collectComponents. intros H.
  apply bind_Ok_inv in H. destruct H as (allComponents & Hall & H).
  injection H as <-. apply filterNoise_Forall.
  apply bind_Ok_inv in Hall. destruct Hall as (fromFibers & Hfibers & Hall).
  apply bind_Ok_inv in Hall. destruct Hall as (collected & Hwalk & Hall).
  injection Hall as <-.
  eapply (walkAncestors_Forall itemSanitized); [| |exact Hwalk].
  - intros attrName. unfold itemSanitized. cbn [props state name].
    split; [discriminate|]. split; [discriminate|]. auto.
  - destruct (getFiberFromElement element) as [fiber|].
    + eapply walkFibers_sanitized; [constructor|exact Hfibers].
    + injection Hfibers as <-. constructor.
Qed.

(** X21. No prop recorded in a component path sits under an excluded key
    ([password], [token], [children], ...), none is a function, and
    [JSON.stringify] accepts each of them. *)
Theorem path_props_hold_no_secret_or_function :
  forall (element : DomUtils.Element) (path : list ComponentPathItem)
         (item : ComponentPathItem) (ps : list (string * HostValue))
         (key : string) (v : HostValue),
    extractComponentPath element = Ok path ->
    In item path ->
    props item = Some ps ->
    In (key, v) ps ->
    ~ In key EXCLUDED_PROPS /\
    isFunctionType (targetOf v) = false /\
    returns (JSON_stringify v).
Proof.
  intros element path item ps key v Hrun Hitem Hprops Hin.
  pose proof (extractComponentPath_sanitized element path Hrun) as Hall.
  rewrite Forall_forall in Hall.
  destruct (Hall item Hitem) as (Hps & _ & _).
  specialize (Hps ps Hprops). unfold propsSanitized in Hps.
  rewrite Forall_forall in Hps.
  destruct (Hps (key, v) Hin) as (Hex & Hfun & Hjson). cbn [fst snd] in *.
  split; [|split; assumption].
  intros Hkey.
  assert (EXCLUDED_PROPS_has key = true).
  { unfold EXCLUDED_PROPS_has. apply existsb_exists. exists key.
    split; [exact Hkey | apply String.eqb_refl]. }
  congruence.
Qed.

(** X22. The local state recorded for a path entry holds between one and
    ten values, none of them a function, [null], [undefined], a boolean or
    the empty string. *)
Theorem path_state_is_bounded :
  forall (element : DomUtils.Element) (path : list ComponentPathItem)
         (item : ComponentPathItem) (states : list HostValue),
    extractComponentPath element = Ok path ->
    In item path ->
    state item = Some states ->
    (0 < length states <= 10)%nat /\
    forall s, In s states ->
      isFunctionType (targetOf s) = false /\
      s <> Plain JNull /\ s <> Plain JUndefined /\ s <> Plain (JStr "") /\
      (forall b, s <> Plain (JBool b)).
Proof.
  intros element path item states Hrun Hitem Hstate.
  pose proof (extractComponentPath_sanitized element path Hrun) as Hall.
  rewrite Forall_forall in Hall.
  destruct (Hall item Hitem) as (_ & Hs & _).
  destruct (Hs states Hstate) as [Hlen Hkeep].
  split; [exact Hlen|].
  intros s Hin. rewrite Forall_forall in Hkeep. specialize (Hkeep s Hin).
  unfold keepState, isObject, isObjectType, isFunctionType in *.
  repeat split; try (intros ->; discriminate Hkeep);
    try (intros b ->; discriminate Hkeep).
  destruct s as [v|target traps]; cbn in *; [destruct v | destruct target];
    cbn in *; congruence.
Qed.

(** X23. A path entry whose name is a framework name, as the fallback of
    the noise filter can return, carries neither props nor state. *)
Theorem framework_entries_carry_no_props_or_state :
  forall (element : DomUtils.Element) (path : list ComponentPathItem)
         (item : ComponentPathItem),
    extractComponentPath element = Ok path ->
    In item path ->
    isFrameworkComponent (name item) = true ->
    props item = None /\ state item = None.
Proof.
  intros element path item Hrun Hitem Hfw.
  pose proof (extractComponentPath_sanitized element path Hrun) as Hall.
  rewrite Forall_forall in Hall.
  destruct (Hall item Hitem) as (_ & _ & Hbare). apply Hbare. exact Hfw.
Qed.

(** *** Order and names of a path *)

(** The component names along the [return] chain, nearest first. *)
Fixpoint fiberNames (fiber : FiberNode) : list string :=
  ((if isComponentFiber fiber
    then match getComponentName fiber with
         | Some componentName => [componentName]
         | None => []
         end
    else [])
   ++ match return_ fiber with
      | Some parent => fiberNames parent
      | None => []
      end)%list.

(** The [data-component] names of the element and its ancestors,
    nearest first. *)
Fixpoint attributeNames (e : DomUtils.Element) : list string :=
  (match DomUtils.getAttribute e "data-component" with
   | Ok componentAttr =>
       match truthyName componentAttr with
       | Some attrName => [attrName]
       | None => []
       end
   | Throw _ => []
   end
   ++ match DomUtils.parentElement e with
      | Ok (Some parent) => attributeNames parent
      | _ => []
      end)%list.

(** The names of [names] that are not in [seen], each at its first
    occurrence. *)
Fixpoint firstOccurrences (seen : list string) (names : list string)
  : list string :=
  match names with
  | [] => []
  | n :: rest =>
      if seenHas seen n then firstOccurrences seen rest
      else n :: firstOccurrences (n :: seen) rest
  end.

Lemma fiberNames_unfold (fiber : FiberNode) :
  fiberNames fiber
  = ((if isComponentFiber fiber
      then match getComponentName fiber with
           | Some componentName => [componentName]
           | None => []
           end
      else [])
     ++ match return_ fiber with
        | Some parent => fiberNames parent
        | None => []
        end)%list.
Proof. destruct fiber; reflexivity. Qed.

Lemma attributeNames_unfold (e : DomUtils.Element) :
  attributeNames e
  = (match DomUtils.getAttribute e "data-component" with
     | Ok componentAttr =>
         match truthyName componentAttr with
         | Some attrName => [attrName]
         | None => []
         end
     | Throw _ => []
     end
     ++ match DomUtils.parentElement e with
        | Ok (Some parent) => attributeNames parent
        | _ => []
        end)%list.
Proof. destruct e; reflexivity. Qed.

Lemma firstOccurrences_app (a b seen : list string) :
  firstOccurrences seen (a ++ b)%list
  = (firstOccurrences seen a
     ++ firstOccurrences (rev (firstOccurrences seen a) ++ seen) b)%list.
Proof.
  revert seen. induction a as [|n a IH]; intros seen; cbn [app firstOccurrences].
  - reflexivity.
  - destruct (seenHas seen n); [apply IH|].
    cbn [rev app]. rewrite IH, <- app_assoc. reflexivity.
Qed.

Lemma seenHas_In (seen : list string) (n : string) :
  seenHas seen n = true <-> In n seen.
Proof.
  unfold seenHas. rewrite existsb_exists. split.
  - intros (x & Hx & E). apply String.eqb_eq in E. subst. exact Hx.
  - intros H. exists n. split; [exact H | apply String.eqb_refl].
Qed.

Lemma firstOccurrences_fresh (names : list string) :
  forall seen,
    NoDup (firstOccurrences seen names) /\
    forall n, In n (firstOccurrences seen names) -> ~ In n seen.
Proof.
  induction names as [|n rest IH]; intros seen; cbn [firstOccurrences].
  - split; [constructor | intros n []].
  - destruct (seenHas seen n) eqn:E; [apply IH|].
    destruct (IH (n :: seen)) as [Hnd Hfresh]. split.
    + constructor; [|exact Hnd]. intros Hin.
      apply (Hfresh n Hin). left. reflexivity.
    + intros m [<-|Hm].
      * intros Hin. apply seenHas_In in Hin. congruence.
      * intros Hin. apply (Hfresh m Hm). right. exact Hin.
Qed.

Lemma visitFiber_names (fiber : FiberNode)
      (allComponents : list ComponentPathItem) (seen : list string)
      (visited : list ComponentPathItem * list string) :
  visitFiber fiber allComponents seen = Ok visited ->
  let here := if isComponentFiber fiber
              then match getComponentName fiber with
                   | Some componentName => [componentName]
                   | None => []
                   end
              else [] in
  map name (fst visited)
  = (rev (firstOccurrences seen here) ++ map name allComponents)%list /\
  snd visited = (rev (firstOccurrences seen here) ++ seen)%list.
Proof.
  intros Hrun. cbn zeta. unfold visitFiber in Hrun.
  destruct (isComponentFiber fiber);
    [|injection Hrun as <-; split; reflexivity].
  destruct (getComponentName fiber) as [componentName|];
    [|injection Hrun as <-; split; reflexivity].
  cbn [firstOccurrences].
  destruct (seenHas seen componentName); cbn [negb] in Hrun;
    [injection Hrun as <-; split; reflexivity|].
  apply bind_Ok_inv in Hrun. destruct Hrun as (extracted & _ & Hrun).
  injection Hrun as <-. split; reflexivity.
Qed.

Lemma walkFibers_names (fiber : FiberNode) :
  forall allComponents seen collected,
    walkFibers fiber allComponents seen = Ok collected ->
    map name (fst collected)
    = (rev (firstOccurrences seen (fiberNames fiber))
       ++ map name allComponents)%list /\
    snd collected
    = (rev (firstOccurrences seen (fiberNames fiber)) ++ seen)%list.
Proof.
  induction fiber as [fiber IH] using fiber_chain_ind.
  intros allComponents seen collected Hrun.
  rewrite walkFibers_unfold in Hrun.
  apply bind_Ok_inv in Hrun. destruct Hrun as (visited & Hvisit & Hrun).
  destruct (visitFiber_names _ _ _ _ Hvisit) as [Hnames Hseen].
  cbn zeta in *.
  rewrite fiberNames_unfold, firstOccurrences_app.
  set (here := if isComponentFiber fiber then _ else _) in *.
  destruct (return_ fiber) as [parent|] eqn:Hparent.
  - destruct (IH parent eq_refl _ _ _ Hrun) as [Hn Hs].
    rewrite Hn, Hs, Hnames, Hseen, rev_app_distr, <- !app_assoc.
    split; reflexivity.
  - injection Hrun as <-. cbn [firstOccurrences]. rewrite app_nil_r.
    split; assumption.
Qed.

Lemma walkAncestors_names (current : DomUtils.Element) :
  forall allComponents seen collected,
    walkAncestors current allComponents seen = Ok collected ->
    map name (fst collected)
    = (map name allComponents
       ++ firstOccurrences seen (attributeNames current))%list.
Proof.
  induction current as [current IH] using element_chain_ind.
  intros allComponents seen collected Hrun.
  rewrite walkAncestors_unfold in Hrun.
  rewrite attributeNames_unfold, firstOccurrences_app.
  destruct (DomUtils.getAttribute current "data-component")
    as [componentAttr|err]; [|discriminate].
  cbv zeta in Hrun.
  set (here := match truthyName componentAttr with
               | Some attrName => [attrName]
               | None => []
               end).
  match type of Hrun with
  | context [walkAncestors _ (fst ?v) (snd ?v)] =>
      assert (Hvisited :
                map name (fst v)
                = (map name allComponents ++ firstOccurrences seen here)%list
                /\ snd v = (rev (firstOccurrences seen here) ++ seen)%list)
  end.
  { unfold here. destruct (truthyName componentAttr) as [attrName|];
      cbn [firstOccurrences];
      [|rewrite app_nil_r; split; reflexivity].
    destruct (seenHas seen attrName); cbn [negb fst snd];
      [rewrite app_nil_r; split; reflexivity|].
    rewrite map_app. split; reflexivity. }
  destruct Hvisited as [Hnames Hseen].
  destruct (DomUtils.parentElement current) as [[parent|]|err] eqn:Hparent;
    [| |discriminate].
  - rewrite (IH parent eq_refl _ _ _ Hrun), Hnames, Hseen, <- app_assoc.
    reflexivity.
  - injection Hrun as <-. cbn [firstOccurrences]. rewrite app_nil_r.
    exact Hnames.
Qed.

(** The names along the fibers of the element. *)
Definition ownerNames (element : DomUtils.Element) : list string :=
  match getFiberFromElement element with
  | Some fiber => fiberNames fiber
  | None => []
  end.

Lemma collectComponents_names (element : DomUtils.Element)
      (allComponents : list ComponentPathItem) :
  collectComponents element = Ok allComponents ->
  let fromFibers := firstOccurrences [] (ownerNames element) in
  map name allComponents
  = (rev fromFibers
     ++ firstOccurrences (rev fromFibers) (attributeNames element))%list.
Proof.
  unfold collectComponents, ownerNames. intros H. cbn zeta.
  apply bind_Ok_inv in H. destruct H as (fromFibers & Hfibers & H).
  apply bind_Ok_inv in H. destruct H as (collected & Hwalk & H).
  injection H as <-.
  rewrite (walkAncestors_names _ _ _ _ Hwalk).
  destruct (getFiberFromElement element) as [fiber|].
  - destruct (walkFibers_names _ _ _ _ Hfibers) as [Hn Hs].
    cbn [map] in Hn. rewrite !app_nil_r in *. rewrite Hn, Hs. reflexivity.
  - injection Hfibers as <-. reflexivity.
Qed.

(** X24. The raw list behind a path names the components of the fiber
    chain root first, each name once (of a repeated name the occurrence
    nearest to the element counts), followed by the [data-component] names
    of the element and its ancestors that no fiber carried, nearest
    first. *)
Theorem raw_path_is_root_first_then_attributes :
  forall (element : DomUtils.Element) (path : list ComponentPathItem),
    extractComponentPath element = Ok path ->
    exists allComponents,
      path = filterNoise allComponents /\
      let fromFibers := firstOccurrences [] (ownerNames element) in
      map name allComponents
      = (rev fromFibers
         ++ firstOccurrences (rev fromFibers) (attributeNames element))%list.
Proof.
  intros element path H. unfold extractComponentPath in H.
  apply bind_Ok_inv in H. destruct H as (allComponents & Hall & H).
  injection H as <-. exists allComponents. split; [reflexivity|].
  apply collectComponents_names. exact Hall.
Qed.

(** Dropping entries keeps the names distinct. *)
Lemma kept_names_distinct (keep : ComponentPathItem -> bool)
      (items : list ComponentPathItem) :
  NoDup (map name items) -> NoDup (map name (filter keep items)).
Proof.
  intros Hnd. induction items as [|item rest IH]; [constructor|].
  cbn [map] in Hnd. apply NoDup_cons_iff in Hnd as [Hfresh Hrest].
  cbn [filter]. destruct (keep item); [|exact (IH Hrest)].
  cbn [map]. apply NoDup_cons; [|exact (IH Hrest)].
  rewrite in_map_iff. intros (other & Hname & Hother).
  apply filter_In in Hother as [Hother _].
  apply Hfresh. rewrite <- Hname. apply in_map. exact Hother.
Qed.

Lemma tail_names_distinct (n : nat) (items : list ComponentPathItem) :
  NoDup (map name items) -> NoDup (map name (lastn n items)).
Proof.
  intros Hnd. destruct (lastn_suffix n items) as [older E].
  rewrite E, map_app in Hnd. eapply NoDup_app_remove_l. exact Hnd.
Qed.

(** X25. No two entries of a component path have the same name. *)
Theorem path_names_are_distinct :
  forall (element : DomUtils.Element) (path : list ComponentPathItem),
    extractComponentPath element = Ok path ->
    NoDup (map name path).
Proof.
  intros element path H. unfold extractComponentPath in H.
  apply bind_Ok_inv in H. destruct H as (allComponents & Hall & H).
  injection H as <-.
  assert (Hnd : NoDup (map name allComponents)).
  { rewrite (collectComponents_names element allComponents Hall).
    cbn zeta.
    destruct (firstOccurrences_fresh (ownerNames element) []) as [Hf _].
    destruct (firstOccurrences_fresh
                (attributeNames element)
                (rev (firstOccurrences [] (ownerNames element))))
      as [Ha Hfresh].
    apply NoDup_app; [apply NoDup_rev; exact Hf | exact Ha |].
    intros n Hn Hin. apply (Hfresh n Hin). exact Hn. }
  unfold filterNoise. destruct (_ && _).
  - apply tail_names_distinct. exact Hnd.
  - apply kept_names_distinct. exact Hnd.
Qed.

(** *** Where a stored prop comes from *)

Lemma propsLoop_provenance (entries : list (string * result HostValue)) :
  forall collected hasProps ps key v,
    propsLoop entries collected hasProps = Ok (Some ps) ->
    In (key, v) ps ->
    In (key, v) collected \/
    exists raw, In (key, Ok raw) entries /\ sanitizedFrom key raw v.
Proof.
  induction entries as [|[k read] rest IH]; intros collected hasProps ps key v
    Hrun Hin; cbn [propsLoop] in Hrun.
  - destruct hasProps; [|discriminate]. injection Hrun as <-. left. exact Hin.
  - assert (Hrest : forall collected' hasProps',
               propsLoop rest collected' hasProps' = Ok (Some ps) ->
               In (key, v) collected' \/
               exists raw, In (key, Ok raw) ((k, read) :: rest) /\
                           sanitizedFrom key raw v).
    { intros collected' hasProps' Hrun'.
      destruct (IH _ _ _ _ _ Hrun' Hin) as [H|(raw & Hraw & Hs)];
        [left; exact H|].
      right. exists raw. split; [right; exact Hraw | exact Hs]. }
    destruct (EXCLUDED_PROPS_has k); [apply (Hrest _ _ Hrun)|].
    destruct read as [value|err]; [|apply (Hrest _ _ Hrun)].
    apply bind_Ok_inv in Hrun. destruct Hrun as (kept & Hkept & Hrun).
    destruct kept as [stored|]; [|apply (Hrest _ _ Hrun)].
    destruct (Hrest _ _ Hrun) as [H|H]; [|right; exact H].
    destruct (obj_set_entry _ _ _ _ _ H) as [H'|[-> ->]]; [left; exact H'|].
    right. exists value. split; [left; reflexivity|].
    apply (sanitizeProp_kept k value stored Hkept).
Qed.

(** X26. Every prop that [extractProps] stores comes from a memoized
    prop of the same key, by one of four rules: a function outside [on...]
    becomes ["[Function]"], a string of more than 100 characters its first
    100 followed by ["..."], an array of more than 10 elements
    ["[Array(n)]"], and anything else is stored as it is. *)
Theorem stored_prop_is_derived_from_memoized_prop :
  forall (fiber : FiberNode) (ps : list (string * HostValue))
         (key : string) (v : HostValue),
    extractProps fiber = Ok (Some ps) ->
    In (key, v) ps ->
    exists entries raw,
      memoizedProps fiber = Some entries /\
      In (key, Ok raw) entries /\
      ((isFunctionType (targetOf raw) = true /\
        JsString.startsWith "on" key = false /\
        v = Plain (JStr "[Function]")) \/
       (exists str, raw = Plain (JStr str) /\ (100 < String.length str)%nat /\
                    v = Plain (JStr (JsString.slice str 0 100 ++ "..."))) \/
       (exists n, isArray raw = true /\ hv_get raw "length" = Ok (JNum n) /\
                  (10 < n)%Z /\
                  v = Plain (JStr ("[Array(" ++ JsString.of_Z n ++ ")]"))) \/
       (v = raw /\ isFunctionType (targetOf raw) = false /\
        longString raw = None /\ isPromise raw = Ok false)).
Proof.
  intros fiber ps key v Hrun Hin. unfold extractProps in Hrun.
  destruct (memoizedProps fiber) as [entries|]; [|discriminate].
  destruct (propsLoop_provenance entries [] false ps key v Hrun Hin)
    as [[]|(raw & Hraw & Hs)].
  exists entries, raw. split; [reflexivity|]. split; [exact Hraw | exact Hs].
Qed.

(** *** React Query cells *)

Lemma copyTrueFlags_entries (state : HostValue) (fields : list string) :
  forall cleaned out,
    copyTrueFlags state fields cleaned = Ok out ->
    (forall key v, In (key, v) out ->
       In (key, v) cleaned \/
       (In key fields /\ v = JBool true /\
        hv_get state key = Ok (JBool true))) /\
    (forall key, ~ In key fields -> obj_get out key = obj_get cleaned key) /\
    (forall key, hv_get state key = Ok (JBool true) ->
       In key fields \/ obj_get cleaned key = Some (JBool true) ->
       obj_get out key = Some (JBool true)) /\
    (NoDup (map fst cleaned) -> NoDup (map fst out)).
Proof.
  induction fields as [|field rest IH]; intros cleaned out H;
    cbn [copyTrueFlags] in H.
  - injection H as <-. repeat split; auto. intros key _ [[]|Hc]. exact Hc.
  - apply bind_Ok_inv in H. destruct H as (flag & Hflag & H).
    assert (Hskip : flag <> JBool true ->
              copyTrueFlags state rest cleaned = Ok out ->
              (forall key v, In (key, v) out ->
                 In (key, v) cleaned \/
                 (In key (field :: rest) /\ v = JBool true /\
                  hv_get state key = Ok (JBool true))) /\
              (forall key, ~ In key (field :: rest) ->
                           obj_get out key = obj_get cleaned key) /\
              (forall key, hv_get state key = Ok (JBool true) ->
                 In key (field :: rest) \/
                 obj_get cleaned key = Some (JBool true) ->
                 obj_get out key = Some (JBool true)) /\
              (NoDup (map fst cleaned) -> NoDup (map fst out))).
    { intros Hflag' H'. destruct (IH _ _ H') as (Hin & Hget & Hset & Hnd).
      split; [|split; [|split]].
      - intros key v Hkv. destruct (Hin key v Hkv) as [Hc|(Hf & Hv)]; auto.
        right. split; [right; exact Hf | exact Hv].
      - intros key Hkey. apply Hget. intros Hr. apply Hkey. right. exact Hr.
      - intros key Htrue [[<-|Hr]|Hc]; [congruence| |]; apply Hset; auto.
      - exact Hnd. }
    destruct flag as [ | | [|] | | | | | | | ];
      try (apply Hskip; [discriminate | exact H]).
    destruct (IH _ _ H) as (Hin & Hget & Hset & Hnd).
    split; [|split; [|split]].
    + intros key v Hkv. destruct (Hin key v Hkv) as [Hc|(Hf & Hv)].
      * destruct (obj_set_entry _ _ _ _ _ Hc) as [Hc'|[-> ->]]; auto.
        right. split; [left; reflexivity|]. split; [reflexivity|exact Hflag].
      * right. split; [right; exact Hf | exact Hv].
    + intros key Hkey. rewrite Hget by (intros Hr; apply Hkey; right; exact Hr).
      apply obj_get_set_other. intros E. apply Hkey. left. symmetry. exact E.
    + intros key Htrue Hwhere. apply Hset; [exact Htrue|].
      destruct (String.eqb field key) eqn:E.
      * apply String.eqb_eq in E. subst key. right. apply obj_get_set_same.
      * assert (Hne : key <> field)
          by (intros ->; rewrite String.eqb_refl in E; discriminate).
        destruct Hwhere as [[Hf|Hr]|Hc]; [congruence | left; exact Hr |].
        right. rewrite obj_get_set_other; assumption.
    + intros Hc. apply Hnd. apply obj_set_NoDup. exact Hc.
Qed.

Definition LARGE_DATA : JsValue := JStr "[Large data object - truncated]".

(** What the cell keeps of its data: the data, or the placeholder when
    the JSON text of the data has more than 1000 characters. *)
Definition keptData (data : JsValue) (text : string) : JsValue :=
  if (1000 <? String.length text)%nat then LARGE_DATA else data.

(** What a field of a cleaned React Query cell can be. *)
Definition reactQueryField (state : HostValue) (entry : string * JsValue)
  : Prop :=
  let (key, v) := entry in
  (key = "_type" /\ v = JStr "ReactQuery") \/
  (key = "status" /\ hv_get state "status" = Ok v) \/
  (key = "data" /\
   exists data text,
     hv_get state "data" = Ok data /\
     stringifyValue data = Ok (Some text) /\ v = keptData data text) \/
  (key = "error" /\ hv_get state "error" = Ok v /\ truthy v = true) \/
  (In key boolFields /\ v = JBool true /\
   hv_get state key = Ok (JBool true)).

(** What the steps of [cleanReactQueryState] keep true of the object
    they build. *)
Definition queryCell (state : HostValue) (cleaned : Props) : Prop :=
  obj_get cleaned "_type" = Some (JStr "ReactQuery") /\
  Forall (reactQueryField state) cleaned /\
  NoDup (map fst cleaned).

Lemma queryCell_set (state : HostValue) (cleaned : Props) (key : string)
      (v : JsValue) :
  queryCell state cleaned -> key <> "_type" ->
  reactQueryField state (key, v) ->
  queryCell state (obj_set cleaned key v).
Proof.
  intros (Htype & Hfields & Hnd) Hkey Hfield. split; [|split].
  - rewrite obj_get_set_other by (intros E; apply Hkey; symmetry; exact E).
    exact Htype.
  - apply obj_set_Forall_at; assumption.
  - apply obj_set_NoDup. exact Hnd.
Qed.

(** X27. A cleaned React Query cell is tagged [_type: "ReactQuery"], has
    no field twice and holds nothing but that tag, the status, the data, a
    truthy error, and the flags among [isLoading], [isError], [isPending],
    [isFetching] that are [true].  It does hold each of them: the status
    when the cell has one; data that is neither [null] nor [undefined], as
    they are when their JSON text has at most 1000 characters and as the
    placeholder beyond; a truthy error; and every flag that is [true]. *)
Theorem cleaned_query_cell_is_a_whitelist :
  forall (state : HostValue) (cleaned : Props),
    cleanReactQueryState state = Ok (Some cleaned) ->
    obj_get cleaned "_type" = Some (JStr "ReactQuery") /\
    Forall (reactQueryField state) cleaned /\
    NoDup (map fst cleaned) /\
    (forall status,
        hv_has "status" state = Ok true ->
        hv_get state "status" = Ok status ->
        obj_get cleaned "status" = Some status) /\
    (forall data text,
        hv_has "data" state = Ok true ->
        hv_get state "data" = Ok data ->
        data <> JNull -> data <> JUndefined ->
        stringifyValue data = Ok (Some text) ->
        obj_get cleaned "data"
        = Some (if (1000 <? String.length text)%nat
                then JStr "[Large data object - truncated]" else data)) /\
    (forall err,
        hv_has "error" state = Ok true ->
        hv_get state "error" = Ok err -> truthy err = true ->
        obj_get cleaned "error" = Some err) /\
    (forall field,
        In field boolFields ->
        hv_get state field = Ok (JBool true) ->
        obj_get cleaned field = Some (JBool true)).
Proof.
  intros state cleaned H. unfold cleanReactQueryState in H.
  apply bind_Ok_inv in H. destruct H as (internal & _ & H).
  destruct internal; [discriminate|].
  apply bind_Ok_inv in H. destruct H as (hasStatus & HhasStatus & H).
  apply bind_Ok_inv in H. destruct H as (hasFetchStatus & _ & H).
  destruct (negb hasFetchStatus); [discriminate|].
  apply bind_Ok_inv in H. destruct H as (c1 & Hc1 & H).
  apply bind_Ok_inv in H. destruct H as (hasData & HhasData & H).
  apply bind_Ok_inv in H. destruct H as (c2 & Hc2 & H).
  apply bind_Ok_inv in H. destruct H as (hasError & HhasError & H).
  apply bind_Ok_inv in H. destruct H as (c3 & Hc3 & H).
  apply bind_Ok_inv in H. destruct H as (c4 & Hc4 & H).
  assert (E : cleaned = c4) by (destruct (_ || _); congruence).
  subst c4. clear H.
  assert (H0 : queryCell state [("_type", JStr "ReactQuery")]).
  { split; [reflexivity|]. split.
    - constructor; [left; auto | constructor].
    - constructor; [intros [] | constructor]. }
  (* the status *)
  assert (H1 : queryCell state c1 /\
               (forall status,
                   hasStatus = true -> hv_get state "status" = Ok status ->
                   obj_get c1 "status" = Some status)).
  { destruct hasStatus.
    - apply bind_Ok_inv in Hc1. destruct Hc1 as (status & Hstatus & Hc1).
      assert (E : c1 = obj_set [("_type", JStr "ReactQuery")] "status" status)
        by congruence.
      rewrite E. clear E Hc1. split.
      + apply queryCell_set; [exact H0 | discriminate |].
        right. left. auto.
      + intros status' _ Hstatus'. rewrite obj_get_set_same. congruence.
    - injection Hc1 as <-. split; [exact H0 | discriminate]. }
  destruct H1 as [Hq1 Hs1].
  (* the data *)
  assert (H2 : queryCell state c2 /\
               obj_get c2 "status" = obj_get c1 "status" /\
               (forall data text,
                   hasData = true -> hv_get state "data" = Ok data ->
                   data <> JNull -> data <> JUndefined ->
                   stringifyValue data = Ok (Some text) ->
                   obj_get c2 "data" = Some (keptData data text))).
  { destruct hasData;
      [|injection Hc2 as <-; split; [exact Hq1|]; split;
        [reflexivity | discriminate]].
    apply bind_Ok_inv in Hc2. destruct Hc2 as (data & Hdata & Hc2).
    assert (Hnone : c2 = c1 -> data = JNull \/ data = JUndefined ->
              queryCell state c2 /\
              obj_get c2 "status" = obj_get c1 "status" /\
              (forall data' text,
                  true = true -> hv_get state "data" = Ok data' ->
                  data' <> JNull -> data' <> JUndefined ->
                  stringifyValue data' = Ok (Some text) ->
                  obj_get c2 "data" = Some (keptData data' text))).
    { intros -> Hnullish. split; [exact Hq1|]. split; [reflexivity|].
      intros data' text _ Hdata' Hnull Hundef _.
      assert (data' = data) by congruence. subst data'.
      destruct Hnullish; contradiction. }
    assert (Hkept : (dataStr <- stringifyValue data ;;
                     match dataStr with
                     | None => Throw TypeError
                     | Some str =>
                         if (1000 <? String.length str)%nat
                         then Ok (obj_set c1 "data"
                                     (JStr "[Large data object - truncated]"))
                         else Ok (obj_set c1 "data" data)
                     end) = Ok c2 ->
              queryCell state c2 /\
              obj_get c2 "status" = obj_get c1 "status" /\
              (forall data' text,
                  true = true -> hv_get state "data" = Ok data' ->
                  data' <> JNull -> data' <> JUndefined ->
                  stringifyValue data' = Ok (Some text) ->
                  obj_get c2 "data" = Some (keptData data' text))).
    { intros Hrun. apply bind_Ok_inv in Hrun.
      destruct Hrun as (dataStr & Hstr & Hrun).
      destruct dataStr as [text|]; [|discriminate].
      assert (Hc2' : c2 = obj_set c1 "data" (keptData data text)).
      { unfold keptData, LARGE_DATA.
        destruct (1000 <? String.length text)%nat; congruence. }
      subst c2. clear Hrun. split; [|split].
      - apply queryCell_set; [exact Hq1 | discriminate |].
        right. right. left. split; [reflexivity|].
        exists data, text. auto.
      - apply obj_get_set_other. discriminate.
      - intros data' text' _ Hdata' _ _ Hstr'.
        assert (data' = data) by congruence. subst data'.
        assert (text' = text) by congruence. subst text'.
        apply obj_get_set_same. }
    destruct data;
      try (apply Hkept; exact Hc2);
      (injection Hc2 as Hc2; symmetry in Hc2; apply Hnone; auto). }
  destruct H2 as (Hq2 & Hs2 & Hd2).
  (* the error *)
  assert (H3 : queryCell state c3 /\
               obj_get c3 "status" = obj_get c2 "status" /\
               obj_get c3 "data" = obj_get c2 "data" /\
               (forall err,
                   hasError = true -> hv_get state "error" = Ok err ->
                   truthy err = true -> obj_get c3 "error" = Some err)).
  { destruct hasError;
      [|injection Hc3 as <-; split; [exact Hq2|]; repeat split; discriminate].
    apply bind_Ok_inv in Hc3. destruct Hc3 as (err & Herr & Hc3).
    destruct (truthy err) eqn:Htruthy; injection Hc3 as <-.
    - split; [|repeat split].
      + apply queryCell_set; [exact Hq2 | discriminate |].
        right. right. right. left. auto.
      + apply obj_get_set_other. discriminate.
      + apply obj_get_set_other. discriminate.
      + intros err' _ Herr' _. rewrite obj_get_set_same. congruence.
    - split; [exact Hq2|]. repeat split.
      intros err' _ Herr' Htruthy'. congruence. }
  destruct H3 as (Hq3 & Hs3 & Hd3 & He3).
  (* the flags *)
  destruct (copyTrueFlags_entries state boolFields c3 cleaned Hc4)
    as (Hin & Hget & Hset & Hnd).
  destruct Hq3 as (Ht3 & Hf3 & Hnd3).
  assert (Hother : forall key,
             In key ["_type"; "status"; "data"; "error"] ->
             obj_get cleaned key = obj_get c3 key).
  { intros key Hkey. apply Hget. cbn in Hkey |- *.
    intuition (subst; discriminate). }
  split; [rewrite Hother by (cbn; auto); exact Ht3|].
  split; [|split; [exact (Hnd Hnd3)|]].
  { apply Forall_forall. intros [key v] Hkv.
    destruct (Hin key v Hkv) as [Hc|Hflag].
    - rewrite Forall_forall in Hf3. apply (Hf3 (key, v) Hc).
    - right. right. right. right. exact Hflag. }
  split; [|split; [|split]].
  - intros status Hhas Hstatus.
    rewrite Hother by (cbn; auto). rewrite Hs3, Hs2.
    apply Hs1; [congruence | exact Hstatus].
  - intros data text Hhas Hdata Hnull Hundef Htext.
    rewrite Hother by (cbn; auto). rewrite Hd3.
    apply (Hd2 data text); auto. congruence.
  - intros err Hhas Herr Htruthy.
    rewrite Hother by (cbn; auto). apply He3; auto. congruence.
  - intros field Hfield Htrue. apply Hset; auto.
Qed.

(** *** Sample pages *)

(** A login form under a provider; its props hold a password and two
    functions, its hooks a string, a boolean and [null]. *)
Definition loginFiber : FiberNode :=
  componentFiber "LoginForm"
    (Some [("password", Ok (Plain (JStr "hunter2")));
           ("label", Ok (Plain (JStr "Sign in")));
           ("onSubmit", Ok (Plain JFunction));
           ("validate", Ok (Plain JFunction))])
    [Plain (JStr "ada"); Plain (JBool true); Plain JNull]
    (Some (componentFiber "Provider" (Some [("value", Ok (Plain (JNum 1)))]) []
       (Some (componentFiber "App" None [] None)))).

Definition loginElement : DomUtils.Element :=
  elementWithFiber (Some loginFiber) (Some "LoginForm")
    (Some (elementWithFiber None (Some "AuthPage") None)).

Definition loginItem : ComponentPathItem :=
  {| name := "LoginForm";
     source := FromFiber;
     sourceLocation := None;
     props := Some [("label", Plain (JStr "Sign in"));
                    ("validate", Plain (JStr "[Function]"))];
     state := Some [Plain (JStr "ada")] |}.

Definition bareItem (itemName : string) (itemSource : Source)
  : ComponentPathItem :=
  {| name := itemName;
     source := itemSource;
     sourceLocation := None;
     props := None;
     state := None |}.

Definition loginPath : list ComponentPathItem :=
  [bareItem "App" FromFiber; loginItem; bareItem "AuthPage" FromAttribute].

(** A row inside a list inside a row. *)
Definition listFiber : FiberNode :=
  componentFiber "Row" None []
    (Some (componentFiber "List" None []
       (Some (componentFiber "Row" None []
          (Some (componentFiber "App" None [] None)))))).

Definition rowElement : DomUtils.Element :=
  elementWithFiber (Some listFiber) (Some "Row")
    (Some (elementWithFiber None (Some "Checkout") None)).

Lemma path_props_hold_no_secret_or_function_witness :
  extractComponentPath loginElement = Ok loginPath /\
  ~ In "validate" EXCLUDED_PROPS /\
  isFunctionType (targetOf (Plain (JStr "[Function]"))) = false.
Proof.
  split; [reflexivity|].
  destruct (path_props_hold_no_secret_or_function
              loginElement loginPath loginItem
              [("label", Plain (JStr "Sign in"));
               ("validate", Plain (JStr "[Function]"))]
              "validate" (Plain (JStr "[Function]")))
    as (Hkey & Hfun & _).
  - reflexivity.
  - right; left; reflexivity.
  - reflexivity.
  - right; left; reflexivity.
  - split; [exact Hkey | exact Hfun].
Defined.

Lemma path_state_is_bounded_witness :
  extractComponentPath loginElement = Ok loginPath /\
  (0 < length [Plain (JStr "ada")] <= 10)%nat.
Proof.
  split; [reflexivity|].
  apply (path_state_is_bounded loginElement loginPath loginItem
                               [Plain (JStr "ada")]).
  - reflexivity.
  - right; left; reflexivity.
  - reflexivity.
Defined.

Lemma framework_entries_carry_no_props_or_state_witness :
  exists path item,
    extractComponentPath (elementWithFiber (Some wrapperChain) None None)
    = Ok path /\
    In item path /\ name item = "Suspense" /\
    props item = None /\ state item = None.
Proof.
  exists [bareItem "Router" FromFiber; bareItem "OuterLayoutRouter" FromFiber;
          bareItem "InnerLayoutRouter" FromFiber;
          bareItem "ErrorBoundary" FromFiber; bareItem "Suspense" FromFiber],
         (bareItem "Suspense" FromFiber).
  split; [reflexivity|]. split; [cbn; tauto|]. split; [reflexivity|].
  apply (framework_entries_carry_no_props_or_state
           (elementWithFiber (Some wrapperChain) None None)
           [bareItem "Router" FromFiber; bareItem "OuterLayoutRouter" FromFiber;
            bareItem "InnerLayoutRouter" FromFiber;
            bareItem "ErrorBoundary" FromFiber; bareItem "Suspense" FromFiber]
           (bareItem "Suspense" FromFiber)).
  - reflexivity.
  - cbn; tauto.
  - reflexivity.
Defined.

Lemma raw_path_is_root_first_then_attributes_witness :
  exists path allComponents,
    extractComponentPath rowElement = Ok path /\
    path = filterNoise allComponents /\
    map name allComponents = ["App"; "List"; "Row"; "Checkout"].
Proof.
  destruct (extractComponentPath rowElement) as [path|err] eqn:Hrun;
    [|vm_compute in Hrun; discriminate].
  destruct (raw_path_is_root_first_then_attributes rowElement path Hrun)
    as (allComponents & Hpath & Hnames).
  exists path, allComponents. split; [reflexivity|]. split; [exact Hpath|].
  exact Hnames.
Defined.

Lemma path_names_are_distinct_witness :
  extractComponentPath loginElement = Ok loginPath /\
  NoDup (map name loginPath).
Proof.
  split; [reflexivity|].
  apply (path_names_are_distinct loginElement loginPath). reflexivity.
Defined.

Lemma stored_prop_is_derived_from_memoized_prop_witness :
  extractProps loginFiber
  = Ok (Some [("label", Plain (JStr "Sign in"));
              ("validate", Plain (JStr "[Function]"))]) /\
  exists entries raw,
    memoizedProps loginFiber = Some entries /\
    In ("validate", Ok raw) entries.
Proof.
  split; [reflexivity|].
  destruct (stored_prop_is_derived_from_memoized_prop
              loginFiber
              [("label", Plain (JStr "Sign in"));
               ("validate", Plain (JStr "[Function]"))]
              "validate" (Plain (JStr "[Function]")) eq_refl
              (or_intror (or_introl eq_refl)))
    as (entries & raw & Hentries & Hraw & _).
  exists entries, raw. split; [exact Hentries | exact Hraw].
Defined.

(** A query that failed while refetching. *)
Definition failedQuery : HostValue :=
  Plain (JObj [("status", JStr "error"); ("data", JNull);
               ("error", JObj [("message", JStr "timeout")]);
               ("isLoading", JBool false); ("isFetching", JBool true);
               ("dataUpdatedAt", JNum 0)]).

(** A query that holds a page of two rows. *)
Definition loadedQuery : HostValue :=
  Plain (JObj [("status", JStr "success");
               ("data", JArr [JObj [("id", JNum 1)]; JObj [("id", JNum 2)]]);
               ("error", JNull); ("isLoading", JBool false)]).

(** A query whose data are [rows] times the number 1e21, which JSON
    writes in five characters. *)
Definition wideQuery (rows : nat) : HostValue :=
  Plain (JObj [("status", JStr "success");
               ("data", JArr (repeat (JNum 1000000000000000000000) rows))]).

Example cleaned_query_cells :
  cleanReactQueryState failedQuery
  = Ok (Some [("_type", JStr "ReactQuery"); ("status", JStr "error");
              ("error", JObj [("message", JStr "timeout")]);
              ("isFetching", JBool true)]) /\
  cleanReactQueryState (wideQuery 167)
  = Ok (Some [("_type", JStr "ReactQuery"); ("status", JStr "success");
              ("data", JStr "[Large data object - truncated]")]) /\
  cleanReactQueryState (wideQuery 166)
  = Ok (Some [("_type", JStr "ReactQuery"); ("status", JStr "success");
              ("data", JArr (repeat (JNum 1000000000000000000000) 166))]).
Proof. repeat split; vm_compute; reflexivity. Qed.

Lemma cleaned_query_cell_is_a_whitelist_witness :
  exists cleaned,
    cleanReactQueryState loadedQuery = Ok (Some cleaned) /\
    obj_get cleaned "_type" = Some (JStr "ReactQuery") /\
    obj_get cleaned "data"
    = Some (JArr [JObj [("id", JNum 1)]; JObj [("id", JNum 2)]]).
Proof.
  destruct (cleanReactQueryState loadedQuery) as [[cleaned|]|err] eqn:Hrun;
    try (vm_compute in Hrun; discriminate).
  destruct (cleaned_query_cell_is_a_whitelist loadedQuery cleaned Hrun)
    as (Htype & _ & _ & _ & Hdata & _).
  exists cleaned. split; [reflexivity|]. split; [exact Htype|].
  assert (Htext : exists text,
             stringifyValue
               (JArr [JObj [("id", JNum 1)]; JObj [("id", JNum 2)]])
             = Ok (Some text) /\ (1000 <? String.length text)%nat = false).
  { eexists. split; [vm_compute; reflexivity | reflexivity]. }
  destruct Htext as (text & Htext & Hshort).
  rewrite (Hdata _ text eq_refl eq_refl) by (try discriminate; exact Htext).
  rewrite Hshort. reflexivity.
Defined.

End ComponentPath.

(** * Capture orchestration (src/hooks/useContextCapture.ts) *)

Module ContextCapture.

Import Reporter.
Local Open Scope js_scope.

(** ** The rest of src/utils/reporter.ts *)

(** [generateReportId()], with the clock and the six base-36 digits
    drawn from [Math.random()]. *)
Definition generateReportId (now : Z) (random : string) : string :=
  "report-" ++ JsString.of_Z now ++ "-" ++ random.

Record ContextScreenshot : Type := mkScreenshot {
  reportId : string;
  data : string
}.

Definition SCREENSHOT_TAG : string := "[CLAUDE_CONTEXT_SCREENSHOT]".

(** [JSON.stringify(screenshot)]: two strings, which it accepts. *)
Definition screenshotJson (screenshot : ContextScreenshot) : string :=
  match JsOps.stringifyValue
          (JObj [("reportId", JStr (reportId screenshot));
                 ("data", JStr (data screenshot))]) with
  | Ok (Some text) => text
  | _ => ""
  end.

(** [sendToServer('/screenshot', screenshot, serverUrl, timeout)] *)
Definition sendScreenshot (server : Server) (screenshot : ContextScreenshot)
           (serverUrl : string) (timeout : Z) (w : World) : bool * World :=
  match fetchWithTimeout server (postRequest serverUrl "/screenshot") timeout w
  with
  | (Ok ok, w1) => (ok, w1)
  | (Throw _, w1) => (false, w1)
  end.

(** [logContextScreenshot(screenshot, config)] *)
Definition logContextScreenshot (server : Server)
           (screenshot : ContextScreenshot) (config : ReporterConfig)
           (w : World) : Delivery * World :=
  let serverUrl := orDefault (serverUrl config) DEFAULT_SERVER_URL in
  let serverTimeout := orDefault (serverTimeout config) 2000%Z in
  let forceConsole := orDefault (forceConsole config) false in
  let fallback (w : World) :=
    ({| method := ViaConsole; success := true |},
     logLines w
       [ Log [SCREENSHOT_TAG; screenshotJson screenshot];
         Log ["[ContextReporter] Screenshot captured for report: "
              ++ reportId screenshot] ]) in
  if negb forceConsole then
    let (serverAvailable, w1) :=
      checkServerAvailable server serverUrl serverTimeout w in
    if serverAvailable then
      let (sent, w2) :=
        sendScreenshot server screenshot serverUrl serverTimeout w1 in
      if sent then
        ({| method := ViaServer; success := true |},
         logLines w2
           [Log ["[ContextReporter] Screenshot sent to server: "
                 ++ reportId screenshot]])
      else fallback w2
    else fallback w1
  else fallback w.

(** A report as [createContextReport] builds it: what the transport
    reads of it, and the captured parts. *)
Record CapturedReport : Type := mkCaptured {
  transport : ContextReport;
  selectedElement : DomUtils.Info.ElementInfo;
  componentPath : list ComponentPath.ComponentPathItem;
  appState : Props;
  consoleErrors : option (list ConsoleCapture.ConsoleEntry)
}.

Definition stringifies (value : Fiber.HostValue) : bool :=
  match JsOps.JSON_stringify value with
  | Ok _ => true
  | Throw _ => false
  end.

(** [JSON.stringify(report)] returns: beside strings and numbers the
    report holds the props and hook values of the path and the
    application state. *)
Definition serializable (path : list ComponentPath.ComponentPathItem)
           (state : Props) : bool :=
  forallb (fun item =>
             match ComponentPath.props item with
             | Some ps => forallb (fun entry => stringifies (snd entry)) ps
             | None => true
             end
             && match ComponentPath.state item with
                | Some states => forallb stringifies states
                | None => true
                end) path
  && stringifies (Fiber.Plain (JObj state)).

(** [createContextReport(params)], on the page at [href]. *)
Definition createContextReport (href : string) (reportId : string)
           (info : DomUtils.Info.ElementInfo)
           (path : list ComponentPath.ComponentPathItem)
           (state : Props) (description : option string)
           (recent : option (list ConsoleCapture.ConsoleEntry))
  : CapturedReport :=
  {| transport :=
       {| id := reportId;
          url := href;
          description := description;
          selectedElement_tagName := DomUtils.Info.tagName info;
          selectedElement_id := DomUtils.Info.id info;
          componentPath_names := map ComponentPath.name path;
          jsonSafe := serializable path state |};
     selectedElement := info;
     componentPath := path;
     appState := state;
     consoleErrors := recent |}.

(** ** The hook *)

Record UseContextCaptureOptions : Type := mkOptions {
  (** the outcome of calling [getCustomState()] *)
  getCustomState : option (result StateCapture.StoreValue);
  excludeStateKeys : option (list string);
  (** what [onCapture(report)] does *)
  onCapture : option (CapturedReport -> result unit);
  reporter : option ReporterConfig
}.

(** The four [useState] cells. *)
Record HookState : Type := mkHook {
  isCapturing : bool;
  lastReport : option CapturedReport;
  lastReportMethod : option DeliveryMethod;
  error : option JsError
}.

(** The page around one call of [captureContext]. *)
Record Page : Type := mkPage {
  win : StateCapture.Window;
  href : string;
  consoleBuffer : list ConsoleCapture.ConsoleEntry;
  random : string;
  server : Server;
  (** what [captureScreenshot()] resolves to, [None] being [null], and
      the time it takes *)
  screenshotData : option string;
  screenshotTime : Z
}.

Record Outcome : Type := mkOutcome {
  returned : option CapturedReport;
  hookAfter : HookState;
  worldAfter : World;
  (** the argument of the [console.error] of the [catch] branch *)
  errorLogged : option JsError
}.

(** The [catch (err)] branch. *)
Definition captureFailed (err : JsError) (hook : HookState) (w : World)
  : Outcome :=
  {| returned := None;
     hookAfter := {| isCapturing := false;
                     lastReport := lastReport hook;
                     lastReportMethod := lastReportMethod hook;
                     error := Some err |};
     worldAfter := w;
     errorLogged := Some err |}.

(** The first half of the [try] block: the three extractions, the
    recent console entries and the report built from them.  The second
    component counts the warnings of [captureAppState].  The reporter's
    own warnings carry its tag and stay out of the console buffer. *)
Definition gatherReport (page : Page) (options : UseContextCaptureOptions)
           (element : DomUtils.Element) (description : option string)
           (now : Z) : result (CapturedReport * nat) :=
  let reportId := generateReportId now (random page) in
  elementInfo <- DomUtils.extractElementInfo element ;;
  path <- ComponentPath.extractComponentPath element ;;
  captured <- StateCapture.captureAppState (win page) (getCustomState options)
                                           (excludeStateKeys options) ;;
  let recent :=
    ConsoleCapture.getRecentConsoleEntries 30000 now (consoleBuffer page) in
  Ok (createContextReport (href page) reportId elementInfo path (fst captured)
                          description
                          (if (0 <? length recent)%nat
                           then Some recent else None),
      snd captured).

(** The inner [try] around the screenshot. *)
Definition captureScreenshotStep (page : Page) (config : ReporterConfig)
           (reportId : string) (w : World) : World :=
  let w1 := elapse (Z.max 0 (screenshotTime page)) w in
  match screenshotData page with
  | Some shot =>
      if String.eqb shot "" then w1
      else snd (logContextScreenshot (server page)
                  {| reportId := reportId; data := shot |} config w1)
  | None =>
      logLines w1
        [Warn ["[ContextReporter] Screenshot capture failed, continuing without screenshot:"]]
  end.

(** [captureContext(element, description)] *)
Definition captureContext (page : Page) (options : UseContextCaptureOptions)
           (element : DomUtils.Element) (description : option string)
           (hook : HookState) (w : World) : Outcome :=
  let hook := {| isCapturing := true;
                 lastReport := lastReport hook;
                 lastReportMethod := lastReportMethod hook;
                 error := None |} in
  match gatherReport page options element description (clock w) with
  | Throw err => captureFailed err hook w
  | Ok (report, warnings) =>
      let w :=
        logLines w
          (repeat (Warn ["[ContextReporter] Error capturing custom state:"])
                  warnings) in
      let config := orDefault (reporter options) emptyConfig in
      match logContextReport (server page) (transport report) config w with
      | (Throw err, w1) => captureFailed err hook w1
      | (Ok reportResult, w1) =>
          let hook := {| isCapturing := true;
                         lastReport := Some report;
                         lastReportMethod := Some (method reportResult);
                         error := None |} in
          match match onCapture options with
                | Some callback => callback report
                | None => Ok tt
                end with
          | Throw err => captureFailed err hook w1
          | Ok _ =>
              {| returned := Some report;
                 hookAfter := {| isCapturing := false;
                                 lastReport := lastReport hook;
                                 lastReportMethod := lastReportMethod hook;
                                 error := None |};
                 worldAfter :=
                   captureScreenshotStep page config (id (transport report))
                                         w1;
                 errorLogged := None |}
          end
      end
  end.

(** ** Facts *)

Lemma logContextReport_storage (server : Server) (report : ContextReport)
      (config : ReporterConfig) (w : World) :
  localStorage (snd (logContextReport server report config w))
  = localStorage (saveToLocalStorage report w).
Proof.
  unfold logContextReport.
  set (w1 := saveToLocalStorage report w).
  assert (Hfallback : forall w',
             localStorage (snd (consoleFallback report w')) = localStorage w').
  { intros w'. unfold consoleFallback.
    destruct (jsonSafe report); reflexivity. }
  destruct (negb (orDefault (forceConsole config) false)); [|apply Hfallback].
  pose proof (checkServerAvailable_storage
                server (orDefault (serverUrl config) DEFAULT_SERVER_URL)
                (orDefault (serverTimeout config) 1000%Z) w1) as Hcheck.
  destruct (checkServerAvailable _ _ _ w1) as [available w2].
  cbn [snd] in Hcheck. destruct available;
    [|rewrite Hfallback; exact Hcheck].
  pose proof (sendToServer_storage
                server "/report" report
                (orDefault (serverUrl config) DEFAULT_SERVER_URL)
                (orDefault (serverTimeout config) 1000%Z) w2) as Hsend.
  destruct (sendToServer _ _ _ _ _ w2) as [sent w3]. cbn [snd] in Hsend.
  destruct sent; [cbn [snd localStorage logLines] | rewrite Hfallback];
    congruence.
Qed.

Lemma logContextReport_Ok_safe (server : Server) (report : ContextReport)
      (config : ReporterConfig) (w : World) (delivery : Delivery) :
  fst (logContextReport server report config w) = Ok delivery ->
  jsonSafe report = true /\ success delivery = true.
Proof.
  unfold logContextReport.
  assert (Hfallback : forall w',
             fst (consoleFallback report w') = Ok delivery ->
             jsonSafe report = true /\ success delivery = true).
  { intros w'. unfold consoleFallback.
    destruct (jsonSafe report); cbn [fst]; [|discriminate].
    intros H. injection H as <-. split; reflexivity. }
  destruct (negb (orDefault (forceConsole config) false)); [|apply Hfallback].
  destruct (checkServerAvailable _ _ _ _) as [available w2].
  destruct available; [|apply Hfallback].
  unfold sendToServer. destruct (jsonSafe report) eqn:Hsafe.
  - destruct (fetchWithTimeout _ _ _ w2) as [[[|]|err] w3]; cbn [fst];
      try apply Hfallback.
    intros H. injection H as <-. split; reflexivity.
  - unfold consoleFallback. rewrite Hsafe. discriminate.
Qed.

Lemma logContextScreenshot_storage (server : Server)
      (screenshot : ContextScreenshot) (config : ReporterConfig) (w : World) :
  localStorage (snd (logContextScreenshot server screenshot config w))
  = localStorage w /\
  success (fst (logContextScreenshot server screenshot config w)) = true.
Proof.
  unfold logContextScreenshot.
  destruct (negb (orDefault (forceConsole config) false));
    [|split; reflexivity].
  pose proof (checkServerAvailable_storage
                server (orDefault (serverUrl config) DEFAULT_SERVER_URL)
                (orDefault (serverTimeout config) 2000%Z) w) as Hcheck.
  destruct (checkServerAvailable _ _ _ w) as [available w1].
  cbn [snd] in Hcheck. destruct available; [|split; [exact Hcheck|reflexivity]].
  unfold sendScreenshot.
  pose proof (fetchWithTimeout_world
                server
                (postRequest (orDefault (serverUrl config) DEFAULT_SERVER_URL)
                             "/screenshot")
                (orDefault (serverTimeout config) 2000%Z) w1) as (Hsend & _).
  destruct (fetchWithTimeout _ _ _ w1) as [[[|]|err] w2]; cbn [snd] in Hsend;
    cbn [fst snd localStorage logLines success]; split; congruence.
Qed.

Lemma captureScreenshotStep_storage (page : Page) (config : ReporterConfig)
      (reportId : string) (w : World) :
  localStorage (captureScreenshotStep page config reportId w)
  = localStorage w.
Proof.
  unfold captureScreenshotStep.
  destruct (screenshotData page) as [shot|]; [|reflexivity].
  destruct (String.eqb shot ""); [reflexivity|].
  rewrite (proj1 (logContextScreenshot_storage _ _ _ _)). reflexivity.
Qed.

(** X28. When [captureContext] returns a report, every extraction
    returned, [JSON.stringify] accepts the report, the hook ends with
    [isCapturing] false, no error and that report as [lastReport], and with
    a healthy storage the report heads the stored history, whatever the
    screenshot step did. *)
Theorem returned_report_is_serializable_and_stored :
  forall (page : Page) (options : UseContextCaptureOptions)
         (element : DomUtils.Element) (description : option string)
         (hook : HookState) (w : World) (report : CapturedReport),
    returned (captureContext page options element description hook w)
    = Some report ->
    let out := captureContext page options element description hook w in
    (exists warnings,
        gatherReport page options element description (clock w)
        = Ok (report, warnings)) /\
    jsonSafe (transport report) = true /\
    isCapturing (hookAfter out) = false /\
    lastReport (hookAfter out) = Some report /\
    lastReportMethod (hookAfter out) <> None /\
    error (hookAfter out) = None /\
    (storageHealthy (localStorage w) ->
     getStoredReports (worldAfter out)
     = firstn 20 (transport report :: getStoredReports w)).
Proof.
  intros page options element description hook w report Hret. cbn zeta.
  unfold captureContext in *.
  destruct (gatherReport page options element description (clock w))
    as [[gathered warnings]|err] eqn:Hgather; [|discriminate Hret].
  set (w0 := logLines w _) in *.
  pose proof (logContextReport_storage
                (server page) (transport gathered)
                (orDefault (reporter options) emptyConfig) w0) as Hstore.
  pose proof (logContextReport_Ok_safe
                (server page) (transport gathered)
                (orDefault (reporter options) emptyConfig) w0) as Hsafe.
  destruct (logContextReport _ _ _ w0) as [[delivery|err] w1];
    [|discriminate Hret].
  cbn [fst snd] in *.
  destruct (match onCapture options with
            | Some callback => callback gathered
            | None => Ok tt
            end) as [[]|err]; [|discriminate Hret].
  cbn [returned] in Hret. injection Hret as <-.
  destruct (Hsafe delivery eq_refl) as [Hjson _].
  cbn [hookAfter worldAfter isCapturing lastReport lastReportMethod error].
  split; [exists warnings; reflexivity|].
  split; [exact Hjson|]. repeat split; try discriminate.
  intros Hhealthy. unfold getStoredReports.
  rewrite captureScreenshotStep_storage, Hstore.
  apply (saveToLocalStorage_history (transport gathered) w0 Hjson Hhealthy).
Qed.



(** ** Sample captures *)

(** A page without state managers, with nothing listening on the port
    and a screenshot that fails. *)
Definition quietPage : Page :=
  {| win := [];
     href := "http://localhost:3000/cart";
     consoleBuffer := [];
     random := "k3x9qa";
     server := deadServer;
     screenshotData := None;
     screenshotTime := 120 |}.

Definition noOptions : UseContextCaptureOptions :=
  {| getCustomState := None;
     excludeStateKeys := None;
     onCapture := None;
     reporter := None |}.


Definition idleHook : HookState :=
  {| isCapturing := false;
     lastReport := None;
     lastReportMethod := None;
     error := None |}.

Lemma returned_report_is_serializable_and_stored_witness :
  exists report,
    returned (captureContext quietPage noOptions DomUtils.detachedButton None
                             idleHook freshWorld) = Some report /\
    jsonSafe (transport report) = true /\
    getStoredReports
      (worldAfter (captureContext quietPage noOptions DomUtils.detachedButton
                                  None idleHook freshWorld))
    = [transport report].
Proof.
  destruct (returned (captureContext quietPage noOptions
                                     DomUtils.detachedButton None idleHook
                                     freshWorld))
    as [report|] eqn:Hret; [|vm_compute in Hret; discriminate].
  destruct (returned_report_is_serializable_and_stored
              quietPage noOptions DomUtils.detachedButton None idleHook
              freshWorld report Hret)
    as (_ & Hsafe & _ & _ & _ & _ & Hhist).
  exists report. split; [reflexivity|]. split; [exact Hsafe|].
  apply Hhist. repeat split. discriminate.
Defined.



End ContextCapture.
